(** * becquerel: the calibration-function engine (core/calibration.py)

    A shallow embedding of [becquerel/core/calibration.py] and proofs about
    it.  Numbers are exact rationals ([Q]), each standing for a value that
    numpy holds in 64 bits (a float64 or an int64): numpy's float64 rounding
    and its non-finite values (nan, inf) have no counterpart here, nor has a
    Python integer beyond 64 bits, on which [np.isfinite] raises TypeError;
    so the [np.isfinite] guards of the source hold of every modelled number.
    Libraries outside the repository (black, ast, asteval, numpy.random,
    scipy.optimize, the h5 helpers) are the fields of the class [Externals];
    the module [Poly] gives one concrete instance, an interpreter for the
    polynomial fragment of the expression language, on which the closed
    examples are evaluated. *)

From Stdlib Require Import QArith Qabs Lia Lqa Ascii String Sorting.Sorted Sorting.Permutation.
From stdpp Require Import base strings list gmap pretty.

Local Open Scope Q_scope.
Local Open Scope string_scope.
Local Open Scope list_scope.

(** ** Exceptions and results *)

(** One tag per [raise CalibrationError(...)] site of the functions embedded
    below, named after the message it carries. *)
Inductive cal_msg :=
  | DomainNotLength2 | RangeNotLength2
  | DomainNotAscending | RangeNotAscending
  | BelowDomain | AboveDomain | BadIndVar
  | AstevalErrors | ComplexValues
  | BlackError | IndVarMissing | CannotExtractIndices
  | MinIndexNotZero | IndicesNotContiguous | ParamCountMismatch
  | CannotEvalFloat | CannotEvalArray
  | StartingParamsLength | NotEnoughPoints | SolverFailed
  | PointsXNot1D | PointsYNot1D | PointsLengthMismatch
  | XOutsideDomain | YOutsideRange
  | ParamsNot1D | CompareNonCalibration
  | ValueOutsideRange | ExpectedDataset (key : string) | UnexpectedDatasets
  | PolynomialOrder | LinearExpects2 | InterpolationExpects2.

Inductive exn :=
  | CalibrationError (m : cal_msg)
  | AssertionError
  | TypeError
  | ValueError
  | IndexError
  | AttributeError.

Inductive result (A : Type) :=
  | Ok (a : A)
  | Raise (e : exn).
Arguments Ok {A} a.
Arguments Raise {A} e.

Definition bindR {A B} (r : result A) (k : A -> result B) : result B :=
  match r with
  | Ok a => k a
  | Raise e => Raise e
  end.

Notation "'let!' x ':=' e 'in' k" := (bindR e (fun x => k))
  (at level 10, x name, e at level 100, k at level 200).
Notation "'check!' e 'in' k" := (bindR e (fun _ => k))
  (at level 10, e at level 100, k at level 200).

(** Code that also reads or writes a state [S]: numpy's random generator,
    or a Calibration object together with it.  An exception leaves the state
    as it was when it was raised. *)
Definition M (S A : Type) : Type := S -> result A * S.

Definition retM {S A} (a : A) : M S A := fun s => (Ok a, s).
Definition raiseM {S A} (e : exn) : M S A := fun s => (Raise e, s).
Definition bindM {S A B} (m : M S A) (k : A -> M S B) : M S B :=
  fun s => match m s with
           | (Ok a, s') => k a s'
           | (Raise e, s') => (Raise e, s')
           end.
Definition liftR {S A} (r : result A) : M S A := fun s => (r, s).

(** [try: m  except CalibrationError: raise CalibrationError(msg)] *)
Definition except_calibration {S A} (m : M S A) (msg : cal_msg) : M S A :=
  fun s => match m s with
           | (Raise (CalibrationError _), s') => (Raise (CalibrationError msg), s')
           | r => r
           end.

Notation "'let*' x ':=' e 'in' k" := (bindM e (fun x => k))
  (at level 10, x name, e at level 100, k at level 200).
Notation "'run*' e 'in' k" := (bindM e (fun _ => k))
  (at level 10, e at level 100, k at level 200).

(** ** Python strings

    Texts are ASCII: a character is one [ascii] below 128. *)

Definition newline : string := String "010" EmptyString.

Module Py.

(** [s.split(sep)] for a non-empty separator: the pieces between the
    non-overlapping occurrences of [sep], found left to right.  [skip]
    counts the characters of a matched separator still to be passed. *)
Fixpoint split_go (sep s : string) (skip : nat) (cur : string) : list string :=
  match s with
  | EmptyString => [cur]
  | String c s' =>
      match skip with
      | S k => split_go sep s' k cur
      | O =>
          if String.prefix sep s
          then cur :: split_go sep s' (String.length sep - 1) EmptyString
          else split_go sep s' 0 (String.append cur (String c EmptyString))
      end
  end.

Definition split (sep s : string) : list string := split_go sep s 0 EmptyString.

(** ASCII characters for which [str.isspace] holds. *)
Definition isspace (c : ascii) : bool :=
  let n := nat_of_ascii c in
  ((9 <=? n)%nat && (n <=? 13)%nat) || ((28 <=? n)%nat && (n <=? 32)%nat).

Fixpoint lstrip (s : string) : string :=
  match s with
  | EmptyString => EmptyString
  | String c s' => if isspace c then lstrip s' else s
  end.

Definition rstrip (s : string) : string := String.rev (lstrip (String.rev s)).
Definition strip (s : string) : string := rstrip (lstrip s).

Definition digit_of (c : ascii) : option Z :=
  let n := nat_of_ascii c in
  if ((48 <=? n)%nat && (n <=? 57)%nat) then Some (Z.of_nat (n - 48)) else None.

Inductive digit_state := AtStart | AfterDigit | AfterUnderscore.

(** Decimal digits, single underscores allowed between two digits. *)
Fixpoint digits_go (s : string) (st : digit_state) (acc : Z) : option Z :=
  match s with
  | EmptyString => match st with AfterDigit => Some acc | _ => None end
  | String c s' =>
      match digit_of c with
      | Some d => digits_go s' AfterDigit (10 * acc + d)%Z
      | None =>
          if Ascii.eqb c "_"%char
          then match st with
               | AfterDigit => digits_go s' AfterUnderscore acc
               | _ => None
               end
          else None
      end
  end.

(** The white space that [int] skips around the numeral of an ASCII text:
    that of C's [isspace], without the separators 28 to 31 that
    [str.isspace] accepts. *)
Definition isspace_int (c : ascii) : bool :=
  let n := nat_of_ascii c in
  ((9 <=? n)%nat && (n <=? 13)%nat) || (n =? 32)%nat.

Fixpoint skip_spaces (s : string) : string :=
  match s with
  | EmptyString => EmptyString
  | String c s' => if isspace_int c then skip_spaces s' else s
  end.

(** [int(s)] in base ten: surrounding white space, an optional sign, digits;
    [None] where Python raises ValueError. *)
Definition strip_int (s : string) : string :=
  String.rev (skip_spaces (String.rev (skip_spaces s))).

Definition int (s : string) : option Z :=
  match strip_int s with
  | String "-" ds => option_map Z.opp (digits_go ds AtStart 0)
  | String "+" ds => digits_go ds AtStart 0
  | ds => digits_go ds AtStart 0
  end.

End Py.

(** ** numpy values *)

(** A 0-d or a 1-d array of numbers. *)
Inductive ndarray :=
  | Scalar (q : Q)
  | Array (l : list Q).

(** What a caller may pass where the source says "array_like". *)
Inductive array_like :=
  | AScalar (q : Q)
  | A1D (l : list Q)
  | AND (rows : list (list Q)).

Definition Qlt_bool (a b : Q) : bool := negb (Qle_bool b a).

Definition elements (v : ndarray) : list Q :=
  match v with
  | Scalar q => [q]
  | Array l => l
  end.

Definition np_map (f : Q -> Q) (v : ndarray) : ndarray :=
  match v with
  | Scalar q => Scalar (f q)
  | Array l => Array (map f l)
  end.

Definition np_all (P : Q -> bool) (v : ndarray) : bool := forallb P (elements v).
Definition np_any (P : Q -> bool) (v : ndarray) : bool := existsb P (elements v).

Definition np_maximum (a b : Q) : Q := if Qle_bool a b then b else a.
Definition np_minimum (a b : Q) : Q := if Qle_bool a b then a else b.

(** [np.clip(y, lo, hi)] is [minimum(maximum(y, lo), hi)], element-wise. *)
Definition clip1 (lo hi y : Q) : Q := np_minimum (np_maximum y lo) hi.
Definition np_clip (y : ndarray) (lo hi : Q) : ndarray := np_map (clip1 lo hi) y.

(** Indexing [a[i]] of a validated bound pair. *)
Definition item (a : array_like) (i : nat) : Q :=
  match a with
  | A1D l => nth i l 0
  | _ => 0
  end.

(** Indexing [a[i]] of a bound pair nobody validated: a number cannot be
    indexed, a short sequence raises IndexError; a row of a nested sequence
    is not a number to compare with. *)
Definition getitem (a : array_like) (i : nat) : result Q :=
  match a with
  | AScalar _ => Raise TypeError
  | A1D l => match nth_error l i with
             | Some q => Ok q
             | None => Raise IndexError
             end
  | AND rows => match nth_error rows i with
                | Some _ => Raise ValueError
                | None => Raise IndexError
                end
  end.

(** [a - b] with broadcasting. *)
Definition np_sub (a b : ndarray) : result ndarray :=
  match a, b with
  | Scalar x, Scalar y => Ok (Scalar (x - y))
  | Scalar x, Array l => Ok (Array (map (fun y => x - y) l))
  | Array l, Scalar y => Ok (Array (map (fun x => x - y) l))
  | Array [x], Array l => Ok (Array (map (fun y => x - y) l))
  | Array l, Array [y] => Ok (Array (map (fun x => x - y) l))
  | Array l1, Array l2 =>
      if Nat.eqb (length l1) (length l2)
      then Ok (Array (map (fun xy => fst xy - snd xy) (combine l1 l2)))
      else Raise ValueError
  end.

(** [np.unique] followed by [sorted]: ascending, no repetition. *)
Fixpoint insert_unique (z : Z) (l : list Z) : list Z :=
  match l with
  | [] => [z]
  | y :: l' =>
      if (z <? y)%Z then z :: l
      else if (z =? y)%Z then l
      else y :: insert_unique z l'
  end.

Definition sorted_unique (l : list Z) : list Z := fold_right insert_unique [] l.

(** [np.diff] *)
Fixpoint np_diff (l : list Z) : list Z :=
  match l with
  | a :: (b :: _) as l' => (b - a)%Z :: np_diff l'
  | _ => []
  end.

(** [np.argsort]: the indices that put the keys in ascending order.  The
    source leaves the order of equal keys to numpy; here an insertion sort
    keeps them in their original order. *)
Fixpoint insert_by_key (a : Q * nat) (l : list (Q * nat)) : list (Q * nat) :=
  match l with
  | [] => [a]
  | b :: l' => if Qle_bool (fst a) (fst b) then a :: l else b :: insert_by_key a l'
  end.

Definition sort_by_key (l : list (Q * nat)) : list (Q * nat) :=
  fold_right insert_by_key [] l.

Definition np_argsort (xs : list Q) : list nat :=
  map snd (sort_by_key (combine xs (seq 0 (length xs)))).

(** Indexing with an index array, [a[i]]. *)
Definition take_indices (a : list Q) (i : list nat) : list Q :=
  map (fun j => nth j a 0) i.

(** [np.atleast_1d] with the number of dimensions of the result: a number
    becomes a one-element array, a nested sequence stays nested. *)
Definition np_atleast_1d (a : option array_like) : option (list Q) :=
  match a with
  | None => Some []
  | Some (AScalar q) => Some [q]
  | Some (A1D l) => Some l
  | Some (AND _) => None
  end.

(** A nested sequence whose rows differ in length: [np.asarray] raises
    ValueError on it (no array has an inhomogeneous shape). *)
Definition ragged (rows : list (list Q)) : bool :=
  match rows with
  | [] => false
  | r :: rest => negb (forallb (fun r' => (length r' =? length r)%nat) rest)
  end.

(** [np.asarray(a).flatten()] *)
Definition np_flatten (a : array_like) : list Q :=
  match a with
  | AScalar q => [q]
  | A1D l => l
  | AND rows => concat rows
  end.

(** [np.allclose(a, b)] with the default tolerances: every element has
    [|a - b| <= atol + rtol * |b|], [rtol = 1e-5], [atol = 1e-8]. *)
Definition rtol : Q := 1 # 100000.
Definition atol : Q := 1 # 100000000.
Definition isclose (a b : Q) : bool := Qle_bool (Qabs (a - b)) (atol + rtol * Qabs b).

Fixpoint allclose_list (a b : list Q) : bool :=
  match a, b with
  | [], [] => true
  | x :: a', y :: b' => isclose x y && allclose_list a' b'
  | _, _ => false
  end.

(** Shapes broadcast: a scalar or a one-element array against anything,
    equal lengths element-wise; other shapes raise ValueError. *)
Definition np_allclose (a b : ndarray) : result bool :=
  match a, b with
  | Scalar x, Scalar y => Ok (isclose x y)
  | Scalar x, Array l => Ok (forallb (fun y => isclose x y) l)
  | Array l, Scalar y => Ok (forallb (fun x => isclose x y) l)
  | Array [x], Array l => Ok (forallb (fun y => isclose x y) l)
  | Array l, Array [y] => Ok (forallb (fun x => isclose x y) l)
  | Array l1, Array l2 =>
      if Nat.eqb (length l1) (length l2) then Ok (allclose_list l1 l2)
      else Raise ValueError
  end.

Definition DEFAULT_DOMAIN : array_like := A1D [0; 100000].
Definition DEFAULT_RANGE : array_like := A1D [0; 100000].

(** ** The libraries the module calls *)

(** A value of the key-value store: text, a number or a flat array. *)
Inductive h5val :=
  | HStr (s : string)
  | HNum (q : Q)
  | HArr (l : list Q).

(** What [safe_eval(expression)] leaves behind: a real value, a value with a
    complex element, or a non-empty [safe_eval.error]. *)
Inductive interp_outcome :=
  | Value (y : ndarray)
  | ComplexValue
  | Errors.

Class Externals := {
  (** state of numpy's global random generator, and one draw from [0, 1) *)
  seed : Type;
  random_sample : seed -> Q * seed;
  (** [black.format_str]; [None] when it raises InvalidInput or TokenError *)
  black_format_str : string -> option string;
  (** the ids of the [ast.Name] nodes of [ast.parse(expression)] *)
  ast_names : string -> list string;
  (** the asteval interpreter run on [expression] with [p] and the
      independent variable bound *)
  safe_eval : string -> list Q -> string -> ndarray -> interp_outcome;
  (** [scipy.optimize.least_squares(residuals, params0)]: [Ok (Some x)] on
      success, [Ok None] when [results.success] is false *)
  least_squares : (list Q -> result ndarray) -> list Q -> result (option (list Q));
  (** [scipy.optimize.root_scalar(f, x0, bracket).root] *)
  root_scalar : (Q -> result Q) -> option Q -> Q * Q -> result Q;
  (** [io.h5.ensure_string] *)
  ensure_string : h5val -> result string
}.

(** The same libraries with another least-squares solver. *)
Definition with_least_squares (E : Externals)
    (solver : (list Q -> result ndarray) -> list Q -> result (option (list Q)))
    : Externals :=
  {| seed := @seed E;
     random_sample := @random_sample E;
     black_format_str := @black_format_str E;
     ast_names := @ast_names E;
     safe_eval := @safe_eval E;
     least_squares := solver;
     root_scalar := @root_scalar E;
     ensure_string := @ensure_string E |}.

(** ** Module-level functions *)

Definition _validate_domain_range (domain rng : array_like) : result unit :=
  (* must be length-2 iterables *)
  let! d := match domain with
            | A1D [d0; d1] => Ok (d0, d1)
            | AND rows =>
                if ragged rows then Raise ValueError
                else Raise (CalibrationError DomainNotLength2)
            | _ => Raise (CalibrationError DomainNotLength2)
            end in
  let! r := match rng with
            | A1D [r0; r1] => Ok (r0, r1)
            | AND rows =>
                if ragged rows then Raise ValueError
                else Raise (CalibrationError RangeNotLength2)
            | _ => Raise (CalibrationError RangeNotLength2)
            end in
  (* must contain finite values: every number numpy holds in 64 bits is *)
  (* must be in ascending order *)
  if negb (Qlt_bool (fst d) (snd d)) then Raise (CalibrationError DomainNotAscending)
  else if negb (Qlt_bool (fst r) (snd r)) then Raise (CalibrationError RangeNotAscending)
  else Ok tt.

Section Evaluation.
Context `{Externals}.

Definition _eval_expression (expression : string) (params : list Q) (x : ndarray)
    (ind_var : string) (domain rng : array_like) : result ndarray :=
  check! _validate_domain_range domain rng in
  if negb (np_all (fun v => Qle_bool (item domain 0) v) x)
  then Raise (CalibrationError BelowDomain)
  else if negb (np_all (fun v => Qle_bool v (item domain 1)) x)
  then Raise (CalibrationError AboveDomain)
  else if negb (bool_decide (ind_var ∈ ["x"; "y"]))
  then Raise (CalibrationError BadIndVar)
  else
    match safe_eval expression params ind_var x with
    | Errors => Raise (CalibrationError AstevalErrors)
    | ComplexValue => Raise (CalibrationError ComplexValues)
    | Value y =>
        (* clip values of y to the range *)
        Ok (np_clip y (item rng 0) (item rng 1))
    end.

End Evaluation.

Section Validation.
Context `{Externals}.

Fixpoint ints_of (tokens : list string) : result (list Z) :=
  match tokens with
  | [] => Ok []
  | token :: rest =>
      match Py.int (hd EmptyString (Py.split "]" token)) with
      | None => Raise ValueError
      | Some j => let! js := ints_of rest in Ok (j :: js)
      end
  end.

Definition _param_indices (expression : string) : result (list Z) :=
  (* find parameter indices *)
  let tokens := Py.split "p[" expression in
  let! param_indices := ints_of (tl tokens) in
  Ok (sorted_unique param_indices).

(** [np.random.uniform(lo, hi)] and [np.random.uniform(lo, hi, size=n)] *)
Definition uniform (lo hi : Q) : M seed Q :=
  fun s => let (u, s') := random_sample s in (Ok (lo + (hi - lo) * u), s').

Fixpoint uniform_array (lo hi : Q) (n : nat) : M seed (list Q) :=
  match n with
  | O => retM []
  | S k =>
      let* u := uniform lo hi in
      let* us := uniform_array lo hi k in
      retM (u :: us)
  end.

(** The message of the two smoke-test handlers reads
    [safe_eval.symtable['x']], which is bound once any evaluation has got as
    far as the interpreter; the handlers are modelled from that point on. *)
Definition _validate_expression (expression : string) (params : option (list Q))
    (ind_var : string) (domain rng : array_like) : M seed string :=
  run* liftR (_validate_domain_range domain rng) in
  (* apply black formatting for consistency and error checking *)
  let* expression :=
    match black_format_str expression with
    | Some formatted => retM formatted
    | None => raiseM (CalibrationError BlackError)
    end in
  (* make sure `ind_var` appears in the formula *)
  if negb (bool_decide (ind_var ∈ ["x"; "y"]))
  then raiseM (CalibrationError BadIndVar)
  else if negb (bool_decide (ind_var ∈ ast_names expression))
  then raiseM (CalibrationError IndVarMissing)
  else
  (* make sure each parameter appears at least once *)
  let* param_indices :=
    match _param_indices expression with
    | Ok idx => retM idx
    | Raise ValueError => raiseM (CalibrationError CannotExtractIndices)
    | Raise e => raiseM e
    end in
  run* (if (0 <? length param_indices)%nat
        then if negb (hd 0%Z param_indices =? 0)%Z
             then raiseM (CalibrationError MinIndexNotZero)
             else if negb (forallb (fun d => isclose (inject_Z d) 1) (np_diff param_indices))
             then raiseM (CalibrationError IndicesNotContiguous)
             else retM tt
        else retM tt) in
  run* match params with
       | Some p =>
           if negb (length param_indices =? length p)%nat
           then raiseM (CalibrationError ParamCountMismatch)
           else retM tt
       | None => retM tt
       end in
  (* make sure the expression can be evaluated *)
  run* match params with
       | Some p =>
           let* x_val := uniform (item domain 0) (item domain 1) in
           run* except_calibration
                  (liftR (_eval_expression expression p (Scalar x_val) ind_var
                            DEFAULT_DOMAIN DEFAULT_RANGE))
                  CannotEvalFloat in
           let* x_arr := uniform_array (item domain 0) (item domain 1) 5 in
           run* except_calibration
                  (liftR (_eval_expression expression p (Array x_arr) ind_var
                            DEFAULT_DOMAIN DEFAULT_RANGE))
                  CannotEvalArray in
           retM tt
       | None => retM tt
       end in
  retM (Py.strip expression).

Definition in_bounds (lo hi v : Q) : bool := Qle_bool lo v && Qle_bool v hi.

Definition _check_points (points_x points_y : option array_like)
    (domain rng : array_like) : result (list Q * list Q) :=
  match np_atleast_1d points_x with
  | None => Raise (CalibrationError PointsXNot1D)
  | Some xs =>
  match np_atleast_1d points_y with
  | None => Raise (CalibrationError PointsYNot1D)
  | Some ys =>
      if negb (length xs =? length ys)%nat
      then Raise (CalibrationError PointsLengthMismatch)
      else
        (* sort points in increasing order of x *)
        let i := np_argsort xs in
        let xs := take_indices xs i in
        let ys := take_indices ys i in
        (* check domain and range *)
        let! d0 := getitem domain 0 in
        let! d1 := getitem domain 1 in
        if existsb (fun x => Qlt_bool x d0 || Qlt_bool d1 x) xs
        then Raise (CalibrationError XOutsideDomain)
        else
          let! r0 := getitem rng 0 in
          let! r1 := getitem rng 1 in
          if existsb (fun y => Qlt_bool y r0 || Qlt_bool r1 y) ys
          then Raise (CalibrationError YOutsideRange)
          else Ok (xs, ys)
  end end.

Definition _fit_expression (expression : string) (points_x points_y : option array_like)
    (params0 : option array_like) (domain rng : array_like) : M seed (list Q) :=
  let* expression := _validate_expression expression None "x" domain rng in
  let* points := liftR (_check_points points_x points_y domain rng) in
  let points_x := fst points in
  let points_y := snd points in
  (* check that we have the expected number of parameters *)
  let* indices := liftR (_param_indices expression) in
  let n_params := length indices in
  let params0 :=
    match params0 with
    | None => repeat 1 n_params
    | Some a => np_flatten a
    end in
  if negb (length params0 =? n_params)%nat
  then raiseM (CalibrationError StartingParamsLength)
  else
  let* expression :=
    _validate_expression expression (Some params0) "x" DEFAULT_DOMAIN DEFAULT_RANGE in
  (* check that we have enough points *)
  if (length points_x <? n_params)%nat
  then raiseM (CalibrationError NotEnoughPoints)
  else
  (* skip fitting if there are zero parameters to fit *)
  if (n_params =? 0)%nat
  then retM []
  else
  (* define the residuals for least squares *)
  let residuals p :=
    let! fs := _eval_expression expression p (Array points_x) "x"
                 DEFAULT_DOMAIN DEFAULT_RANGE in
    np_sub (Array points_y) fs in
  (* perform the fit *)
  match least_squares residuals params0 with
  | Raise e => raiseM e
  | Ok None => raiseM (CalibrationError SolverFailed)
  | Ok (Some params) => retM params
  end.

End Validation.

(** ** The class Calibration *)

Record Calibration := mkCalibration {
  _expression : string;
  _params : list Q;
  _inv_expression : option string;
  _domain : array_like;
  _range : array_like;
  _attrs : gmap string h5val;
  _points_x : list Q;
  _points_y : list Q;
  (** whether the two point attributes are numpy arrays: they are Python
      lists from the assignments of [set_points] up to the first
      [np.append] of [add_points] *)
  _points_ndarray : bool
}.

(** Attribute assignment [self._field = v]. *)
Definition with_expression (v : string) (c : Calibration) : Calibration :=
  mkCalibration v (_params c) (_inv_expression c) (_domain c) (_range c)
    (_attrs c) (_points_x c) (_points_y c) (_points_ndarray c).
Definition with_params (v : list Q) (c : Calibration) : Calibration :=
  mkCalibration (_expression c) v (_inv_expression c) (_domain c) (_range c)
    (_attrs c) (_points_x c) (_points_y c) (_points_ndarray c).
Definition with_inv_expression (v : option string) (c : Calibration) : Calibration :=
  mkCalibration (_expression c) (_params c) v (_domain c) (_range c)
    (_attrs c) (_points_x c) (_points_y c) (_points_ndarray c).
Definition with_domain (v : array_like) (c : Calibration) : Calibration :=
  mkCalibration (_expression c) (_params c) (_inv_expression c) v (_range c)
    (_attrs c) (_points_x c) (_points_y c) (_points_ndarray c).
Definition with_range (v : array_like) (c : Calibration) : Calibration :=
  mkCalibration (_expression c) (_params c) (_inv_expression c) (_domain c) v
    (_attrs c) (_points_x c) (_points_y c) (_points_ndarray c).
Definition with_attrs (v : gmap string h5val) (c : Calibration) : Calibration :=
  mkCalibration (_expression c) (_params c) (_inv_expression c) (_domain c) (_range c)
    v (_points_x c) (_points_y c) (_points_ndarray c).
Definition with_points_x (v : list Q) (c : Calibration) : Calibration :=
  mkCalibration (_expression c) (_params c) (_inv_expression c) (_domain c) (_range c)
    (_attrs c) v (_points_y c) (_points_ndarray c).
Definition with_points_y (v : list Q) (c : Calibration) : Calibration :=
  mkCalibration (_expression c) (_params c) (_inv_expression c) (_domain c) (_range c)
    (_attrs c) (_points_x c) v (_points_ndarray c).
Definition with_points_ndarray (v : bool) (c : Calibration) : Calibration :=
  mkCalibration (_expression c) (_params c) (_inv_expression c) (_domain c) (_range c)
    (_attrs c) (_points_x c) (_points_y c) v.

(** Anything a Calibration can be compared with. *)
Inductive pyobject :=
  | PyCalibration (c : Calibration)
  | PyNone
  | PyNumber (q : Q)
  | PyString (s : string)
  | PyList (l : list Q).

Definition isinstance_Calibration (o : pyobject) : bool :=
  match o with PyCalibration _ => true | _ => false end.

Section Class.
Context `{Externals}.

(** A method runs on the object and numpy's random generator. *)
Definition Meth (A : Type) : Type := M (Calibration * seed) A.

Definition self : Meth Calibration := fun s => (Ok (fst s), s).
Definition assign (f : Calibration -> Calibration) : Meth unit :=
  fun s => (Ok tt, (f (fst s), snd s)).
Definition module_call {A} (m : M seed A) : Meth A :=
  fun s => let (r, g) := m (snd s) in (r, (fst s, g)).

(** *** Property setters *)

Definition set_expression (expression : string) : Meth unit :=
  let* expression :=
    module_call (_validate_expression expression None "x" DEFAULT_DOMAIN DEFAULT_RANGE) in
  assign (with_expression expression).

Definition set_params (p : array_like) : Meth unit :=
  let* params :=
    match p with
    | A1D l => retM l
    | _ => raiseM (CalibrationError ParamsNot1D)
    end in
  let* c := self in
  run* module_call (_validate_expression (_expression c) (Some params) "x"
                      DEFAULT_DOMAIN DEFAULT_RANGE) in
  assign (with_params params).

Definition set_inv_expression (inv_expression : option string) : Meth unit :=
  match inv_expression with
  | None => assign (with_inv_expression None)
  | Some e =>
      let* e := module_call (_validate_expression e None "y" DEFAULT_DOMAIN DEFAULT_RANGE) in
      assign (with_inv_expression (Some e))
  end.

Definition set_domain (domain : array_like) : Meth unit :=
  run* liftR (_validate_domain_range domain (A1D [0; 1])) in
  assign (with_domain domain).

Definition set_range (rng : array_like) : Meth unit :=
  run* liftR (_validate_domain_range (A1D [0; 1]) rng) in
  assign (with_range rng).

Definition set_attrs (attrs : gmap string h5val) : Meth unit :=
  assign (with_attrs attrs).

(** *** Points *)

Definition add_points (points_x points_y : option array_like) : Meth unit :=
  let* c := self in
  let* points := liftR (_check_points points_x points_y (_domain c) (_range c)) in
  run* assign (fun c' => with_points_ndarray true
                            (with_points_x (_points_x c ++ fst points) c')) in
  run* assign (with_points_y (_points_y c ++ snd points)) in
  let* c := self in
  let* points := liftR (_check_points (Some (A1D (_points_x c))) (Some (A1D (_points_y c)))
                          (_domain c) (_range c)) in
  run* assign (with_points_x (fst points)) in
  assign (with_points_y (snd points)).

Definition set_points (points_x points_y : option array_like) : Meth unit :=
  run* assign (fun c => with_points_ndarray false (with_points_x [] c)) in
  run* assign (with_points_y []) in
  add_points points_x points_y.

(** *** Construction *)

(** The object before [__init__] has assigned anything; [__init__] reads no
    attribute before it has set it. *)
Definition blank : Calibration :=
  mkCalibration EmptyString [] None (A1D []) (A1D []) ∅ [] [] false.

Definition __init__ (expression : string) (params : array_like)
    (inv_expression : option string) (domain rng : array_like)
    (attrs : gmap string h5val) : M seed Calibration :=
  fun g =>
    match (run* set_expression expression in
           run* set_params params in
           run* set_inv_expression inv_expression in
           run* set_domain domain in
           run* set_range rng in
           run* set_attrs attrs in
           set_points None None) (blank, g) with
    | (Ok _, (c, g')) => (Ok c, g')
    | (Raise e, (_, g')) => (Raise e, g')
    end.

(** *** Evaluation, inversion, comparison *)

Definition __call__ (c : Calibration) (x : ndarray) : result ndarray :=
  _eval_expression (_expression c) (_params c) x "x" (_domain c) (_range c).

Definition as_scalar (v : ndarray) : result Q :=
  match v with
  | Scalar q => Ok q
  | Array [q] => Ok q
  | Array _ => Raise ValueError
  end.

(** The loop [for j in range(len(x))] of the numerical branch. *)
Fixpoint inverse_loop (c : Calibration) (ys : list Q) (x0 : option ndarray) (j : nat)
    : result (list Q) :=
  match ys with
  | [] => Ok []
  | yj :: rest =>
      let! x0j := match x0 with
                  | Some (Array l) => match nth_error l j with
                                      | Some v => Ok (Some v)
                                      | None => Raise IndexError
                                      end
                  | Some (Scalar _) => Raise IndexError
                  | None => Ok None
                  end in
      let! root := root_scalar
                     (fun _x => let! f := __call__ c (Scalar _x) in
                                let! d := np_sub f (Scalar yj) in as_scalar d)
                     x0j (item (_domain c) 0, item (_domain c) 1) in
      let! roots := inverse_loop c rest x0 (S j) in
      Ok (root :: roots)
  end.

(** The value [x] that [inverse] computes before its final check: a root
    found numerically, or the inverse expression evaluated. *)
Definition inverse_root (c : Calibration) (y : ndarray) (x0 : option ndarray)
    : result ndarray :=
  match _inv_expression c with
  | None =>
      let bracket := (item (_domain c) 0, item (_domain c) 1) in
      match y with
      | Scalar yv =>
          let! x0v := match x0 with
                      | Some v => let! q := as_scalar v in Ok (Some q)
                      | None => Ok None
                      end in
          let! root := root_scalar
                         (fun _x => let! f := __call__ c (Scalar _x) in
                                    let! d := np_sub f (Scalar yv) in as_scalar d)
                         x0v bracket in
          Ok (Scalar root)
      | Array ys =>
          let! roots := inverse_loop c ys x0 0 in
          Ok (Array roots)
      end
  | Some inv =>
      _eval_expression inv (_params c) y "y"
        (_range c)  (* domain and range are swapped for inverse *)
        (_domain c)
  end.

Definition inverse (c : Calibration) (y : ndarray) (x0 : option ndarray) : result ndarray :=
  if np_any (fun v => Qlt_bool v (item (_range c) 0) || Qlt_bool (item (_range c) 1) v) y
  then Raise (CalibrationError ValueOutsideRange)
  else
    let! x := inverse_root c y x0 in
    (* perform a final check on the calculated inverse *)
    let! fx := __call__ c x in
    let! close := np_allclose fx y in
    if close then Ok x else Raise AssertionError.

Definition __eq__ (c : Calibration) (other : pyobject) : result bool :=
  match other with
  | PyCalibration o =>
      if negb (length (_params c) =? length (_params o))%nat
      then Ok false
      else if negb (String.eqb (_expression c) (_expression o))
      then Ok false
      else np_allclose (Array (_params c)) (Array (_params o))
  | _ => Raise (CalibrationError CompareNonCalibration)
  end.

(** *** Fitting *)

Definition fit : Meth unit :=
  let* c := self in
  let* params :=
    module_call (_fit_expression (_expression c)
                   (Some (A1D (_points_x c))) (Some (A1D (_points_y c)))
                   (Some (A1D (_params c))) (_domain c) (_range c)) in
  set_params (A1D params).

(** *** Reading from the key-value store *)

(** A dataset handed to a numeric argument.  Text there makes numpy raise
    somewhere inside the constructor; the model raises TypeError before the
    constructor runs. *)
Definition as_array_like (v : h5val) : result array_like :=
  match v with
  | HArr l => Ok (A1D l)
  | HNum q => Ok (AScalar q)
  | HStr _ => Raise TypeError
  end.

Definition known_datasets : gset string :=
  list_to_set ["expression"; "params"; "inv_expression"; "domain"; "range";
               "points_x"; "points_y"].

(** The names [__init__] binds itself; a keyword of [**attrs] with one of
    the first two, or one spelled out in the call, is a TypeError. *)
Definition clashing_keywords : list string :=
  ["self"; "expression"; "params"; "inv_expression"; "domain"; "range"].

(** [read] after [io.h5.read_h5(name)] has returned [dsets] and [attrs]. *)
Definition read (dsets attrs : gmap string h5val) : M seed Calibration :=
  match dsets !! "params" with
  | None => raiseM (CalibrationError (ExpectedDataset "params"))
  | Some ds_params =>
  match dsets !! "expression" with
  | None => raiseM (CalibrationError (ExpectedDataset "expression"))
  | Some ds_expression =>
  match dsets !! "domain" with
  | None => raiseM (CalibrationError (ExpectedDataset "domain"))
  | Some ds_domain =>
  match dsets !! "range" with
  | None => raiseM (CalibrationError (ExpectedDataset "range"))
  | Some ds_range =>
      let unexpected := dom dsets ∖ known_datasets in
      if negb (bool_decide (unexpected = ∅))
      then raiseM (CalibrationError UnexpectedDatasets)
      else
      let* expr := liftR (ensure_string ds_expression) in
      let* inv_expr :=
        match dsets !! "inv_expression" with
        | Some v => let* e := liftR (ensure_string v) in retM (Some e)
        | None => retM None
        end in
      (* cls(expr, dsets["params"], inv_expression=inv_expr,
             domain=dsets["domain"], range=dsets["range"], **attrs):
         __init__ has no parameter called range, so that keyword lands in
         its **attrs and rng keeps its default unless attrs carries "rng" *)
      if existsb (fun k => bool_decide (is_Some (attrs !! k))) clashing_keywords
      then raiseM TypeError
      else
      let keywords := <["range" := ds_range]> attrs in
      let* rng := match keywords !! "rng" with
                  | Some v => liftR (as_array_like v)
                  | None => retM DEFAULT_RANGE
                  end in
      let* params := liftR (as_array_like ds_params) in
      let* domain := liftR (as_array_like ds_domain) in
      let* cal := __init__ expr params inv_expr domain rng (delete "rng" keywords) in
      match dsets !! "points_x", dsets !! "points_y" with
      | Some px, Some py =>
          let* px := liftR (as_array_like px) in
          let* py := liftR (as_array_like py) in
          fun g =>
            match set_points (Some px) (Some py) (cal, g) with
            | (Ok _, (cal', g')) => (Ok cal', g')
            | (Raise e, (_, g')) => (Raise e, g')
            end
      | _, _ => retM cal
      end
  end end end end.

End Class.

(** ** The rest of the class *)

(** [len(a)] *)
Definition py_len (a : array_like) : result nat :=
  match a with
  | AScalar _ => Raise TypeError
  | A1D l => Ok (length l)
  | AND rows => Ok (length rows)
  end.

(** [f"{n}"] for a non-negative integer: its decimal digits. *)
Definition py_str (n : nat) : string := pretty n.

(** One pass of the loop of [_polynomial_expression]. *)
Definition polynomial_term (expr : string) (n : nat) : string :=
  String.append expr
    (String.append " + p["
       (String.append (py_str n) (String.append "] * x ** " (py_str n)))).

Definition _polynomial_expression (params : array_like) : result string :=
  let! len := py_len params in
  let order := (Z.of_nat len - 1)%Z in
  if (order <=? 0)%Z
  then Raise (CalibrationError PolynomialOrder)
  else Ok (fold_left polynomial_term (seq 1 (Z.to_nat order)) "p[0]").

(** A float64 that a division produced: a number, or inf or nan. *)
Inductive float64 :=
  | Finite (q : Q)
  | NonFinite.

(** [a / b] and [np.sum] on such values: a division by zero gives inf or
    nan, which a sum keeps. *)
Definition np_true_divide (a b : Q) : float64 :=
  if Qeq_bool b 0 then NonFinite else Finite (a / b).

Definition add64 (a b : float64) : float64 :=
  match a, b with
  | Finite x, Finite y => Finite (x + y)
  | _, _ => NonFinite
  end.

Definition np_sum64 (l : list float64) : float64 := fold_right add64 (Finite 0) l.

(** Indexing with a boolean mask, [a[mask]]. *)
Fixpoint np_compress (mask : list bool) (a : list Q) : list Q :=
  match mask, a with
  | m :: mask', x :: a' => if m then x :: np_compress mask' a' else np_compress mask' a'
  | _, _ => []
  end.

Definition np_sum (l : list Q) : Q := fold_right Qplus 0 l.
Definition np_mean (l : list Q) : Q := np_sum l / inject_Z (Z.of_nat (length l)).
Definition square (q : Q) : Q := q * q.

Section ClassRest.
Context `{Externals}.

(** [cls(expression, params, domain=domain, rng=rng, **attrs)]: a key of
    [attrs] named like a bound argument is a TypeError before [__init__]
    runs; the key "inv_expression" is the constructor's argument of that
    name, and a number or an array there reaches the formatter once
    expression and params have been set, which reads it as text (an
    AttributeError). *)
Definition construct (expression : string) (params : array_like)
    (domain rng : array_like) (attrs : gmap string h5val) : M seed Calibration :=
  if existsb (fun k => bool_decide (is_Some (attrs !! k)))
       ["self"; "expression"; "params"; "domain"; "rng"]
  then raiseM TypeError
  else
    match attrs !! "inv_expression" with
    | None => __init__ expression params None domain rng attrs
    | Some (HStr inv) =>
        __init__ expression params (Some inv) domain rng (delete "inv_expression" attrs)
    | Some _ =>
        fun g =>
          match (run* set_expression expression in set_params params) (blank, g) with
          | (Ok _, (_, g')) => (Raise AttributeError, g')
          | (Raise e, (_, g')) => (Raise e, g')
          end
    end.

(** A method run on an object that is then returned. *)
Definition on_object (m : Meth unit) (cal : Calibration) : M seed Calibration :=
  fun g =>
    match m (cal, g) with
    | (Ok _, (cal', g')) => (Ok cal', g')
    | (Raise e, (_, g')) => (Raise e, g')
    end.

Definition copy (c : Calibration) : M seed Calibration :=
  if existsb (fun k => bool_decide (is_Some (_attrs c !! k)))
       ["self"; "expression"; "params"; "inv_expression"; "domain"; "rng"]
  then raiseM TypeError
  else
    let* cal := __init__ (_expression c) (A1D (_params c)) (_inv_expression c)
                  (_domain c) (_range c) (_attrs c) in
    on_object (set_points (Some (A1D (_points_x cal))) (Some (A1D (_points_y cal)))) cal.

(** The bounds as the store receives them. *)
Definition h5_of (a : array_like) : h5val := HArr (np_flatten a).

(** [write]: the datasets and the attributes handed to [io.h5.write_h5]. *)
Definition write (c : Calibration) : gmap string h5val * gmap string h5val :=
  let dsets : gmap string h5val :=
    list_to_map [("expression", HStr (_expression c));
                 ("params", HArr (_params c));
                 ("domain", h5_of (_domain c));
                 ("range", h5_of (_range c));
                 ("points_x", HArr (_points_x c));
                 ("points_y", HArr (_points_y c))] in
  let dsets := match _inv_expression c with
               | Some inv => <["inv_expression" := HStr inv]> dsets
               | None => dsets
               end in
  (dsets, _attrs c).

Definition fit_points (points_x points_y : option array_like)
    (params0 : option array_like) (include_origin : bool) : Meth unit :=
  run* set_points points_x points_y in
  run* (if include_origin
        then add_points (Some (AScalar 0)) (Some (AScalar 0))
        else retM tt) in
  run* match params0 with
       | Some p => set_params p
       | None => retM tt
       end in
  fit.

Definition from_points (expression : string) (points_x points_y : option array_like)
    (params0 : option array_like) (include_origin : bool)
    (domain rng : array_like) (attrs : gmap string h5val) : M seed Calibration :=
  let* points := liftR (_check_points points_x points_y domain rng) in
  let points :=
    if include_origin then (0 :: fst points, 0 :: snd points) else points in
  let* points := liftR (_check_points (Some (A1D (fst points))) (Some (A1D (snd points)))
                          domain rng) in
  let* params := _fit_expression expression (Some (A1D (fst points)))
                   (Some (A1D (snd points))) params0 domain rng in
  let* cal := construct expression (A1D params) domain rng attrs in
  on_object (set_points (Some (A1D (fst points))) (Some (A1D (snd points)))) cal.

Definition from_linear (params : array_like) (domain rng : array_like)
    (attrs : gmap string h5val) : M seed Calibration :=
  let expr := "p[0] + p[1] * x" in
  let* len := liftR (py_len params) in
  if negb (len =? 2)%nat
  then raiseM (CalibrationError LinearExpects2)
  else construct expr params domain rng attrs.

Definition from_polynomial (params : array_like) (domain rng : array_like)
    (attrs : gmap string h5val) : M seed Calibration :=
  let* expr := liftR (_polynomial_expression params) in
  construct expr params domain rng attrs.

Definition from_sqrt_polynomial (params : array_like) (domain rng : array_like)
    (attrs : gmap string h5val) : M seed Calibration :=
  let* expr := liftR (_polynomial_expression params) in
  let expr := String.append "np.sqrt(" (String.append expr ")") in
  construct expr params domain rng attrs.

(** *** Quality of a fit *)

Definition fit_y (c : Calibration) : result ndarray :=
  __call__ c (Array (_points_x c)).

(** The quotient is nan or inf when the total sum of squares is zero.  The
    sums are taken exactly here: float64 rounding, which can make a total
    of nearly equal values zero or keep the total of equal values off zero,
    is not modelled. *)
Definition fit_R_squared (c : Calibration) : result float64 :=
  (* residual sum of squares *)
  let! fy := fit_y c in
  let! residuals := np_sub (Array (_points_y c)) fy in
  let ss_res := np_sum (map square (elements residuals)) in
  (* total sum of squares *)
  let mean := np_mean (_points_y c) in
  let ss_tot := np_sum (map (fun y => square (y - mean)) (_points_y c)) in
  (* r-squared *)
  Ok (if Qeq_bool ss_tot 0 then NonFinite else Finite (1 - ss_res / ss_tot)).

(** [self.points_y.shape] is an AttributeError while the points are Python
    lists.  The message of the ValueError for unequal shapes reads [self.y],
    which no Calibration has: what is raised there is an AttributeError
    too. *)
Definition fit_chi_squared (c : Calibration) : result float64 :=
  if negb (_points_ndarray c) then Raise AttributeError
  else
  let! fy := fit_y c in
  match fy with
  | Scalar _ => Raise AttributeError
  | Array fitted =>
      if negb (length (_points_y c) =? length fitted)%nat
      then Raise AttributeError
      else
        (* Mask out zeros *)
        let mask := map (Qlt_bool 0) (_points_y c) in
        let fit_y := np_compress mask fitted in
        let points_y := np_compress mask (_points_y c) in
        Ok (np_sum64 (map (fun yf => np_true_divide (square (fst yf - snd yf)) (fst yf))
                        (combine points_y fit_y)))
  end.



End ClassRest.

(** [from_interpolation], for any text [np.array2string] gives of an array
    of floats (with precision 9 and the separator ", "). *)
Section Interpolation.
Context `{Externals}.
Variable np_array2string : list Q -> string.

Definition from_interpolation (points_x points_y : option array_like)
    (domain rng : array_like) (attrs : gmap string h5val) : M seed Calibration :=
  let* points := liftR (_check_points points_x points_y domain rng) in
  if (length (fst points) <? 2)%nat
  then raiseM (CalibrationError InterpolationExpects2)
  else
    let xp := np_array2string (fst points) in
    let yp := np_array2string (snd points) in
    let expr := EmptyString in
    let expr :=
      expr +:+ "scipy.interpolate.interp1d(" +:+ xp +:+ ", " +:+ yp
           +:+ ", fill_value='extrapolate')(x)" in
    construct expr (A1D []) domain rng attrs.

End Interpolation.

(** ** One instance of the libraries: the polynomial fragment

    Integer literals, the independent variable, [p[j]], unary minus,
    [+], [-], [*], [** n] with a literal exponent, and parentheses.  Text
    outside this fragment is rejected by the instance, as black rejects text
    that is not Python.  The formatter prints the tokens in black's spacing
    (binary operators between single spaces, nothing else spaced) and ends
    the line. *)
Module Poly.

Inductive token :=
  | TNum (n : Z) | TName (s : string)
  | TPlus | TMinus | TStar | TPow
  | TLPar | TRPar | TLBr | TRBr.

Inductive pending :=
  | PNothing
  | PNum (n : Z) (leading_zero : bool)
  | PName (s : string)
  | PStar.

Definition flush (p : pending) : list token :=
  match p with
  | PNothing => []
  | PNum n _ => [TNum n]
  | PName s => [TName s]
  | PStar => [TStar]
  end.

Definition is_letter (c : ascii) : bool :=
  let n := nat_of_ascii c in
  ((65 <=? n)%nat && (n <=? 90)%nat) || ((97 <=? n)%nat && (n <=? 122)%nat)
  || (n =? 95)%nat.

Definition symbol (c : ascii) : option token :=
  if Ascii.eqb c "+" then Some TPlus
  else if Ascii.eqb c "-" then Some TMinus
  else if Ascii.eqb c "(" then Some TLPar
  else if Ascii.eqb c ")" then Some TRPar
  else if Ascii.eqb c "[" then Some TLBr
  else if Ascii.eqb c "]" then Some TRBr
  else None.

Fixpoint lex (s : string) (p : pending) : option (list token) :=
  match s with
  | EmptyString => Some (flush p)
  | String c s' =>
      match Py.digit_of c with
      | Some d =>
          match p with
          | PNum n lead0 => if lead0 then None else lex s' (PNum (10 * n + d) false)
          | PName nm => lex s' (PName (String.append nm (String c EmptyString)))
          | _ => option_map (app (flush p)) (lex s' (PNum d (d =? 0)%Z))
          end
      | None =>
          if is_letter c then
            match p with
            | PNum _ _ => None
            | PName nm => lex s' (PName (String.append nm (String c EmptyString)))
            | _ => option_map (app (flush p)) (lex s' (PName (String c EmptyString)))
            end
          else if Ascii.eqb c "*" then
            match p with
            | PStar => option_map (cons TPow) (lex s' PNothing)
            | _ => option_map (app (flush p)) (lex s' PStar)
            end
          else if Ascii.eqb c " " then option_map (app (flush p)) (lex s' PNothing)
          else match symbol c with
               | Some t => option_map (fun ts => flush p ++ t :: ts) (lex s' PNothing)
               | None => None
               end
      end
  end.

Inductive expr :=
  | Num (n : Z)
  | Var (name : string)
  | Param (j : Z)
  | Neg (e : expr)
  | Add (a b : expr)
  | Sub (a b : expr)
  | Mul (a b : expr)
  | Pow (a : expr) (n : nat).

(** Recursive descent; each call spends one unit of fuel. *)
Fixpoint parse_sum (fuel : nat) (ts : list token) : option (expr * list token) :=
  match fuel with
  | O => None
  | S f =>
      match parse_product f ts with
      | Some (a, rest) => parse_sum_rest f a rest
      | None => None
      end
  end
with parse_sum_rest (fuel : nat) (a : expr) (ts : list token) : option (expr * list token) :=
  match fuel with
  | O => None
  | S f =>
      match ts with
      | TPlus :: ts' =>
          match parse_product f ts' with
          | Some (b, rest) => parse_sum_rest f (Add a b) rest
          | None => None
          end
      | TMinus :: ts' =>
          match parse_product f ts' with
          | Some (b, rest) => parse_sum_rest f (Sub a b) rest
          | None => None
          end
      | _ => Some (a, ts)
      end
  end
with parse_product (fuel : nat) (ts : list token) : option (expr * list token) :=
  match fuel with
  | O => None
  | S f =>
      match parse_unary f ts with
      | Some (a, rest) => parse_product_rest f a rest
      | None => None
      end
  end
with parse_product_rest (fuel : nat) (a : expr) (ts : list token) : option (expr * list token) :=
  match fuel with
  | O => None
  | S f =>
      match ts with
      | TStar :: ts' =>
          match parse_unary f ts' with
          | Some (b, rest) => parse_product_rest f (Mul a b) rest
          | None => None
          end
      | _ => Some (a, ts)
      end
  end
with parse_unary (fuel : nat) (ts : list token) : option (expr * list token) :=
  match fuel with
  | O => None
  | S f =>
      match ts with
      | TMinus :: ts' =>
          match parse_unary f ts' with
          | Some (a, rest) => Some (Neg a, rest)
          | None => None
          end
      | _ =>
          match parse_atom f ts with
          | Some (a, TPow :: TNum n :: rest) => Some (Pow a (Z.to_nat n), rest)
          | Some (a, TPow :: _) => None
          | r => r
          end
      end
  end
with parse_atom (fuel : nat) (ts : list token) : option (expr * list token) :=
  match fuel with
  | O => None
  | S f =>
      match ts with
      | TNum n :: rest => Some (Num n, rest)
      | TName "p" :: TLBr :: TNum j :: TRBr :: rest => Some (Param j, rest)
      | TName "p" :: TLBr :: TMinus :: TNum j :: TRBr :: rest => Some (Param (- j), rest)
      | TName "p" :: _ => None
      | TName v :: rest => Some (Var v, rest)
      | TLPar :: ts' =>
          match parse_sum f ts' with
          | Some (a, TRPar :: rest) => Some (a, rest)
          | _ => None
          end
      | _ => None
      end
  end.

Definition parse (s : string) : option expr :=
  match lex (Py.strip s) PNothing with
  | Some ts =>
      match parse_sum (6 * length ts + 6) ts with
      | Some (e, []) => Some e
      | _ => None
      end
  | None => None
  end.

(** Element-wise arithmetic with broadcasting; [None] where numpy raises. *)
Definition binop (f : Q -> Q -> Q) (a b : ndarray) : option ndarray :=
  match a, b with
  | Scalar x, Scalar y => Some (Scalar (f x y))
  | Scalar x, Array l => Some (Array (map (f x) l))
  | Array l, Scalar y => Some (Array (map (fun x => f x y) l))
  | Array [x], Array l => Some (Array (map (f x) l))
  | Array l, Array [y] => Some (Array (map (fun x => f x y) l))
  | Array l1, Array l2 =>
      if Nat.eqb (length l1) (length l2)
      then Some (Array (map (fun xy => f (fst xy) (snd xy)) (combine l1 l2)))
      else None
  end.

Fixpoint eval (e : expr) (p : list Q) (ind_var : string) (x : ndarray) : option ndarray :=
  match e with
  | Num n => Some (Scalar (inject_Z n))
  | Var v => if String.eqb v ind_var then Some x else None
  | Param j =>
      let k := if (j <? 0)%Z then (Z.of_nat (length p) + j)%Z else j in
      if (k <? 0)%Z then None
      else option_map Scalar (nth_error p (Z.to_nat k))
  | Neg a => option_map (np_map Qopp) (eval a p ind_var x)
  | Add a b =>
      match eval a p ind_var x, eval b p ind_var x with
      | Some u, Some v => binop Qplus u v
      | _, _ => None
      end
  | Sub a b =>
      match eval a p ind_var x, eval b p ind_var x with
      | Some u, Some v => binop Qminus u v
      | _, _ => None
      end
  | Mul a b =>
      match eval a p ind_var x, eval b p ind_var x with
      | Some u, Some v => binop Qmult u v
      | _, _ => None
      end
  | Pow a n => option_map (np_map (fun q => Qpower q (Z.of_nat n))) (eval a p ind_var x)
  end.

Definition interpreter (expression : string) (p : list Q) (ind_var : string)
    (x : ndarray) : interp_outcome :=
  match parse expression with
  | Some e =>
      match eval e p ind_var x with
      | Some y => Value y
      | None => Errors
      end
  | None => Errors
  end.

Fixpoint names (e : expr) : list string :=
  match e with
  | Num _ => []
  | Var v => [v]
  | Param _ => ["p"]
  | Neg a => names a
  | Pow a _ => names a
  | Add a b | Sub a b | Mul a b => names a ++ names b
  end.

Definition is_operand_end (t : token) : bool :=
  match t with
  | TNum _ | TName _ | TRPar | TRBr => true
  | _ => false
  end.

Definition render1 (after_operand : bool) (t : token) : string :=
  match t with
  | TNum n => pretty n
  | TName s => s
  | TPlus => " + "
  | TMinus => if after_operand then " - " else "-"
  | TStar => " * "
  | TPow => " ** "
  | TLPar => "("
  | TRPar => ")"
  | TLBr => "["
  | TRBr => "]"
  end.

Fixpoint render (after_operand : bool) (ts : list token) : string :=
  match ts with
  | [] => newline
  | t :: rest => String.append (render1 after_operand t) (render (is_operand_end t) rest)
  end.

Definition formatter (s : string) : option string :=
  match parse s, lex (Py.strip s) PNothing with
  | Some _, Some ts => Some (render false ts)
  | _, _ => None
  end.

Definition ast_name_ids (s : string) : list string :=
  match parse s with
  | Some e => names e
  | None => []
  end.

(** The bracketing root finder: an end of the bracket where the function
    vanishes is the root; ends of equal sign are a ValueError; otherwise the
    bracket is halved [n] times (scipy's brentq narrows the same bracket in
    larger steps). *)
Definition same_sign (u v : Q) : bool := Qlt_bool 0 (u * v).

Fixpoint bisect (f : Q -> result Q) (a b fa : Q) (n : nat) : result Q :=
  let m := Qred ((a + b) / 2) in
  match n with
  | O => Ok m
  | S k =>
      let! fm := f m in
      if Qeq_bool fm 0 then Ok m
      else if same_sign fm fa then bisect f m b fm k
      else bisect f a m fa k
  end.

Definition brentq (f : Q -> result Q) (x0 : option Q) (bracket : Q * Q) : result Q :=
  let! fa := f (fst bracket) in
  let! fb := f (snd bracket) in
  if Qeq_bool fa 0 then Ok (fst bracket)
  else if Qeq_bool fb 0 then Ok (snd bracket)
  else if same_sign fa fb then Raise ValueError
  else bisect f (fst bracket) (snd bracket) fa 40.

(** The generator always draws 1/2, and the least-squares solver always
    reports that it did not converge. *)
Instance externals : Externals := {|
  seed := nat;
  random_sample := fun n => (1 # 2, S n);
  black_format_str := formatter;
  ast_names := ast_name_ids;
  safe_eval := interpreter;
  least_squares := fun _ _ => Ok None;
  root_scalar := brentq;
  ensure_string := fun v => match v with HStr s => Ok s | _ => Raise AssertionError end
|}.

End Poly.

(** ** Vocabulary of the statements *)

(** Numerically close, as [np.allclose] means it. *)
Definition close (a b : Q) : Prop := Qabs (a - b) <= atol + rtol * Qabs b.

Definition within (lo hi v : Q) : Prop := lo <= v <= hi.

(** The stored pairs, and what the point store promises about them. *)
Definition pairs (c : Calibration) : list (Q * Q) :=
  combine (_points_x c) (_points_y c).

Definition points_ok (c : Calibration) : Prop :=
  length (_points_x c) = length (_points_y c) /\
  StronglySorted Qle (_points_x c) /\
  Forall (within (item (_domain c) 0) (item (_domain c) 1)) (_points_x c) /\
  Forall (within (item (_range c) 0) (item (_range c) 1)) (_points_y c).

(** Order of the keys that [np.argsort] sorts by. *)
Definition key_le (a b : Q * nat) : Prop := fst a <= fst b.

(** The starting parameters [_fit_expression] works with. *)
Definition starting_params (params0 : option array_like) (n_params : nat) : list Q :=
  match params0 with
  | None => repeat 1 n_params
  | Some a => np_flatten a
  end.

(** A text of white space only. *)
Fixpoint all_space (s : string) : bool :=
  match s with
  | EmptyString => true
  | String c s' => Py.isspace c && all_space s'
  end.

(** The pieces of a split with [ws] appended to the last one. *)
Fixpoint append_last (l : list string) (ws : string) : list string :=
  match l with
  | [] => []
  | u :: l' =>
      match l' with
      | [] => [u +:+ ws]
      | _ :: _ => u :: append_last l' ws
      end
  end.

(** A text without the character [c]; a text of decimal digits only. *)
Fixpoint lacks (c : ascii) (s : string) : bool :=
  match s with
  | EmptyString => true
  | String a s' => negb (Ascii.eqb a c) && lacks c s'
  end.

Fixpoint all_digits (s : string) : bool :=
  match s with
  | EmptyString => true
  | String c s' =>
      match Py.digit_of c with
      | Some _ => all_digits s'
      | None => false
      end
  end.

(** The text of a polynomial as its pieces between the "p[": the piece of
    the index [n], and the text from the index [n] on, [j] more terms
    following, closed by [fin]. *)
Definition poly_token (n : nat) : string :=
  py_str n +:+ "]" +:+
  match n with
  | O => EmptyString
  | S _ => " * x ** " +:+ py_str n
  end.

Fixpoint poly_body (n j : nat) (fin : string) : string :=
  match j with
  | O => poly_token n +:+ fin
  | S j' => (poly_token n +:+ " + ") +:+ "p[" +:+ poly_body (S n) j' fin
  end.

(** The bounds as [np.asarray] takes them: not a nested sequence with rows
    of different lengths. *)
Definition rectangular (a : array_like) : Prop :=
  match a with
  | AND rows => ragged rows = false
  | _ => True
  end.

(** Numbers that numpy holds in 64 bits whether they were written as
    integers or as floats. *)
Definition fits_64_bits (a : array_like) : Prop :=
  Forall (fun q => - inject_Z (2 ^ 63) <= q < inject_Z (2 ^ 63)) (np_flatten a).

(** What the integers read after "p[" can be: exactly 0, ..., n-1 in any
    order and any number of times; some of them, the least not being 0;
    0 the least, and one of them without its predecessor. *)
Definition indices_upto (n : nat) (raw : list Z) : Prop :=
  forall j, In j raw <-> (0 <= j < Z.of_nat n)%Z.

Definition min_index_not_zero (raw : list Z) : Prop :=
  raw <> [] /\ ~ (In 0%Z raw /\ forall j, In j raw -> (0 <= j)%Z).

Definition index_gap (raw : list Z) : Prop :=
  In 0%Z raw /\ (forall j, In j raw -> (0 <= j)%Z) /\
  exists j, In j raw /\ (0 < j)%Z /\ ~ In (j - 1)%Z raw.

(** ** Objects of the examples

    Each is what the constructor returns on the polynomial fragment, as the examples
    check. *)

Definition linear_cal : Calibration :=
  mkCalibration "p[0] + p[1] * x" [1; 2] None (A1D [0; 10]) (A1D [0; 100]) ∅ [] [] true.

(** [linear_cal] after add_points([1], [1]). *)
Definition one_point_cal : Calibration :=
  mkCalibration "p[0] + p[1] * x" [1; 2] None (A1D [0; 10]) (A1D [0; 100]) ∅ [1] [1] true.

(** [one_point_cal] after a [set_points] that raised: no point, in two
    Python lists. *)
Definition emptied_cal : Calibration :=
  mkCalibration "p[0] + p[1] * x" [1; 2] None (A1D [0; 10]) (A1D [0; 100]) ∅ [] [] false.

(** [one_point_cal] after the domain has been set to (5, 10). *)
Definition moved_domain_cal : Calibration :=
  mkCalibration "p[0] + p[1] * x" [1; 2] None (A1D [5; 10]) (A1D [0; 100]) ∅ [1] [1] true.

(** y = x + 5 on [0, 10], clipped into [0, 10], with its inverse x = y - 5. *)
Definition shifted_cal : Calibration :=
  mkCalibration "x + p[0]" [5] (Some "y - p[0]") (A1D [0; 10]) (A1D [0; 10]) ∅ [] [] true.

(** The same function without an inverse expression. *)
Definition shifted_numeric_cal : Calibration :=
  mkCalibration "x + p[0]" [5] None (A1D [0; 10]) (A1D [0; 10]) ∅ [] [] true.

(** [moved_domain_cal] holding the points (6, 6) and (8, 8). *)
Definition two_point_cal : Calibration :=
  mkCalibration "p[0] + p[1] * x" [1; 2] None (A1D [5; 10]) (A1D [0; 100]) ∅ [6; 8] [6; 8] true.

(** A source written with range (0, 50). *)
Definition persisted_dsets : gmap string h5val :=
  list_to_map [("expression", HStr "p[0] + p[1] * x"); ("params", HArr [1; 2]);
               ("domain", HArr [0; 10]); ("range", HArr [0; 50])].

(** The points (1, 3) and (2, 5) of the line y = 1 + 2 x, stored with the
    parameters (1, 1) and with the parameters of the line. *)
Definition unfitted_cal : Calibration :=
  mkCalibration "p[0] + p[1] * x" [1; 1] None (A1D [0; 10]) (A1D [0; 100]) ∅ [1; 2] [3; 5] true.

Definition exact_fit_cal : Calibration :=
  mkCalibration "p[0] + p[1] * x" [1; 2] None (A1D [0; 10]) (A1D [0; 100]) ∅ [1; 2] [3; 5] true.

(** An interpreter that takes every text for the identity function. *)
Definition identity_interpreter : Externals :=
  {| seed := nat;
     random_sample := fun n => (1 # 2, S n);
     black_format_str := Some;
     ast_names := fun _ => ["x"];
     safe_eval := fun _ _ _ x => Value x;
     least_squares := fun _ _ => Ok None;
     root_scalar := fun _ _ bracket => Ok (fst bracket);
     ensure_string := fun v => match v with HStr s => Ok s | _ => Raise AssertionError end |}.

(** The points (1, 0) and (2, 5), the second on the line y = 1 + 2 x. *)
Definition zero_y_cal : Calibration :=
  mkCalibration "p[0] + p[1] * x" [1; 2] None (A1D [0; 10]) (A1D [0; 100]) ∅ [1; 2] [0; 5] true.

(** The polynomial fragment with a solver that answers (1, 2). *)
Definition line_fitter : Externals :=
  with_least_squares Poly.externals (fun _ _ => Ok (Some [1; 2])).

(** * Properties *)

(** ** Arithmetic of the comparisons *)

Lemma Qlt_bool_iff (a b : Q) : Qlt_bool a b = true <-> a < b.
Proof.
  unfold Qlt_bool. rewrite negb_true_iff.
  split; intros Hab.
  - apply Qnot_le_lt. intros Hle. apply Qle_bool_iff in Hle. congruence.
  - destruct (Qle_bool b a) eqn:E; [|reflexivity].
    apply Qle_bool_iff in E. exfalso. revert E. now apply Qlt_not_le.
Qed.

Lemma Qle_bool_false_iff (a b : Q) : Qle_bool a b = false <-> b < a.
Proof.
  rewrite <- Qlt_bool_iff. unfold Qlt_bool. now rewrite negb_true_iff.
Qed.

Lemma clip1_spec (lo hi y : Q) :
  lo < hi ->
  lo <= clip1 lo hi y <= hi /\
  (y < lo -> clip1 lo hi y = lo) /\
  (hi < y -> clip1 lo hi y = hi) /\
  (lo <= y <= hi -> clip1 lo hi y == y).
Proof.
  intros Hlt. unfold clip1, np_minimum, np_maximum.
  destruct (Qle_bool y lo) eqn:E1.
  - apply Qle_bool_iff in E1.
    destruct (Qle_bool lo hi) eqn:E2.
    + split; [lra|]. split; [reflexivity|].
      split; intros; [exfalso|]; lra.
    + apply Qle_bool_false_iff in E2. lra.
  - apply Qle_bool_false_iff in E1.
    destruct (Qle_bool y hi) eqn:E2.
    + apply Qle_bool_iff in E2. split; [lra|].
      split; [intros; exfalso; lra|].
      split; intros; [exfalso; lra|reflexivity].
    + apply Qle_bool_false_iff in E2. split; [lra|].
      split; [intros; exfalso; lra|].
      split; intros; [reflexivity|lra].
Qed.

(** ** The guard on domain and range *)

Lemma validate_domain_range_ok (domain rng : array_like) :
  _validate_domain_range domain rng = Ok tt <->
  exists d0 d1 r0 r1,
    domain = A1D [d0; d1] /\ rng = A1D [r0; r1] /\ d0 < d1 /\ r0 < r1.
Proof.
  unfold _validate_domain_range. split.
  - destruct domain as [|[|d0 [|d1 [|]]]|rows]; simpl; try discriminate;
      [|destruct (ragged rows); discriminate].
    destruct rng as [|[|r0 [|r1 [|]]]|rows]; simpl; try discriminate;
      [|destruct (ragged rows); discriminate].
    destruct (Qlt_bool d0 d1) eqn:Ed; simpl; try discriminate.
    destruct (Qlt_bool r0 r1) eqn:Er; simpl; try discriminate.
    intros _. exists d0, d1, r0, r1.
    apply Qlt_bool_iff in Ed. apply Qlt_bool_iff in Er. auto.
  - intros (d0 & d1 & r0 & r1 & -> & -> & Hd & Hr). simpl.
    apply Qlt_bool_iff in Hd. apply Qlt_bool_iff in Hr.
    now rewrite Hd, Hr.
Qed.

Lemma validate_domain_range_raises (domain rng : array_like) (e : exn) :
  _validate_domain_range domain rng = Raise e ->
  (exists m, e = CalibrationError m) \/
  (e = ValueError /\ ~ (rectangular domain /\ rectangular rng)).
Proof.
  unfold _validate_domain_range, rectangular.
  destruct domain as [|[|d0 [|d1 [|]]]|rows]; simpl;
    try (intros [= <-]; eauto; fail);
    try (destruct (ragged rows); intros [= <-]; [right|left]; eauto;
         split; [reflexivity|]; intros [? _]; discriminate).
  destruct rng as [|[|r0 [|r1 [|]]]|rows]; simpl;
    try (intros [= <-]; eauto; fail);
    try (destruct (ragged rows); intros [= <-]; [right|left]; eauto;
         split; [reflexivity|]; intros [_ ?]; discriminate).
  destruct (Qlt_bool d0 d1); simpl; try (intros [= <-]; eauto; fail).
  destruct (Qlt_bool r0 r1); simpl; intros [= <-]; eauto.
Qed.

Section EvaluationProperties.
Context `{Externals}.

(** Past its guards, evaluation is the interpreter's outcome, clipped. *)
Lemma eval_expression_in_domain (expression : string) (params : list Q)
    (ind_var : string) (domain rng : array_like) (x : ndarray) :
  _validate_domain_range domain rng = Ok tt ->
  ind_var ∈ ["x"; "y"] ->
  Forall (fun v => item domain 0 <= v <= item domain 1) (elements x) ->
  _eval_expression expression params x ind_var domain rng =
    match safe_eval expression params ind_var x with
    | Value y => Ok (np_clip y (item rng 0) (item rng 1))
    | ComplexValue => Raise (CalibrationError ComplexValues)
    | Errors => Raise (CalibrationError AstevalErrors)
    end.
Proof.
  intros Hv Hi Hx. unfold _eval_expression. rewrite Hv. simpl.
  assert (np_all (fun v => Qle_bool (item domain 0) v) x = true) as ->.
  { unfold np_all. apply forallb_forall. intros v Hin.
    rewrite Forall_forall in Hx. apply Qle_bool_iff.
    apply Hx. now apply list_elem_of_In. }
  assert (np_all (fun v => Qle_bool v (item domain 1)) x = true) as ->.
  { unfold np_all. apply forallb_forall. intros v Hin.
    rewrite Forall_forall in Hx. apply Qle_bool_iff.
    apply Hx. now apply list_elem_of_In. }
  simpl. rewrite bool_decide_eq_true_2 by assumption. simpl.
  destruct (safe_eval expression params ind_var x); reflexivity.
Qed.

Lemma eval_expression_outside (expression : string) (params : list Q)
    (ind_var : string) (domain rng : array_like) (x : ndarray) :
  _validate_domain_range domain rng = Ok tt ->
  Exists (fun v => v < item domain 0 \/ item domain 1 < v) (elements x) ->
  exists m,
    _eval_expression expression params x ind_var domain rng = Raise (CalibrationError m) /\
    (m = BelowDomain \/ m = AboveDomain).
Proof.
  intros Ev Hex. unfold _eval_expression. rewrite Ev. simpl.
  - destruct (np_all (fun v => Qle_bool (item domain 0) v) x) eqn:E0; simpl.
    + destruct (np_all (fun v => Qle_bool v (item domain 1)) x) eqn:E1; simpl.
      * exfalso. apply Exists_exists in Hex as (v & Hin & Hv).
        apply list_elem_of_In in Hin.
        unfold np_all in E0, E1. rewrite forallb_forall in E0, E1.
        specialize (E0 v Hin). specialize (E1 v Hin).
        apply Qle_bool_iff in E0. apply Qle_bool_iff in E1. lra.
      * eexists. split; [reflexivity|]. auto.
    + eexists. split; [reflexivity|]. auto.
Qed.

Lemma eval_expression_ok_inv (expression : string) (params : list Q)
    (ind_var : string) (domain rng : array_like) (x v : ndarray) :
  _eval_expression expression params x ind_var domain rng = Ok v ->
  _validate_domain_range domain rng = Ok tt /\
  Forall (fun q => item domain 0 <= q <= item domain 1) (elements x) /\
  exists y, safe_eval expression params ind_var x = Value y /\
            v = np_clip y (item rng 0) (item rng 1).
Proof.
  unfold _eval_expression.
  destruct (_validate_domain_range domain rng) as [[]|e] eqn:Ev; simpl; [|discriminate].
  destruct (np_all (fun v => Qle_bool (item domain 0) v) x) eqn:E0; simpl; [|discriminate].
  destruct (np_all (fun v => Qle_bool v (item domain 1)) x) eqn:E1; simpl; [|discriminate].
  destruct (bool_decide (ind_var ∈ ["x"; "y"])); simpl; [|discriminate].
  destruct (safe_eval expression params ind_var x) as [y| |] eqn:Es; try discriminate.
  intros [= <-]. split; [reflexivity|]. split.
  - apply Forall_forall. intros q Hin. apply list_elem_of_In in Hin.
    unfold np_all in E0, E1. rewrite forallb_forall in E0, E1.
    specialize (E0 q Hin). specialize (E1 q Hin).
    apply Qle_bool_iff in E0. apply Qle_bool_iff in E1. auto.
  - exists y. auto.
Qed.

(** Every raise of the evaluator is a CalibrationError, or the ValueError
    of numpy for bounds that are no array. *)
Lemma eval_expression_raises (expression : string) (params : list Q)
    (ind_var : string) (domain rng : array_like) (x : ndarray) (e : exn) :
  _eval_expression expression params x ind_var domain rng = Raise e ->
  (exists m, e = CalibrationError m) \/
  (e = ValueError /\ ~ (rectangular domain /\ rectangular rng)).
Proof.
  unfold _eval_expression.
  destruct (_validate_domain_range domain rng) as [[]|e'] eqn:Ev; simpl.
  - repeat match goal with
           | |- context [if ?b then _ else _] => destruct b; simpl
           end; try (intros [= <-]; eauto; fail).
    destruct (safe_eval expression params ind_var x);
      try (intros [= <-]; eauto; fail); discriminate.
  - intros [= <-]. eapply validate_domain_range_raises; eauto.
Qed.

Lemma np_clip_spec (y : ndarray) (lo hi : Q) :
  lo < hi ->
  Forall2 (fun vi yi => lo <= vi <= hi /\
                        (yi < lo -> vi = lo) /\
                        (hi < yi -> vi = hi) /\
                        (lo <= yi <= hi -> vi == yi))
          (elements (np_clip y lo hi)) (elements y).
Proof.
  intros Hlt. destruct y as [q|l]; simpl.
  - constructor; [|constructor]. now apply clip1_spec.
  - induction l as [|q l IH]; simpl; constructor; auto.
    now apply clip1_spec.
Qed.

(** C2.  Evaluation enforces the domain as a hard input contract: with a
    valid domain and range, an input with some element strictly below
    [domain.lo] or strictly above [domain.hi] raises the out-of-domain
    CalibrationError, while an input exactly at [domain.lo] or [domain.hi]
    passes the guard: the call returns the (clipped) value of the expression
    there, and can only fail with what the interpreter reports. *)
Theorem eval_expression_domain_contract (expression : string) (params : list Q)
    (ind_var : string) (domain rng : array_like) :
  _validate_domain_range domain rng = Ok tt ->
  ind_var ∈ ["x"; "y"] ->
  (forall x, Exists (fun v => v < item domain 0 \/ item domain 1 < v) (elements x) ->
     _eval_expression expression params x ind_var domain rng
       = Raise (CalibrationError BelowDomain) \/
     _eval_expression expression params x ind_var domain rng
       = Raise (CalibrationError AboveDomain)) /\
  (forall b, b = item domain 0 \/ b = item domain 1 ->
     (forall y, safe_eval expression params ind_var (Scalar b) = Value y ->
        _eval_expression expression params (Scalar b) ind_var domain rng
          = Ok (np_clip y (item rng 0) (item rng 1))) /\
     _eval_expression expression params (Scalar b) ind_var domain rng
       <> Raise (CalibrationError BelowDomain) /\
     _eval_expression expression params (Scalar b) ind_var domain rng
       <> Raise (CalibrationError AboveDomain)).
Proof.
  intros Hv Hi. split.
  - intros x Hx.
    destruct (eval_expression_outside expression params ind_var domain rng x Hv Hx)
      as (m & Hm & Hkind).
    rewrite Hm. destruct Hkind as [-> | ->]; auto.
  - intros b Hb.
    assert (Forall (fun v => item domain 0 <= v <= item domain 1) (elements (Scalar b)))
      as Hin.
    { apply validate_domain_range_ok in Hv
        as (d0 & d1 & r0 & r1 & -> & -> & Hd & Hr).
      simpl in *. constructor; [|constructor].
      destruct Hb as [-> | ->]; lra. }
    rewrite (eval_expression_in_domain expression params ind_var domain rng
               (Scalar b) Hv Hi Hin).
    split; [|split].
    + intros y ->. reflexivity.
    + destruct (safe_eval expression params ind_var (Scalar b)); discriminate.
    + destruct (safe_eval expression params ind_var (Scalar b)); discriminate.
Qed.

(** C3.  Every successful evaluation returns the raw result of the
    expression clipped element-wise into [range.lo, range.hi]: an element
    above the range comes back as exactly [range.hi], one below as exactly
    [range.lo], one inside unchanged; and a raw result outside the range is
    no error: past the guards, whatever real value the expression has, the
    call returns its clipping. *)
Theorem eval_expression_clips_to_range (expression : string) (params : list Q)
    (ind_var : string) (domain rng : array_like) (x : ndarray) :
  (forall v, _eval_expression expression params x ind_var domain rng = Ok v ->
     exists y, safe_eval expression params ind_var x = Value y /\
       v = np_clip y (item rng 0) (item rng 1) /\
       Forall2 (fun vi yi => item rng 0 <= vi <= item rng 1 /\
                             (yi < item rng 0 -> vi = item rng 0) /\
                             (item rng 1 < yi -> vi = item rng 1) /\
                             (item rng 0 <= yi <= item rng 1 -> vi == yi))
               (elements v) (elements y)) /\
  (forall y, _validate_domain_range domain rng = Ok tt ->
     ind_var ∈ ["x"; "y"] ->
     Forall (fun v => item domain 0 <= v <= item domain 1) (elements x) ->
     safe_eval expression params ind_var x = Value y ->
     _eval_expression expression params x ind_var domain rng
       = Ok (np_clip y (item rng 0) (item rng 1))).
Proof.
  split.
  - intros v Hok.
    apply eval_expression_ok_inv in Hok as (Hv & _ & y & Hy & ->).
    exists y. split; [assumption|]. split; [reflexivity|].
    apply np_clip_spec.
    apply validate_domain_range_ok in Hv as (d0 & d1 & r0 & r1 & -> & -> & _ & Hr).
    exact Hr.
  - intros y Hv Hi Hx Hy.
    rewrite (eval_expression_in_domain _ _ _ _ _ _ Hv Hi Hx), Hy. reflexivity.
Qed.

End EvaluationProperties.

(** ** Parameter indices *)

Lemma isclose_one (d : Z) : isclose (inject_Z d) 1 = true <-> d = 1%Z.
Proof.
  unfold isclose. rewrite Qle_bool_iff. split.
  - intros Hle. apply Qabs_Qle_condition in Hle.
    assert (atol + rtol * Qabs 1 < 1) as Htol by reflexivity.
    destruct Hle as [Hlo Hhi].
    assert (inject_Z 0 < inject_Z d) as H0 by (change (inject_Z 0) with 0; lra).
    assert (inject_Z d < inject_Z 2) as H2 by (change (inject_Z 2) with 2; lra).
    rewrite <- Zlt_Qlt in H0, H2. lia.
  - intros ->. vm_compute. discriminate.
Qed.

Lemma insert_unique_In (z a : Z) (l : list Z) :
  In a (insert_unique z l) <-> a = z \/ In a l.
Proof.
  induction l as [|y l IH]; simpl.
  - intuition.
  - destruct (z <? y)%Z eqn:E1; simpl; [intuition|].
    destruct (z =? y)%Z eqn:E2; simpl.
    + apply Z.eqb_eq in E2. subst. intuition.
    + rewrite IH. intuition.
Qed.

Lemma insert_unique_sorted (z : Z) (l : list Z) :
  StronglySorted Z.lt l -> StronglySorted Z.lt (insert_unique z l).
Proof.
  induction 1 as [|y l Hs IH Hall]; simpl.
  - repeat constructor.
  - destruct (z <? y)%Z eqn:E1.
    + apply Z.ltb_lt in E1. constructor; [constructor; assumption|].
      constructor; [assumption|].
      eapply Forall_impl; [exact Hall|]. simpl. intros; lia.
    + destruct (z =? y)%Z eqn:E2; [constructor; assumption|].
      apply Z.ltb_ge in E1. apply Z.eqb_neq in E2.
      constructor; [assumption|].
      apply Forall_forall. intros a Ha. apply list_elem_of_In in Ha.
      apply insert_unique_In in Ha as [-> | Ha]; [lia|].
      rewrite Forall_forall in Hall. apply Hall. now apply list_elem_of_In.
Qed.

Lemma sorted_unique_sorted (l : list Z) : StronglySorted Z.lt (sorted_unique l).
Proof.
  induction l as [|z l IH]; simpl; [constructor|].
  now apply insert_unique_sorted.
Qed.

Lemma sorted_unique_In (a : Z) (l : list Z) : In a (sorted_unique l) <-> In a l.
Proof.
  induction l as [|z l IH]; simpl; [reflexivity|].
  rewrite insert_unique_In, IH. intuition.
Qed.

Lemma contiguous_from (a : Z) (idx : list Z) :
  forallb (fun d => isclose (inject_Z d) 1) (np_diff (a :: idx)) = true ->
  a :: idx = map (fun i => (a + Z.of_nat i)%Z) (seq 0 (S (length idx))).
Proof.
  revert a. induction idx as [|b idx IH]; intros a Hd.
  - simpl. f_equal. lia.
  - change (np_diff (a :: b :: idx)) with ((b - a)%Z :: np_diff (b :: idx)) in Hd.
    simpl in Hd. apply andb_true_iff in Hd as [H1 Hd].
    apply isclose_one in H1.
    specialize (IH b Hd).
    simpl length. rewrite IH.
    change (seq 0 (S (S (length idx)))) with (0%nat :: seq 1 (S (length idx))).
    rewrite <- seq_shift, map_cons, map_map.
    f_equal; [lia|].
    apply map_ext. intros i. lia.
Qed.

Lemma contiguous_from_zero (idx : list Z) :
  hd 0%Z idx = 0%Z ->
  forallb (fun d => isclose (inject_Z d) 1) (np_diff idx) = true ->
  idx = map Z.of_nat (seq 0 (length idx)).
Proof.
  destruct idx as [|a idx]; [reflexivity|].
  simpl hd. intros -> Hd. rewrite (contiguous_from 0 idx Hd).
  rewrite length_map, length_seq. apply map_ext. intros i. lia.
Qed.

Lemma contiguous_checks (n : nat) :
  let idx := map Z.of_nat (seq 0 n) in
  (hd 0%Z idx =? 0)%Z = true /\
  forallb (fun d => isclose (inject_Z d) 1) (np_diff idx) = true.
Proof.
  simpl. split.
  - destruct n; reflexivity.
  - generalize 0%nat as k. induction n as [|n IH]; intros k; [reflexivity|].
    destruct n as [|n]; [reflexivity|].
    change (seq k (S (S n))) with (k :: seq (S k) (S n)).
    change (map Z.of_nat (k :: seq (S k) (S n)))
      with (Z.of_nat k :: map Z.of_nat (seq (S k) (S n))).
    change (seq (S k) (S n)) with (S k :: seq (S (S k)) n) at 1.
    change (map Z.of_nat (S k :: seq (S (S k)) n))
      with (Z.of_nat (S k) :: map Z.of_nat (seq (S (S k)) n)).
    change (np_diff (Z.of_nat k :: Z.of_nat (S k) :: map Z.of_nat (seq (S (S k)) n)))
      with ((Z.of_nat (S k) - Z.of_nat k)%Z
              :: np_diff (Z.of_nat (S k) :: map Z.of_nat (seq (S (S k)) n))).
    simpl forallb. apply andb_true_iff. split.
    + apply isclose_one. lia.
    + apply (IH (S k)).
Qed.

Lemma In_map_seq (j : Z) (n : nat) :
  In j (map Z.of_nat (seq 0 n)) <-> (0 <= j < Z.of_nat n)%Z.
Proof.
  rewrite in_map_iff. split.
  - intros (i & <- & Hi). apply in_seq in Hi. lia.
  - intros Hj. exists (Z.to_nat j). split; [lia|]. apply in_seq. lia.
Qed.

Lemma sorted_hd_least (a : Z) (l : list Z) (j : Z) :
  StronglySorted Z.lt (a :: l) -> In j (a :: l) -> (a <= j)%Z.
Proof.
  intros Hs [-> | Hin]; [lia|].
  apply StronglySorted_inv in Hs as [_ Hall].
  rewrite Forall_forall in Hall. apply list_elem_of_In, Hall in Hin. lia.
Qed.

(** Where two neighbours of a sorted list differ by more than 1, an
    element has no predecessor in the list. *)
Lemma diff_gap (idx : list Z) :
  StronglySorted Z.lt idx ->
  forallb (fun d => isclose (inject_Z d) 1) (np_diff idx) = false ->
  exists j, In j idx /\ (hd 0%Z idx < j)%Z /\ ~ In (j - 1)%Z idx.
Proof.
  induction idx as [|a [|b idx] IH]; intros Hs Hd; try discriminate.
  change (np_diff (a :: b :: idx)) with ((b - a)%Z :: np_diff (b :: idx)) in Hd.
  pose proof Hs as Hs'. apply StronglySorted_inv in Hs' as [Hs' Hall].
  assert (a < b)%Z as Hab.
  { rewrite Forall_forall in Hall. apply Hall. constructor. }
  simpl forallb in Hd. apply andb_false_iff in Hd as [H1 | Hd].
  - exists b. split; [simpl; auto|]. split; [exact Hab|].
    assert (b - a <> 1)%Z as Hne.
    { intros E. apply isclose_one in E. congruence. }
    intros [E | Hin]; [lia|].
    pose proof (sorted_hd_least b idx (b - 1) Hs' Hin). lia.
  - destruct (IH Hs' Hd) as (j & Hin & Hlt & Hno). simpl hd in Hlt.
    exists j. split; [now right|]. split; [simpl; lia|].
    intros [E | Hin']; [lia | contradiction].
Qed.

(** What the two checks on the sorted distinct indices decide about the
    integers they came from. *)
Lemma index_checks (raw : list Z) :
  let idx := sorted_unique raw in
  let min_fails := (0 <? length idx)%nat && negb (hd 0%Z idx =? 0)%Z in
  let diff_fails :=
    (0 <? length idx)%nat
    && negb (forallb (fun d => isclose (inject_Z d) 1) (np_diff idx)) in
  (min_fails = true <-> min_index_not_zero raw) /\
  (min_fails = false -> (diff_fails = true <-> index_gap raw)) /\
  (min_fails = false -> diff_fails = false ->
     idx = map Z.of_nat (seq 0 (length idx)) /\ indices_upto (length idx) raw) /\
  (forall n, indices_upto n raw ->
     min_fails = false /\ diff_fails = false /\ idx = map Z.of_nat (seq 0 n)).
Proof.
  intros idx min_fails diff_fails.
  pose proof (sorted_unique_sorted raw) as Hs. fold idx in Hs.
  assert (forall j, In j idx <-> In j raw) as Hin by (intros j; apply sorted_unique_In).
  assert (min_fails = true <-> min_index_not_zero raw) as Hmin.
  { unfold min_fails, min_index_not_zero. destruct idx as [|a l] eqn:Ei.
    - simpl. split; [discriminate|]. intros [Hne _]. exfalso. apply Hne.
      destruct raw as [|z raw]; [reflexivity|].
      exfalso. apply (Hin z). now left.
    - cbn [length hd Nat.ltb Nat.leb andb]. rewrite negb_true_iff, Z.eqb_neq. split.
      + intros Ha. split.
        * intros ->. apply (Hin a). now left.
        * intros [H0 Hge]. apply Hin in H0.
          pose proof (sorted_hd_least a l 0%Z Hs H0).
          assert (0 <= a)%Z by (apply Hge, Hin; now left). lia.
      + intros [_ Hno] ->. apply Hno. split; [apply Hin; now left|].
        intros j Hj. apply Hin in Hj. now apply (sorted_hd_least 0%Z l j Hs). }
  assert (min_fails = false -> idx <> [] -> hd 0%Z idx = 0%Z) as Hhd.
  { unfold min_fails. destruct idx as [|a l]; [congruence|].
    cbn [length hd Nat.ltb Nat.leb andb]. rewrite negb_false_iff, Z.eqb_eq. auto. }
  assert (min_fails = false -> diff_fails = false ->
          idx = map Z.of_nat (seq 0 (length idx))) as Hcont.
  { intros Hm Hd. destruct idx as [|a l] eqn:Ei; [reflexivity|].
    apply contiguous_from_zero; [apply Hhd; [assumption|discriminate]|].
    unfold diff_fails in Hd. cbn [length Nat.ltb Nat.leb andb] in Hd.
    now apply negb_false_iff in Hd. }
  assert (min_fails = false -> (diff_fails = true <-> index_gap raw)) as Hgap.
  { intros Hm. split.
    - intros Hd. unfold diff_fails in Hd. apply andb_true_iff in Hd as [Hlen Hd].
      apply negb_true_iff in Hd.
      assert (idx <> []) as Hne by (intros E; rewrite E in Hlen; discriminate).
      pose proof (Hhd Hm Hne) as H0.
      destruct (diff_gap idx Hs Hd) as (j & Hj & Hlt & Hno).
      destruct idx as [|a l] eqn:Ei; [congruence|]. simpl in H0. subst a.
      split; [apply Hin; now left|]. split.
      + intros k Hk. apply Hin in Hk. now apply (sorted_hd_least 0%Z l k Hs).
      + exists j. split; [now apply Hin|]. split; [exact Hlt|].
        intros Hk. apply Hno. now apply Hin.
    - intros (H0 & Hge & j & Hj & Hpos & Hno).
      destruct diff_fails eqn:Hd; [reflexivity|]. exfalso.
      pose proof (Hcont Hm eq_refl) as Hc.
      apply Hin in Hj. rewrite Hc in Hj. apply In_map_seq in Hj.
      apply Hno, Hin. rewrite Hc. apply In_map_seq. lia. }
  split; [exact Hmin|]. split; [exact Hgap|]. split.
  - intros Hm Hd. pose proof (Hcont Hm Hd) as Hc. split; [exact Hc|].
    intros j. rewrite <- Hin, Hc at 1. apply In_map_seq.
  - intros n Hn.
    assert (min_fails = false) as Hm.
    { destruct min_fails; [|reflexivity]. exfalso.
      destruct (proj1 Hmin eq_refl) as [Hne Hno]. apply Hno.
      destruct raw as [|z raw]; [congruence|].
      assert (In z (z :: raw)) as Hz by now left.
      apply Hn in Hz. split; [apply Hn; lia|]. intros j Hj. apply Hn in Hj. lia. }
    assert (diff_fails = false) as Hd.
    { destruct diff_fails; [|reflexivity]. exfalso.
      destruct (proj1 (Hgap Hm) eq_refl) as (_ & _ & j & Hj & Hpos & Hno).
      apply Hno, Hn. apply Hn in Hj. lia. }
    split; [exact Hm|]. split; [exact Hd|].
    pose proof (Hcont Hm Hd) as Hc.
    remember (length idx) as len eqn:Elen. clear Elen.
    assert (forall j, In j idx <-> (0 <= j < Z.of_nat len)%Z) as Hidx
      by (intros j; rewrite Hc; apply In_map_seq).
    rewrite Hc. f_equal. f_equal.
    destruct (Nat.lt_trichotomy len n) as [Hlt | [E | Hgt]]; [|exact E|].
    + exfalso. assert (In (Z.of_nat len) raw) as Hx by (apply Hn; lia).
      apply Hin, Hidx in Hx. lia.
    + exfalso. assert (In (Z.of_nat n) idx) as Hx by (apply Hidx; lia).
      apply Hin, Hn in Hx. lia.
Qed.

(** ** Sequencing *)

Lemma bindM_ok {S A B} (m : M S A) (k : A -> M S B) (s s' : S) (b : B) :
  bindM m k s = (Ok b, s') ->
  exists a s1, m s = (Ok a, s1) /\ k a s1 = (Ok b, s').
Proof.
  unfold bindM. destruct (m s) as [[a|e] s1]; [eauto | discriminate].
Qed.

Lemma bindM_raise {S A B} (m : M S A) (k : A -> M S B) (s s' : S) (e : exn) :
  bindM m k s = (Raise e, s') ->
  m s = (Raise e, s') \/ exists a s1, m s = (Ok a, s1) /\ k a s1 = (Raise e, s').
Proof.
  unfold bindM. destruct (m s) as [[a|e0] s1]; [eauto|].
  intros [= <- <-]. now left.
Qed.

Lemma bindM_step {S A B} (m : M S A) (k : A -> M S B) (s s1 : S) (a : A) :
  m s = (Ok a, s1) -> bindM m k s = k a s1.
Proof. unfold bindM. now intros ->. Qed.

Lemma bindM_fail {S A B} (m : M S A) (k : A -> M S B) (s s1 : S) (e : exn) :
  m s = (Raise e, s1) -> bindM m k s = (Raise e, s1).
Proof. unfold bindM. now intros ->. Qed.

Lemma liftR_ok {S A} (r : result A) (s s' : S) (a : A) :
  liftR r s = (Ok a, s') -> r = Ok a /\ s' = s.
Proof. unfold liftR. now intros [= -> ->]. Qed.

Lemma retM_ok {S A} (a b : A) (s s' : S) :
  retM a s = (Ok b, s') -> b = a /\ s' = s.
Proof. unfold retM. now intros [= -> ->]. Qed.

Lemma except_calibration_ok {S A} (m : M S A) (msg : cal_msg) (s s' : S) (a : A) :
  except_calibration m msg s = (Ok a, s') -> m s = (Ok a, s').
Proof.
  unfold except_calibration. destruct (m s) as [[a'|[]] s1]; congruence.
Qed.

(** ** Validation *)

Section ValidationProperties.
Context `{Externals}.

Lemma validate_expression_ok_inv (expression : string) (params : option (list Q))
    (ind_var : string) (domain rng : array_like) (g g' : seed) (e : string) :
  _validate_expression expression params ind_var domain rng g = (Ok e, g') ->
  exists formatted idx,
    _validate_domain_range domain rng = Ok tt /\
    black_format_str expression = Some formatted /\
    ind_var ∈ ["x"; "y"] /\
    ind_var ∈ ast_names formatted /\
    _param_indices formatted = Ok idx /\
    idx = map Z.of_nat (seq 0 (length idx)) /\
    (forall p, params = Some p -> length idx = length p) /\
    e = Py.strip formatted.
Proof.
  unfold _validate_expression. intros Hv.
  apply bindM_ok in Hv as ([] & g1 & Hdr & Hv).
  apply liftR_ok in Hdr as [Hdr ->].
  apply bindM_ok in Hv as (formatted & g1 & Hb & Hv).
  destruct (black_format_str expression) as [f|] eqn:Eb; [|discriminate].
  apply retM_ok in Hb as [-> ->].
  destruct (bool_decide (ind_var ∈ ["x"; "y"])) eqn:Ei; [|discriminate].
  apply bool_decide_eq_true_1 in Ei.
  destruct (bool_decide (ind_var ∈ ast_names f)) eqn:En; [|discriminate].
  apply bool_decide_eq_true_1 in En. cbn [negb] in Hv.
  apply bindM_ok in Hv as (idx & g1 & Hidx & Hv).
  destruct (_param_indices f) as [idx'|[]] eqn:Ep; try discriminate.
  apply retM_ok in Hidx as [-> ->].
  apply bindM_ok in Hv as ([] & g1 & Hc & Hv).
  apply bindM_ok in Hv as ([] & g2 & Hn & Hv).
  apply bindM_ok in Hv as ([] & g3 & _ & Hv).
  apply retM_ok in Hv as [-> ->].
  exists f, idx'. repeat (split; [assumption || reflexivity|]).
  split; [|split; [|reflexivity]].
  - destruct idx' as [|a idx']; [reflexivity|].
    cbn [length Nat.ltb Nat.leb] in Hc.
    destruct (hd 0%Z (a :: idx') =? 0)%Z eqn:E0; [|discriminate].
    destruct (forallb (fun d => isclose (inject_Z d) 1) (np_diff (a :: idx'))) eqn:Ed;
      [|discriminate].
    apply Z.eqb_eq in E0. now apply contiguous_from_zero.
  - intros p ->.
    destruct (length idx' =? length p)%nat eqn:El; [|discriminate].
    now apply Nat.eqb_eq in El.
Qed.

Lemma validate_expression_without_params (expression formatted : string)
    (ind_var : string) (domain rng : array_like) (g : seed) (n : nat) :
  _validate_domain_range domain rng = Ok tt ->
  black_format_str expression = Some formatted ->
  ind_var ∈ ["x"; "y"] ->
  ind_var ∈ ast_names formatted ->
  _param_indices formatted = Ok (map Z.of_nat (seq 0 n)) ->
  _validate_expression expression None ind_var domain rng g
    = (Ok (Py.strip formatted), g).
Proof.
  intros Hdr Hb Hi Hn Hp. unfold _validate_expression.
  rewrite Hdr. erewrite bindM_step by reflexivity.
  rewrite Hb. erewrite bindM_step by reflexivity.
  rewrite !bool_decide_eq_true_2 by assumption. cbn [negb].
  rewrite Hp. erewrite bindM_step by reflexivity.
  destruct (contiguous_checks n) as [H0 Hd]. cbn zeta in H0, Hd.
  rewrite H0, Hd. cbn [negb].
  destruct (0 <? length (map Z.of_nat (seq 0 n)))%nat; reflexivity.
Qed.

Lemma param_indices_inv (text : string) (idx : list Z) :
  _param_indices text = Ok idx ->
  exists raw, ints_of (tl (Py.split "p[" text)) = Ok raw /\
    StronglySorted Z.lt idx /\ (forall j, In j idx <-> In j raw).
Proof.
  unfold _param_indices.
  destruct (ints_of (tl (Py.split "p[" text))) as [raw|] eqn:E; [|discriminate].
  simpl. intros [= <-]. exists raw. split; [reflexivity|]. split.
  - apply sorted_unique_sorted.
  - intros j. apply sorted_unique_In.
Qed.

Lemma uniform_returns (lo hi : Q) (g : seed) :
  exists u g', uniform lo hi g = (Ok u, g').
Proof. unfold uniform. destruct (random_sample g) as [u g']. eauto. Qed.

Lemma uniform_array_returns (lo hi : Q) (n : nat) (g : seed) :
  exists us g', uniform_array lo hi n g = (Ok us, g').
Proof.
  revert g. induction n as [|n IH]; intros g; simpl; [unfold retM; eauto|].
  destruct (uniform_returns lo hi g) as (u & g1 & Hu).
  destruct (IH g1) as (us & g2 & Hus).
  rewrite (bindM_step _ _ _ _ _ Hu), (bindM_step _ _ _ _ _ Hus). unfold retM. eauto.
Qed.

(** A smoke test that raises re-raises under its own message. *)
Lemma smoke_evaluation_raises (text : string) (p : list Q) (x : ndarray)
    (ind_var : string) (msg : cal_msg) (g g' : seed) (e : exn) :
  except_calibration
    (liftR (_eval_expression text p x ind_var DEFAULT_DOMAIN DEFAULT_RANGE)) msg g
    = (Raise e, g') ->
  e = CalibrationError msg.
Proof.
  unfold except_calibration, liftR.
  destruct (_eval_expression text p x ind_var DEFAULT_DOMAIN DEFAULT_RANGE)
    as [v|e0] eqn:Ev; [discriminate|].
  apply eval_expression_raises in Ev as [[m ->] | [_ Hno]].
  - now intros [= <- _].
  - exfalso. apply Hno. split; exact I.
Qed.

(** Validation once the guard, the formatter and the independent variable
    have passed, as a function of the integers read after "p[": the two
    checks on the indices, then the length of the parameters, then the
    smoke tests. *)
Lemma validate_expression_by_indices (expression formatted ind_var : string)
    (domain rng : array_like) (g : seed) (raw : list Z) :
  _validate_domain_range domain rng = Ok tt ->
  black_format_str expression = Some formatted ->
  ind_var ∈ ["x"; "y"] ->
  ind_var ∈ ast_names formatted ->
  ints_of (tl (Py.split "p[" formatted)) = Ok raw ->
  exists smoke : list Q -> M seed unit,
    (forall p g0 e g1, smoke p g0 = (Raise e, g1) ->
       e = CalibrationError CannotEvalFloat \/ e = CalibrationError CannotEvalArray) /\
    forall params,
      _validate_expression expression params ind_var domain rng g =
      let idx := sorted_unique raw in
      if (0 <? length idx)%nat && negb (hd 0%Z idx =? 0)%Z
      then (Raise (CalibrationError MinIndexNotZero), g)
      else if (0 <? length idx)%nat
              && negb (forallb (fun d => isclose (inject_Z d) 1) (np_diff idx))
      then (Raise (CalibrationError IndicesNotContiguous), g)
      else match params with
           | None => (Ok (Py.strip formatted), g)
           | Some p =>
               if negb (length idx =? length p)%nat
               then (Raise (CalibrationError ParamCountMismatch), g)
               else (run* smoke p in retM (Py.strip formatted)) g
           end.
Proof.
  intros Hdr Hb Hi Hn Hraw.
  exists (fun p =>
    let* x_val := uniform (item domain 0) (item domain 1) in
    run* except_calibration
           (liftR (_eval_expression formatted p (Scalar x_val) ind_var
                     DEFAULT_DOMAIN DEFAULT_RANGE))
           CannotEvalFloat in
    let* x_arr := uniform_array (item domain 0) (item domain 1) 5 in
    run* except_calibration
           (liftR (_eval_expression formatted p (Array x_arr) ind_var
                     DEFAULT_DOMAIN DEFAULT_RANGE))
           CannotEvalArray in
    retM tt).
  split.
  - intros p g0 e g1 Hrun.
    destruct (uniform_returns (item domain 0) (item domain 1) g0) as (u & g2 & Hu).
    rewrite (bindM_step _ _ _ _ _ Hu) in Hrun.
    apply bindM_raise in Hrun. destruct Hrun as [Hr | (u1 & g3 & _ & Hrun)].
    { left. now apply smoke_evaluation_raises in Hr. }
    destruct (uniform_array_returns (item domain 0) (item domain 1) 5 g3)
      as (us & g4 & Hus).
    rewrite (bindM_step _ _ _ _ _ Hus) in Hrun.
    apply bindM_raise in Hrun. destruct Hrun as [Hr | (u2 & g5 & _ & Hrun)].
    { right. now apply smoke_evaluation_raises in Hr. }
    discriminate.
  - intros params. unfold _validate_expression.
    rewrite Hdr. erewrite bindM_step by reflexivity.
    rewrite Hb. erewrite bindM_step by reflexivity.
    rewrite !bool_decide_eq_true_2 by assumption. cbn [negb].
    unfold _param_indices. rewrite Hraw. cbn [bindR].
    erewrite bindM_step by reflexivity. cbn zeta.
    destruct (0 <? length (sorted_unique raw))%nat;
      destruct (negb (hd 0%Z (sorted_unique raw) =? 0)%Z);
      destruct (negb (forallb (fun d => isclose (inject_Z d) 1)
                        (np_diff (sorted_unique raw))));
      cbn [andb]; try reflexivity;
      destruct params as [p|]; try reflexivity;
      destruct (negb (length (sorted_unique raw) =? length p)%nat); reflexivity.
Qed.

(** C4.  Expression validation reads the integers that follow "p[" in the
    formatted text, takes them as a sorted set, and succeeds only if that
    set is 0, 1, ..., n-1 (empty, or starting at 0 without gaps) and, when
    a parameter vector is given, only if the vector has n elements.  In
    terms of the integers read, in whatever order and however often they
    occur: without a parameter vector validation succeeds exactly when
    they are 0, ..., n-1 for some n; it ends in the "minimum index is not
    0" error exactly when there are some and their least is not 0, in the
    "not contiguous" error exactly when 0 is their least and one of them
    has no predecessor among them, in the parameter-count error exactly
    when they are 0, ..., n-1 and the vector has another length than n;
    text after "p[" that is no integer ends in the "cannot extract" error.
    So an expression with p[2] and without p[1] is rejected, and one with
    exactly p[0] and p[1] is accepted without a parameter vector and with
    one of two elements only.  An expression whose formatted text is
    "p[0] + p[2] * x" is rejected with the not-contiguous error; one whose
    formatted text is "p[0] + p[1] * x" is accepted when no parameter
    vector is given, and rejected with a three-element vector. *)
Theorem validate_expression_parameter_indices (expression : string)
    (ind_var : string) (domain rng : array_like) (g : seed) :
  (forall params e g',
     _validate_expression expression params ind_var domain rng g = (Ok e, g') ->
     exists formatted raw idx,
       black_format_str expression = Some formatted /\
       ints_of (tl (Py.split "p[" formatted)) = Ok raw /\
       _param_indices formatted = Ok idx /\
       StronglySorted Z.lt idx /\ (forall j, In j idx <-> In j raw) /\
       idx = map Z.of_nat (seq 0 (length idx)) /\
       (forall p, params = Some p -> length p = length idx)) /\
  (forall formatted n,
     _validate_domain_range domain rng = Ok tt ->
     black_format_str expression = Some formatted ->
     ind_var ∈ ["x"; "y"] ->
     ind_var ∈ ast_names formatted ->
     _param_indices formatted = Ok (map Z.of_nat (seq 0 n)) ->
     _validate_expression expression None ind_var domain rng g
       = (Ok (Py.strip formatted), g)) /\
  (_validate_domain_range domain rng = Ok tt ->
   ind_var ∈ ["x"; "y"] ->
   (black_format_str expression = Some (String.append "p[0] + p[2] * x" newline) ->
    ind_var ∈ ast_names (String.append "p[0] + p[2] * x" newline) ->
    forall params,
      _validate_expression expression params ind_var domain rng g
        = (Raise (CalibrationError IndicesNotContiguous), g)) /\
   (black_format_str expression = Some (String.append "p[0] + p[1] * x" newline) ->
    ind_var ∈ ast_names (String.append "p[0] + p[1] * x" newline) ->
    _validate_expression expression None ind_var domain rng g
      = (Ok "p[0] + p[1] * x", g) /\
    forall a b c,
      _validate_expression expression (Some [a; b; c]) ind_var domain rng g
        = (Raise (CalibrationError ParamCountMismatch), g))) /\
  (forall formatted,
     _validate_domain_range domain rng = Ok tt ->
     black_format_str expression = Some formatted ->
     ind_var ∈ ["x"; "y"] ->
     ind_var ∈ ast_names formatted ->
     (ints_of (tl (Py.split "p[" formatted)) = Raise ValueError ->
      forall params,
        _validate_expression expression params ind_var domain rng g
          = (Raise (CalibrationError CannotExtractIndices), g)) /\
     (forall raw,
        ints_of (tl (Py.split "p[" formatted)) = Ok raw ->
        (forall params,
           (_validate_expression expression params ind_var domain rng g
              = (Raise (CalibrationError MinIndexNotZero), g)
            <-> min_index_not_zero raw) /\
           (_validate_expression expression params ind_var domain rng g
              = (Raise (CalibrationError IndicesNotContiguous), g)
            <-> index_gap raw)) /\
        (_validate_expression expression None ind_var domain rng g
           = (Ok (Py.strip formatted), g)
         <-> exists n, indices_upto n raw) /\
        (forall p,
           (_validate_expression expression (Some p) ind_var domain rng g
              = (Raise (CalibrationError ParamCountMismatch), g)
            <-> exists n, indices_upto n raw /\ length p <> n) /\
           (forall e g',
              _validate_expression expression (Some p) ind_var domain rng g = (Ok e, g') ->
              e = Py.strip formatted /\ indices_upto (length p) raw)) /\
        (In 2%Z raw -> ~ In 1%Z raw ->
         forall params, exists m,
           _validate_expression expression params ind_var domain rng g
             = (Raise (CalibrationError m), g) /\
           (m = MinIndexNotZero \/ m = IndicesNotContiguous)) /\
        ((forall j, In j raw <-> j = 0%Z \/ j = 1%Z) ->
         _validate_expression expression None ind_var domain rng g
           = (Ok (Py.strip formatted), g) /\
         forall p, length p <> 2%nat ->
           _validate_expression expression (Some p) ind_var domain rng g
             = (Raise (CalibrationError ParamCountMismatch), g)))).
Proof.
  split; [|split; [|split]].
  - intros params e g' Hok.
    apply validate_expression_ok_inv in Hok
      as (formatted & idx & _ & Hb & _ & _ & Hp & Hc & Hl & _).
    destruct (param_indices_inv _ _ Hp) as (raw & Hraw & Hs & Hin).
    exists formatted, raw, idx.
    repeat (split; [assumption|]).
    intros p Hp'. symmetry. now apply Hl.
  - intros formatted n. apply validate_expression_without_params.
  - intros Hdr Hi. split.
    + intros Hb Hn params. unfold _validate_expression.
      rewrite Hdr. erewrite bindM_step by reflexivity.
      rewrite Hb. erewrite bindM_step by reflexivity.
      rewrite !bool_decide_eq_true_2 by assumption. reflexivity.
    + intros Hb Hn. split.
      * apply (validate_expression_without_params _ _ _ _ _ _ 2 Hdr Hb Hi Hn).
        reflexivity.
      * intros a b c. unfold _validate_expression.
        rewrite Hdr. erewrite bindM_step by reflexivity.
        rewrite Hb. erewrite bindM_step by reflexivity.
        rewrite !bool_decide_eq_true_2 by assumption. reflexivity.
  - intros formatted Hdr Hb Hi Hn. split.
    { intros Hraw params. unfold _validate_expression.
      rewrite Hdr. erewrite bindM_step by reflexivity.
      rewrite Hb. erewrite bindM_step by reflexivity.
      rewrite !bool_decide_eq_true_2 by assumption. cbn [negb].
      unfold _param_indices. rewrite Hraw. reflexivity. }
    intros raw Hraw.
    destruct (validate_expression_by_indices expression formatted ind_var domain rng g
                raw Hdr Hb Hi Hn Hraw) as (smoke & Hsmoke & Hform).
    cbn zeta in Hform.
    destruct (index_checks raw) as (Hmin & Hgap & Hcont & Hupto).
    cbn zeta in Hmin, Hgap, Hcont, Hupto.
    set (idx := sorted_unique raw) in *.
    set (min_fails := (0 <? length idx)%nat && negb (hd 0%Z idx =? 0)%Z) in *.
    set (diff_fails := (0 <? length idx)%nat
                       && negb (forallb (fun d => isclose (inject_Z d) 1) (np_diff idx)))
      in *.
    assert (forall p e g1,
              (run* smoke p in retM (Py.strip formatted)) g = (Raise e, g1) ->
              e = CalibrationError CannotEvalFloat \/ e = CalibrationError CannotEvalArray)
      as Hsm.
    { intros p e g1 Hr. apply bindM_raise in Hr as [Hr | ([] & g2 & _ & Hr)];
        [now apply Hsmoke in Hr | discriminate]. }
    assert (forall p e g1,
              (run* smoke p in retM (Py.strip formatted)) g = (Ok e, g1) ->
              e = Py.strip formatted) as Hsmok.
    { intros p e g1 Hr. apply bindM_ok in Hr as ([] & g2 & _ & Hr).
      now apply retM_ok in Hr as [-> _]. }
    split; [|split; [|split; [|split]]].
    + intros params. rewrite (Hform params). split.
      * rewrite <- Hmin. destruct min_fails; [tauto|]. split; [|discriminate].
        destruct diff_fails; [discriminate|].
        destruct params as [p|]; [|discriminate].
        destruct (negb _); [discriminate|].
        intros Hr. apply Hsm in Hr as [[=] | [=]].
      * destruct min_fails.
        { split; [discriminate|]. intros (H0 & Hge & _).
          exfalso. destruct (proj1 Hmin eq_refl) as [_ Hno]. apply Hno. auto. }
        rewrite <- (Hgap eq_refl). destruct diff_fails; [tauto|].
        split; [|discriminate].
        destruct params as [p|]; [|discriminate].
        destruct (negb _); [discriminate|].
        intros Hr. apply Hsm in Hr as [[=] | [=]].
    + rewrite (Hform None). split.
      * destruct min_fails eqn:Em; [discriminate|].
        destruct diff_fails eqn:Ed; [discriminate|]. intros _.
        exists (length idx). now apply Hcont.
      * intros [n Hn']. destruct (Hupto n Hn') as (-> & -> & _). reflexivity.
    + intros p. rewrite (Hform (Some p)). split; [split|].
      * destruct min_fails eqn:Em; [discriminate|].
        destruct diff_fails eqn:Ed; [discriminate|].
        destruct (length idx =? length p)%nat eqn:El; cbn [negb].
        { intros Hr. apply Hsm in Hr as [[=] | [=]]. }
        intros _. exists (length idx). split; [now apply Hcont|].
        apply Nat.eqb_neq in El. congruence.
      * intros (n & Hn' & Hne). destruct (Hupto n Hn') as (-> & -> & Hidx).
        rewrite Hidx, length_map, length_seq.
        assert ((n =? length p)%nat = false) as -> by (apply Nat.eqb_neq; congruence).
        reflexivity.
      * intros e g'.
        destruct min_fails eqn:Em; [discriminate|].
        destruct diff_fails eqn:Ed; [discriminate|].
        destruct (length idx =? length p)%nat eqn:El; cbn [negb]; [|discriminate].
        apply Nat.eqb_eq in El. intros Hr. split; [now apply Hsmok in Hr|].
        rewrite <- El. now apply Hcont.
    + intros H2 H1 params. rewrite (Hform params).
      destruct min_fails eqn:Em; [eauto|].
      destruct diff_fails eqn:Ed; [eauto|].
      exfalso. destruct (Hcont eq_refl eq_refl) as [_ Hall].
      apply H1, Hall. apply Hall in H2. lia.
    + intros Hraw01.
      assert (indices_upto 2 raw) as H2.
      { intros j. rewrite Hraw01. simpl. lia. }
      destruct (Hupto 2%nat H2) as (Em & Ed & Hidx).
      split; [rewrite (Hform None), Em, Ed; reflexivity|].
      intros p Hp. rewrite (Hform (Some p)), Em, Ed, Hidx.
      cbn [map seq length].
      destruct p as [|a [|b [|c p]]]; try reflexivity. now contradiction Hp.
Qed.

End ValidationProperties.

(** ** Sorting the points *)

Lemma insert_by_key_perm (a : Q * nat) (l : list (Q * nat)) :
  Permutation (insert_by_key a l) (a :: l).
Proof.
  induction l as [|b l IH]; simpl; [reflexivity|].
  destruct (Qle_bool (fst a) (fst b)); [reflexivity|].
  rewrite IH. apply perm_swap.
Qed.

Lemma sort_by_key_perm (l : list (Q * nat)) : Permutation (sort_by_key l) l.
Proof.
  induction l as [|a l IH]; simpl; [reflexivity|].
  rewrite insert_by_key_perm. now constructor.
Qed.

Lemma insert_by_key_sorted (a : Q * nat) (l : list (Q * nat)) :
  StronglySorted key_le l -> StronglySorted key_le (insert_by_key a l).
Proof.
  induction 1 as [|b l Hs IH Hall]; simpl.
  - repeat constructor.
  - destruct (Qle_bool (fst a) (fst b)) eqn:E.
    + apply Qle_bool_iff in E.
      constructor; [constructor; assumption|].
      constructor; [exact E|].
      eapply Forall_impl; [exact Hall|].
      intros c Hc. unfold key_le in *. lra.
    + apply Qle_bool_false_iff in E.
      constructor; [assumption|].
      rewrite (insert_by_key_perm a l).
      constructor; [unfold key_le; lra | assumption].
Qed.

Lemma sort_by_key_sorted (l : list (Q * nat)) : StronglySorted key_le (sort_by_key l).
Proof.
  induction l as [|a l IH]; simpl; [constructor|].
  now apply insert_by_key_sorted.
Qed.

Lemma key_sorted_fst (l : list (Q * nat)) :
  StronglySorted key_le l -> StronglySorted Qle (map fst l).
Proof.
  induction 1 as [|a l Hs IH Hall]; simpl; constructor; [assumption|].
  apply Forall_forall. intros q Hq. apply list_elem_of_In in Hq.
  apply in_map_iff in Hq as (b & <- & Hb).
  rewrite Forall_forall in Hall. apply Hall. now apply list_elem_of_In.
Qed.

(** An entry of the keys zipped with their positions holds the key found at
    that position. *)
Lemma combine_seq_nth (xs : list Q) (k : nat) (x : Q) (j : nat) :
  In (x, j) (combine xs (seq k (length xs))) ->
  (k <= j)%nat /\ nth_error xs (j - k) = Some x.
Proof.
  revert k. induction xs as [|y xs IH]; intros k; simpl; [contradiction|].
  intros [[= -> ->] | Hin].
  - split; [lia|]. now rewrite Nat.sub_diag.
  - apply IH in Hin as [Hle Hn]. split; [lia|].
    replace (j - k)%nat with (S (j - S k)) by lia. exact Hn.
Qed.

Lemma take_indices_argsort (xs : list Q) :
  take_indices xs (np_argsort xs)
    = map fst (sort_by_key (combine xs (seq 0 (length xs)))).
Proof.
  unfold take_indices, np_argsort. rewrite map_map.
  apply map_ext_in. intros [x j] Hin. simpl.
  apply (Permutation_in _ (sort_by_key_perm _)) in Hin.
  apply combine_seq_nth in Hin as [_ Hn].
  rewrite Nat.sub_0_r in Hn. now apply nth_error_nth.
Qed.

Lemma combine_map_positions (xs ys : list Q) :
  length xs = length ys ->
  map (fun a : Q * nat => (fst a, nth (snd a) ys 0)) (combine xs (seq 0 (length xs)))
    = combine xs ys.
Proof.
  intros Hlen.
  assert (forall pre, map (fun a : Q * nat => (fst a, nth (snd a) (pre ++ ys) 0))
                        (combine xs (seq (length pre) (length xs)))
                      = combine xs ys) as Hgen.
  { revert ys Hlen. induction xs as [|x xs IH]; intros ys Hlen pre; [reflexivity|].
    destruct ys as [|y ys]; [discriminate|]. simpl.
    f_equal.
    - f_equal. rewrite app_nth2 by lia. now rewrite Nat.sub_diag.
    - specialize (IH ys ltac:(simpl in Hlen; lia) (pre ++ [y])).
      rewrite length_app, Nat.add_1_r, <- app_assoc in IH. exact IH. }
  exact (Hgen []).
Qed.

(** Sorting by x permutes the pairs, and leaves the x ascending. *)
Lemma argsort_pairs (xs ys : list Q) :
  length xs = length ys ->
  let i := np_argsort xs in
  Permutation (combine (take_indices xs i) (take_indices ys i)) (combine xs ys) /\
  StronglySorted Qle (take_indices xs i) /\
  length (take_indices xs i) = length xs /\
  length (take_indices ys i) = length xs.
Proof.
  intros Hlen i.
  assert (length i = length xs) as Hi.
  { unfold i, np_argsort. rewrite length_map.
    rewrite (Permutation_length (sort_by_key_perm _)).
    rewrite length_combine, length_seq. lia. }
  split; [|split; [|split]].
  - unfold i. rewrite take_indices_argsort.
    unfold take_indices, np_argsort. rewrite map_map.
    set (sp := sort_by_key (combine xs (seq 0 (length xs)))).
    assert (combine (map fst sp) (map (fun a : Q * nat => nth (snd a) ys 0) sp)
            = map (fun a : Q * nat => (fst a, nth (snd a) ys 0)) sp) as ->.
    { clearbody sp. induction sp as [|a sp IH]; simpl; [reflexivity|]. now rewrite IH. }
    rewrite <- (combine_map_positions xs ys Hlen).
    apply Permutation_map. apply sort_by_key_perm.
  - unfold i. rewrite take_indices_argsort.
    apply key_sorted_fst, sort_by_key_sorted.
  - unfold take_indices. now rewrite length_map.
  - unfold take_indices. now rewrite length_map.
Qed.

(** ** Checking the points *)

Lemma getitem_item (a : array_like) (i : nat) (q : Q) :
  getitem a i = Ok q -> item a i = q.
Proof.
  destruct a as [|l|rows]; simpl; try discriminate.
  - destruct (nth_error l i) eqn:E; [|discriminate].
    intros [= <-]. now apply nth_error_nth.
  - destruct (nth_error rows i); discriminate.
Qed.

Lemma outside_false (lo hi : Q) (xs : list Q) :
  existsb (fun x => Qlt_bool x lo || Qlt_bool hi x) xs = false <->
  Forall (within lo hi) xs.
Proof.
  induction xs as [|x xs IH]; simpl.
  - split; [constructor | reflexivity].
  - rewrite orb_false_iff, IH, Forall_cons. unfold within.
    rewrite orb_false_iff. unfold Qlt_bool. rewrite !negb_false_iff, !Qle_bool_iff.
    tauto.
Qed.

Lemma combine_fst (xs ys : list Q) :
  length xs = length ys -> map fst (combine xs ys) = xs.
Proof.
  revert ys. induction xs as [|x xs IH]; intros [|y ys] Hlen; try discriminate;
    simpl; [reflexivity|]. f_equal. apply IH. simpl in Hlen. lia.
Qed.

Lemma combine_snd (xs ys : list Q) :
  length xs = length ys -> map snd (combine xs ys) = ys.
Proof.
  revert ys. induction xs as [|x xs IH]; intros [|y ys] Hlen; try discriminate;
    simpl; [reflexivity|]. f_equal. apply IH. simpl in Hlen. lia.
Qed.

Lemma atleast_1d_flat (l : list Q) : np_atleast_1d (Some (A1D l)) = Some l.
Proof. reflexivity. Qed.

Section PointProperties.
Context `{Externals}.

Lemma check_points_ok (px py : option array_like) (domain rng : array_like)
    (xs' ys' : list Q) :
  _check_points px py domain rng = Ok (xs', ys') ->
  exists xs ys,
    np_atleast_1d px = Some xs /\ np_atleast_1d py = Some ys /\
    length xs = length ys /\
    Permutation (combine xs' ys') (combine xs ys) /\
    length xs' = length ys' /\
    StronglySorted Qle xs' /\
    Forall (within (item domain 0) (item domain 1)) xs' /\
    Forall (within (item rng 0) (item rng 1)) ys' /\
    (getitem domain 0 = Ok (item domain 0) /\ getitem domain 1 = Ok (item domain 1) /\
     getitem rng 0 = Ok (item rng 0) /\ getitem rng 1 = Ok (item rng 1)).
Proof.
  unfold _check_points.
  destruct (np_atleast_1d px) as [xs|]; [|discriminate].
  destruct (np_atleast_1d py) as [ys|]; [|discriminate].
  destruct (length xs =? length ys)%nat eqn:El; [|discriminate].
  apply Nat.eqb_eq in El. cbn [negb].
  destruct (getitem domain 0) as [d0|] eqn:Ed0; [|discriminate].
  destruct (getitem domain 1) as [d1|] eqn:Ed1; [|discriminate].
  cbn [bindR].
  destruct (existsb _ (take_indices xs (np_argsort xs))) eqn:Ex; [discriminate|].
  destruct (getitem rng 0) as [r0|] eqn:Er0; [|discriminate].
  destruct (getitem rng 1) as [r1|] eqn:Er1; [|discriminate].
  cbn [bindR].
  destruct (existsb _ (take_indices ys (np_argsort xs))) eqn:Ey; [discriminate|].
  intros [= <- <-].
  destruct (argsort_pairs xs ys El) as (Hperm & Hsort & Hlx & Hly).
  exists xs, ys. repeat (split; [assumption || reflexivity|]).
  split; [congruence|]. split; [assumption|].
  pose proof (getitem_item _ _ _ Ed0). pose proof (getitem_item _ _ _ Ed1).
  pose proof (getitem_item _ _ _ Er0). pose proof (getitem_item _ _ _ Er1). subst.
  split; [now apply outside_false|]. split; [now apply outside_false|]. auto.
Qed.

Lemma check_points_pass (px py : option array_like) (domain rng : array_like)
    (xs ys : list Q) (d0 d1 r0 r1 : Q) :
  np_atleast_1d px = Some xs -> np_atleast_1d py = Some ys ->
  length xs = length ys ->
  getitem domain 0 = Ok d0 -> getitem domain 1 = Ok d1 ->
  getitem rng 0 = Ok r0 -> getitem rng 1 = Ok r1 ->
  Forall (within d0 d1) xs -> Forall (within r0 r1) ys ->
  _check_points px py domain rng
    = Ok (take_indices xs (np_argsort xs), take_indices ys (np_argsort xs)).
Proof.
  intros Hpx0 Hpy0 Hlen Hd0 Hd1 Hr0 Hr1 Hx Hy. unfold _check_points.
  rewrite Hpx0, Hpy0.
  apply Nat.eqb_eq in Hlen as Hlen'. rewrite Hlen', Hd0, Hd1. cbn [negb bindR].
  destruct (argsort_pairs xs ys Hlen) as (Hperm & _ & Hlx & Hly).
  assert (Permutation (take_indices xs (np_argsort xs)) xs) as Hpx.
  { rewrite <- (combine_fst xs ys Hlen) at 3. rewrite <- Hperm.
    rewrite combine_fst by congruence. reflexivity. }
  assert (Permutation (take_indices ys (np_argsort xs)) ys) as Hpy.
  { rewrite <- (combine_snd xs ys Hlen) at 2. rewrite <- Hperm.
    rewrite combine_snd by congruence. reflexivity. }
  rewrite <- Hpx in Hx. rewrite <- Hpy in Hy.
  apply outside_false in Hx, Hy. rewrite Hx, Hr0, Hr1. cbn [bindR]. now rewrite Hy.
Qed.

(** A point outside the domain or the range makes the check raise. *)
Lemma check_points_outside (px py : option array_like) (domain rng : array_like)
    (xs ys : list Q) :
  np_atleast_1d px = Some xs -> np_atleast_1d py = Some ys ->
  Exists (fun x => ~ within (item domain 0) (item domain 1) x) xs \/
  Exists (fun y => ~ within (item rng 0) (item rng 1) y) ys ->
  exists e, _check_points px py domain rng = Raise e.
Proof.
  intros Hx Hy Hout.
  destruct (_check_points px py domain rng) as [[xs' ys']|e] eqn:E; [|eauto].
  exfalso. apply check_points_ok in E
    as (xs0 & ys0 & Hx0 & Hy0 & Hlen & Hperm & Hlen' & _ & Hfx & Hfy & _).
  rewrite Hx in Hx0. rewrite Hy in Hy0. injection Hx0 as <-. injection Hy0 as <-.
  assert (Permutation xs' xs) as Hpx.
  { rewrite <- (combine_fst xs ys Hlen), <- Hperm. now rewrite combine_fst. }
  assert (Permutation ys' ys) as Hpy.
  { rewrite <- (combine_snd xs ys Hlen), <- Hperm. now rewrite combine_snd. }
  rewrite Hpx in Hfx. rewrite Hpy in Hfy.
  rewrite Forall_forall in Hfx, Hfy.
  destruct Hout as [Hout | Hout]; apply Exists_exists in Hout as (v & Hin & Hv);
    apply Hv; auto.
Qed.

Lemma add_points_steps (px py : option array_like) (c : Calibration) (g : seed) :
  add_points px py (c, g) =
    match _check_points px py (_domain c) (_range c) with
    | Raise e => (Raise e, (c, g))
    | Ok (nx, ny) =>
        let c1 := with_points_y (_points_y c ++ ny)
                    (with_points_ndarray true (with_points_x (_points_x c ++ nx) c)) in
        match _check_points (Some (A1D (_points_x c ++ nx)))
                (Some (A1D (_points_y c ++ ny))) (_domain c) (_range c) with
        | Raise e => (Raise e, (c1, g))
        | Ok (sx, sy) => (Ok tt, (with_points_y sy (with_points_x sx c1), g))
        end
    end.
Proof.
  unfold add_points, bindM, self, liftR, assign. cbn [fst snd].
  destruct (_check_points px py (_domain c) (_range c)) as [[nx ny]|e]; [|reflexivity].
  cbn [fst snd with_points_x with_points_y with_points_ndarray
       _points_x _points_y _domain _range].
  destruct (_check_points (Some (A1D (_points_x c ++ nx))) (Some (A1D (_points_y c ++ ny)))
              (_domain c) (_range c)) as [[sx sy]|e]; reflexivity.
Qed.

Lemma combine_app_same (a1 a2 b1 b2 : list Q) :
  length a1 = length b1 ->
  combine (a1 ++ a2) (b1 ++ b2) = combine a1 b1 ++ combine a2 b2.
Proof.
  revert b1. induction a1 as [|x a1 IH]; intros [|y b1] Hlen; try discriminate;
    simpl; [reflexivity|]. f_equal. apply IH. simpl in Hlen. lia.
Qed.

(** A successful [add_points]: the new points passed the check, and the
    store holds the old and the new pairs together, sorted. *)
Lemma add_points_ok (px py : option array_like) (c c' : Calibration) (g g' : seed) :
  add_points px py (c, g) = (Ok tt, (c', g')) ->
  points_ok c' /\
  _domain c' = _domain c /\ _range c' = _range c /\
  exists xs ys,
    np_atleast_1d px = Some xs /\ np_atleast_1d py = Some ys /\
    length xs = length ys /\
    length (_points_x c) = length (_points_y c) /\
    Permutation (pairs c') (pairs c ++ combine xs ys).
Proof.
  rewrite add_points_steps.
  destruct (_check_points px py (_domain c) (_range c)) as [[nx ny]|e] eqn:E1;
    [|discriminate].
  cbn zeta.
  destruct (_check_points (Some (A1D (_points_x c ++ nx))) (Some (A1D (_points_y c ++ ny)))
              (_domain c) (_range c)) as [[sx sy]|e] eqn:E2;
    [|discriminate].
  intros [= <- <-].
  apply check_points_ok in E1
    as (xs & ys & Hx & Hy & Hlen & Hperm & Hlen' & _ & _ & _ & _).
  apply check_points_ok in E2
    as (xs2 & ys2 & Hx2 & Hy2 & Hlen2 & Hperm2 & Hlen2' & Hs & Hfx & Hfy & _).
  rewrite atleast_1d_flat in Hx2, Hy2. injection Hx2 as <-. injection Hy2 as <-.
  rewrite !length_app in Hlen2.
  assert (length (_points_x c) = length (_points_y c)) as Hold by lia.
  split; [|split; [reflexivity|split; [reflexivity|]]].
  - unfold points_ok. simpl. auto.
  - exists xs, ys. repeat (split; [assumption|]).
    unfold pairs. simpl. rewrite Hperm2, combine_app_same by assumption.
    now rewrite Hperm.
Qed.

(** Points that fail the check are not stored. *)
Lemma add_points_rejects (px py : option array_like) (c : Calibration) (g : seed) (e : exn) :
  _check_points px py (_domain c) (_range c) = Raise e ->
  add_points px py (c, g) = (Raise e, (c, g)).
Proof. intros E. rewrite add_points_steps, E. reflexivity. Qed.

(** On a store that keeps its promise, the second check cannot fail. *)
Lemma add_points_preserves (px py : option array_like) (c c' : Calibration)
    (g g' : seed) (r : result unit) :
  points_ok c ->
  add_points px py (c, g) = (r, (c', g')) ->
  points_ok c' /\ (r <> Ok tt -> c' = c).
Proof.
  intros Hok Hrun. destruct r as [[]|e].
  - apply add_points_ok in Hrun. split; [tauto|congruence].
  - rewrite add_points_steps in Hrun.
    destruct (_check_points px py (_domain c) (_range c)) as [[nx ny]|e1] eqn:E1.
    + exfalso. cbn zeta in Hrun.
      apply check_points_ok in E1
        as (xs & ys & Hx & Hy & Hlen & Hperm & Hlen' & _ & Hfx & Hfy & Hd0 & Hd1 & Hr0 & Hr1).
      destruct Hok as (Hl & _ & Hox & Hoy).
      assert (length (_points_x c ++ nx) = length (_points_y c ++ ny)) as Hla
        by (rewrite !length_app; lia).
      assert (Forall (within (item (_domain c) 0) (item (_domain c) 1))
                (_points_x c ++ nx)) as Hax by (apply Forall_app; auto).
      assert (Forall (within (item (_range c) 0) (item (_range c) 1))
                (_points_y c ++ ny)) as Hay by (apply Forall_app; auto).
      rewrite (check_points_pass (Some (A1D (_points_x c ++ nx)))
                 (Some (A1D (_points_y c ++ ny))) _ _ _ _ _ _ _ _
                 eq_refl eq_refl Hla Hd0 Hd1 Hr0 Hr1 Hax Hay) in Hrun.
      discriminate.
    + injection Hrun as <- <- <-. auto.
Qed.

(** C5 (amended).  A successful [add_points] leaves [points_x] sorted
    ascending with [points_y] jointly permuted, the store holding exactly the
    pairs it held before together with the new ones (the combined set is
    checked and sorted, not just the new points), every stored x within the
    domain and every stored y within the range of the object at that call.
    New points outside the domain or range raise and leave the store as it
    was.  On a store in that state no call of [add_points] breaks it.  On an
    empty store with the default domain and range, add_points([3,1],[30,10])
    then add_points([2],[20]) gives points_x = [1,2,3], points_y =
    [10,20,30].  Nothing is said about points stored before the domain or
    range was assigned anew. *)
Theorem add_points_sorts_combined_store (c : Calibration) (g : seed) :
  (forall px py c' g',
     add_points px py (c, g) = (Ok tt, (c', g')) ->
     points_ok c' /\ _domain c' = _domain c /\ _range c' = _range c /\
     exists xs ys,
       np_atleast_1d px = Some xs /\ np_atleast_1d py = Some ys /\
       Permutation (pairs c') (pairs c ++ combine xs ys)) /\
  (forall px py xs ys,
     np_atleast_1d px = Some xs -> np_atleast_1d py = Some ys ->
     Exists (fun x => ~ within (item (_domain c) 0) (item (_domain c) 1) x) xs \/
     Exists (fun y => ~ within (item (_range c) 0) (item (_range c) 1) y) ys ->
     exists e, add_points px py (c, g) = (Raise e, (c, g))) /\
  (points_ok c ->
   forall px py r c' g',
     add_points px py (c, g) = (r, (c', g')) ->
     points_ok c' /\ (r <> Ok tt -> c' = c)) /\
  (_points_x c = [] -> _points_y c = [] ->
   _domain c = DEFAULT_DOMAIN -> _range c = DEFAULT_RANGE ->
   exists c',
     (run* add_points (Some (A1D [3; 1])) (Some (A1D [30; 10])) in
      add_points (Some (A1D [2])) (Some (A1D [20]))) (c, g) = (Ok tt, (c', g)) /\
     _points_x c' = [1; 2; 3] /\ _points_y c' = [10; 20; 30]).
Proof.
  split; [|split; [|split]].
  - intros px py c' g' Hrun.
    apply add_points_ok in Hrun as (Hok & Hd & Hr & xs & ys & Hx & Hy & _ & _ & Hp).
    repeat (split; [assumption|]). exists xs, ys. auto.
  - intros px py xs ys Hx Hy Hout.
    destruct (check_points_outside px py _ _ xs ys Hx Hy Hout) as [e He].
    exists e. now apply add_points_rejects.
  - intros Hok px py r c' g'. now apply add_points_preserves.
  - intros Hx Hy Hd Hr.
    destruct c as [ex pa inv dom rg at_ pxs pys]. simpl in Hx, Hy, Hd, Hr. subst.
    eexists. split; [|split]; [vm_compute; reflexivity | reflexivity | reflexivity].
Qed.

End PointProperties.

(** ** Comparison *)

Lemma isclose_iff (a b : Q) : isclose a b = true <-> close a b.
Proof. unfold isclose, close. apply Qle_bool_iff. Qed.

Lemma allclose_list_iff (p q : list Q) :
  allclose_list p q = true <-> Forall2 close p q.
Proof.
  revert q. induction p as [|a p IH]; intros [|b q]; simpl.
  - split; [constructor | reflexivity].
  - split; [discriminate | inversion 1].
  - split; [discriminate | inversion 1].
  - rewrite andb_true_iff, isclose_iff, IH. split.
    + intros [? ?]. now constructor.
    + inversion 1; subst. auto.
Qed.

Lemma np_allclose_same_length (p q : list Q) :
  length p = length q ->
  np_allclose (Array p) (Array q) = Ok (allclose_list p q).
Proof.
  intros Hlen. unfold np_allclose.
  destruct p as [|a [|a' p]], q as [|b [|b' q]]; try discriminate; simpl.
  - reflexivity.
  - reflexivity.
  - simpl in Hlen. injection Hlen as Hlen. apply Nat.eqb_eq in Hlen as ->.
    reflexivity.
Qed.

Section ComparisonProperties.
Context `{Externals}.

(** C6.  For two Calibrations, [a == b] is true exactly when the stored
    (canonical) expressions are the same text and the parameter vectors are
    element-wise close; the comparison never raises, reads neither domain,
    range, points nor attrs, and parameter vectors of different lengths
    compare unequal. *)
Theorem eq_compares_expression_and_params (a b : Calibration) :
  (exists r, __eq__ a (PyCalibration b) = Ok r) /\
  (__eq__ a (PyCalibration b) = Ok true <->
     _expression a = _expression b /\ Forall2 close (_params a) (_params b)) /\
  (length (_params a) <> length (_params b) ->
     __eq__ a (PyCalibration b) = Ok false) /\
  (forall a' b',
     _expression a' = _expression a -> _params a' = _params a ->
     _expression b' = _expression b -> _params b' = _params b ->
     __eq__ a' (PyCalibration b') = __eq__ a (PyCalibration b)).
Proof.
  assert (__eq__ a (PyCalibration b)
          = Ok ((length (_params a) =? length (_params b))%nat
                && String.eqb (_expression a) (_expression b)
                && allclose_list (_params a) (_params b))) as Heq.
  { unfold __eq__.
    destruct (length (_params a) =? length (_params b))%nat eqn:El; [|reflexivity].
    cbn [negb andb].
    destruct (String.eqb (_expression a) (_expression b)); [|reflexivity].
    cbn [negb andb]. apply Nat.eqb_eq in El. now apply np_allclose_same_length. }
  split; [|split; [|split]].
  - rewrite Heq. eauto.
  - rewrite Heq. split.
    + intros [= Hb]. apply andb_true_iff in Hb as [Hb Hc].
      apply andb_true_iff in Hb as [_ He].
      apply String.eqb_eq in He. apply allclose_list_iff in Hc. auto.
    + intros [He Hc]. f_equal.
      rewrite He, String.eqb_refl.
      rewrite (proj2 (Nat.eqb_eq _ _) (Forall2_length _ _ _ Hc)).
      now apply allclose_list_iff in Hc as ->.
  - intros Hne. rewrite Heq. apply Nat.eqb_neq in Hne. now rewrite Hne.
  - intros a' b' Ha Hpa Hb Hpb. unfold __eq__. now rewrite Ha, Hpa, Hb, Hpb.
Qed.

(** C10.  Comparing a Calibration with anything that is not a Calibration
    raises the CalibrationError of the comparison, for every Calibration and
    every such operand; it returns neither False nor NotImplemented. *)
Theorem eq_rejects_other_types (c : Calibration) (other : pyobject) :
  isinstance_Calibration other = false ->
  __eq__ c other = Raise (CalibrationError CompareNonCalibration).
Proof. destruct other; [discriminate|reflexivity..]. Qed.

End ComparisonProperties.

(** ** Inversion *)

Section InversionProperties.
Context `{Externals}.

Lemma inverse_ok_inv (c : Calibration) (y x : ndarray) (x0 : option ndarray) :
  inverse c y x0 = Ok x ->
  inverse_root c y x0 = Ok x /\
  exists fx, __call__ c x = Ok fx /\ np_allclose fx y = Ok true.
Proof.
  unfold inverse.
  destruct (np_any _ y); [discriminate|].
  destruct (inverse_root c y x0) as [x'|] eqn:Er; [|discriminate]. cbn [bindR].
  destruct (__call__ c x') as [fx|] eqn:Ef; [|discriminate]. cbn [bindR].
  destruct (np_allclose fx y) as [[]|] eqn:Ec; try discriminate. cbn [bindR].
  intros [= <-]. eauto.
Qed.

(** C1 (amended).  Whenever [inverse] returns a value [x], by the inverse
    expression or by numerical root finding, the forward function evaluated
    again at [x] is numerically close to the requested [y]; when the forward
    value at the computed [x] is not close to [y], [inverse] ends in an
    AssertionError instead of returning.  For [y = c(x)] this gives
    [c(c.inverse(c(x)))] close to [c(x)]; it does not give [c.inverse(c(x))]
    close to [x]. *)
Theorem inverse_is_checked (c : Calibration) (y : ndarray) (x0 : option ndarray) :
  (forall x, inverse c y x0 = Ok x ->
     exists fx, __call__ c x = Ok fx /\ np_allclose fx y = Ok true) /\
  (forall x fx,
     np_any (fun v => Qlt_bool v (item (_range c) 0) || Qlt_bool (item (_range c) 1) v) y
       = false ->
     inverse_root c y x0 = Ok x ->
     __call__ c x = Ok fx ->
     np_allclose fx y = Ok false ->
     inverse c y x0 = Raise AssertionError) /\
  (forall x x', __call__ c x = Ok y -> inverse c y x0 = Ok x' ->
     exists fx, __call__ c x' = Ok fx /\ np_allclose fx y = Ok true).
Proof.
  split; [|split].
  - intros x Hinv. now apply inverse_ok_inv in Hinv as [_ ?].
  - intros x fx Hr Hroot Hf Hc. unfold inverse.
    rewrite Hr, Hroot. cbn [bindR]. rewrite Hf. cbn [bindR]. now rewrite Hc.
  - intros _ x' _ Hinv. now apply inverse_ok_inv in Hinv as [_ ?].
Qed.

End InversionProperties.

(** ** Mutation *)

Section MutationProperties.
Context `{Externals}.

Lemma module_call_state {A} (m : M seed A) (c c' : Calibration) (g g' : seed)
    (r : result A) :
  module_call m (c, g) = (r, (c', g')) -> c' = c /\ m g = (r, g').
Proof.
  unfold module_call. cbn [fst snd]. destruct (m g) as [r0 g0].
  now intros [= <- <- <-].
Qed.

Lemma assign_ok (f : Calibration -> Calibration) (c : Calibration) (g : seed) :
  assign f (c, g) = (Ok tt, (f c, g)).
Proof. reflexivity. Qed.

Lemma set_expression_raise (expression : string) (c c' : Calibration)
    (g g' : seed) (e : exn) :
  set_expression expression (c, g) = (Raise e, (c', g')) -> c' = c.
Proof.
  unfold set_expression. intros Hrun.
  apply bindM_raise in Hrun as [Hm | (v & [c1 g1] & Hm & Ha)].
  - now apply module_call_state in Hm as [-> _].
  - rewrite assign_ok in Ha. discriminate.
Qed.

Lemma set_params_raise (p : array_like) (c c' : Calibration) (g g' : seed) (e : exn) :
  set_params p (c, g) = (Raise e, (c', g')) -> c' = c.
Proof.
  unfold set_params. intros Hrun.
  apply bindM_raise in Hrun as [Hm | (params & [c1 g1] & Hm & Hrun)].
  - destruct p; cbv in Hm; congruence.
  - assert (c1 = c /\ g1 = g) as [-> ->] by (destruct p; cbv in Hm; split; congruence).
    apply bindM_raise in Hrun as [Hm' | (c2 & [c3 g3] & Hs & Hrun)]; [discriminate|].
    injection Hs as <- <- <-.
    apply bindM_raise in Hrun as [Hm' | (v & [c4 g4] & Hm' & Ha)].
    + now apply module_call_state in Hm' as [-> _].
    + rewrite assign_ok in Ha. discriminate.
Qed.

Lemma set_inv_expression_raise (inv : option string) (c c' : Calibration)
    (g g' : seed) (e : exn) :
  set_inv_expression inv (c, g) = (Raise e, (c', g')) -> c' = c.
Proof.
  unfold set_inv_expression. destruct inv as [inv|]; [|discriminate].
  intros Hrun.
  apply bindM_raise in Hrun as [Hm | (v & [c1 g1] & Hm & Ha)].
  - now apply module_call_state in Hm as [-> _].
  - rewrite assign_ok in Ha. discriminate.
Qed.

Lemma set_domain_raise (domain : array_like) (c c' : Calibration)
    (g g' : seed) (e : exn) :
  set_domain domain (c, g) = (Raise e, (c', g')) -> c' = c.
Proof.
  unfold set_domain. intros Hrun.
  apply bindM_raise in Hrun as [Hm | (v & [c1 g1] & Hm & Ha)].
  - unfold liftR in Hm. congruence.
  - rewrite assign_ok in Ha. discriminate.
Qed.

Lemma set_range_raise (rng : array_like) (c c' : Calibration)
    (g g' : seed) (e : exn) :
  set_range rng (c, g) = (Raise e, (c', g')) -> c' = c.
Proof.
  unfold set_range. intros Hrun.
  apply bindM_raise in Hrun as [Hm | (v & [c1 g1] & Hm & Ha)].
  - unfold liftR in Hm. congruence.
  - rewrite assign_ok in Ha. discriminate.
Qed.

Lemma fit_raise (c c' : Calibration) (g g' : seed) (e : exn) :
  fit (c, g) = (Raise e, (c', g')) -> c' = c.
Proof.
  unfold fit. intros Hrun.
  apply bindM_raise in Hrun as [Hm | (c1 & [c2 g2] & Hs & Hrun)]; [discriminate|].
  injection Hs as <- <- <-.
  apply bindM_raise in Hrun as [Hm | (params & [c3 g3] & Hm & Hrun)].
  - now apply module_call_state in Hm as [-> _].
  - apply module_call_state in Hm as [-> _].
    now apply set_params_raise in Hrun.
Qed.

Lemma set_expression_ok (expression : string) (c c' : Calibration) (g g' : seed) :
  set_expression expression (c, g) = (Ok tt, (c', g')) ->
  exists e, _validate_expression expression None "x" DEFAULT_DOMAIN DEFAULT_RANGE g
              = (Ok e, g') /\ c' = with_expression e c.
Proof.
  unfold set_expression. intros Hrun.
  apply bindM_ok in Hrun as (e & [c1 g1] & Hm & Ha).
  apply module_call_state in Hm as [-> Hm].
  rewrite assign_ok in Ha. injection Ha as <- <-. eauto.
Qed.

Lemma set_params_ok (p : array_like) (c c' : Calibration) (g g' : seed) :
  set_params p (c, g) = (Ok tt, (c', g')) ->
  exists params e,
    p = A1D params /\
    _validate_expression (_expression c) (Some params) "x" DEFAULT_DOMAIN DEFAULT_RANGE g
      = (Ok e, g') /\
    c' = with_params params c.
Proof.
  unfold set_params. intros Hrun.
  apply bindM_ok in Hrun as (params & [c1 g1] & Hm & Hrun).
  destruct p as [|l|]; try discriminate.
  apply retM_ok in Hm as [-> [= -> ->]].
  apply bindM_ok in Hrun as (c2 & [c3 g3] & Hs & Hrun).
  injection Hs as <- <- <-.
  apply bindM_ok in Hrun as (e & [c4 g4] & Hm & Ha).
  apply module_call_state in Hm as [-> Hm].
  rewrite assign_ok in Ha. injection Ha as <- <-. eauto.
Qed.

(** What an object that [__init__] returned has been through. *)
Lemma init_ok_inv (expression : string) (params : array_like)
    (inv_expression : option string) (domain rng : array_like)
    (attrs : gmap string h5val) (g g' : seed) (c : Calibration) :
  __init__ expression params inv_expression domain rng attrs g = (Ok c, g') ->
  exists p e g1 g2,
    params = A1D p /\
    _validate_expression expression None "x" DEFAULT_DOMAIN DEFAULT_RANGE g
      = (Ok (_expression c), g1) /\
    _validate_expression (_expression c) (Some p) "x" DEFAULT_DOMAIN DEFAULT_RANGE g1
      = (Ok e, g2) /\
    _params c = p /\
    _validate_domain_range domain (A1D [0; 1]) = Ok tt /\
    _validate_domain_range (A1D [0; 1]) rng = Ok tt /\
    _domain c = domain /\ _range c = rng /\ _attrs c = attrs /\
    _points_x c = [] /\ _points_y c = [].
Proof.
  unfold __init__.
  match goal with |- context [?m (blank, g)] => destruct (m (blank, g)) as [[[]|e] [c0 g0]] eqn:Hrun end;
    [|discriminate].
  intros [= <- <-].
  apply bindM_ok in Hrun as ([] & [c1 g1] & H1 & Hrun).
  apply set_expression_ok in H1 as (e1 & Hv1 & ->).
  apply bindM_ok in Hrun as ([] & [c2 g2] & H2 & Hrun).
  apply set_params_ok in H2 as (p & e2 & -> & Hv2 & ->).
  apply bindM_ok in Hrun as ([] & [c3 g3] & H3 & Hrun).
  apply bindM_ok in Hrun as ([] & [c4 g4] & H4 & Hrun).
  unfold set_domain in H4.
  apply bindM_ok in H4 as ([] & [c4' g4'] & Hd & H4).
  apply liftR_ok in Hd as [Hd [= -> ->]].
  rewrite assign_ok in H4. injection H4 as <- <-.
  apply bindM_ok in Hrun as ([] & [c5 g5] & H5 & Hrun).
  unfold set_range in H5.
  apply bindM_ok in H5 as ([] & [c5' g5'] & Hr & H5).
  apply liftR_ok in Hr as [Hr [= -> ->]].
  rewrite assign_ok in H5. injection H5 as <- <-.
  apply bindM_ok in Hrun as ([] & [c6 g6] & H6 & Hrun).
  unfold set_attrs in H6. rewrite assign_ok in H6. injection H6 as <- <-.
  assert (_expression c3 = e1 /\ _params c3 = p /\ _points_x c3 = _points_x blank)
    as (He & Hp & Hpx).
  { unfold set_inv_expression in H3. destruct inv_expression as [inv|].
    - apply bindM_ok in H3 as (e3 & [c3' g3'] & Hm & Ha).
      apply module_call_state in Hm as [-> Hm].
      rewrite assign_ok in Ha. injection Ha as <- <-. auto.
    - rewrite assign_ok in H3. injection H3 as <- <-. auto. }
  apply validate_domain_range_ok in Hd as Hd'.
  destruct Hd' as (d0 & d1 & ? & ? & -> & _ & _ & _).
  apply validate_domain_range_ok in Hr as Hr'.
  destruct Hr' as (? & ? & r0 & r1 & _ & -> & _ & _).
  unfold set_points in Hrun.
  apply bindM_ok in Hrun as ([] & [c7 g7] & H7 & Hrun).
  rewrite assign_ok in H7. injection H7 as <- <-.
  apply bindM_ok in Hrun as ([] & [c8 g8] & H8 & Hrun).
  rewrite assign_ok in H8. injection H8 as <- <-.
  rewrite add_points_steps in Hrun. cbn in Hrun. injection Hrun as <- <-.
  exists p, e2, g1, g2. cbn. rewrite He, Hp. auto 12.
Qed.

(** C8 (amended).  A property setter that raises (expression, params,
    inv_expression, domain, range) leaves the object as it was, and so does
    a [fit] that raises, whatever raised inside it, and an [add_points] that
    raises on a store that keeps its promise; [__init__] returns an object
    only when every one of its validations has passed.  Nothing is said
    about [set_points], which empties the store before it checks the new
    points. *)
Theorem failed_mutation_keeps_object (c : Calibration) (g : seed) :
  (forall expression e c' g',
     set_expression expression (c, g) = (Raise e, (c', g')) -> c' = c) /\
  (forall p e c' g',
     set_params p (c, g) = (Raise e, (c', g')) -> c' = c) /\
  (forall inv e c' g',
     set_inv_expression inv (c, g) = (Raise e, (c', g')) -> c' = c) /\
  (forall domain e c' g',
     set_domain domain (c, g) = (Raise e, (c', g')) -> c' = c) /\
  (forall rng e c' g',
     set_range rng (c, g) = (Raise e, (c', g')) -> c' = c) /\
  (forall e c' g',
     fit (c, g) = (Raise e, (c', g')) -> c' = c) /\
  (points_ok c ->
   forall px py e c' g',
     add_points px py (c, g) = (Raise e, (c', g')) -> c' = c) /\
  (forall expression params inv domain rng attrs c0 g',
     __init__ expression params inv domain rng attrs g = (Ok c0, g') ->
     exists p e g1 g2,
       params = A1D p /\
       _validate_expression expression None "x" DEFAULT_DOMAIN DEFAULT_RANGE g
         = (Ok (_expression c0), g1) /\
       _validate_expression (_expression c0) (Some p) "x" DEFAULT_DOMAIN DEFAULT_RANGE g1
         = (Ok e, g2) /\
       _params c0 = p /\
       _validate_domain_range domain (A1D [0; 1]) = Ok tt /\
       _validate_domain_range (A1D [0; 1]) rng = Ok tt /\
       _domain c0 = domain /\ _range c0 = rng /\ _attrs c0 = attrs /\
       _points_x c0 = [] /\ _points_y c0 = []).
Proof.
  repeat split.
  - intros. eapply set_expression_raise; eauto.
  - intros. eapply set_params_raise; eauto.
  - intros. eapply set_inv_expression_raise; eauto.
  - intros. eapply set_domain_raise; eauto.
  - intros. eapply set_range_raise; eauto.
  - intros. eapply fit_raise; eauto.
  - intros Hok px py e c' g' Hrun.
    now apply (add_points_preserves _ _ _ _ _ _ _ Hok) in Hrun as [_ ->].
  - intros. eapply init_ok_inv; eauto.
Qed.

End MutationProperties.

(** ** Fitting *)

Section FittingProperties.
Context `{Externals}.

Lemma fit_expression_ok_inv (expression : string) (px py : option array_like)
    (params0 : option array_like) (domain rng : array_like) (g g' : seed)
    (p : list Q) :
  _fit_expression expression px py params0 domain rng g = (Ok p, g') ->
  exists e1 g1 xs ys idx,
    _validate_expression expression None "x" domain rng g = (Ok e1, g1) /\
    _check_points px py domain rng = Ok (xs, ys) /\
    _param_indices e1 = Ok idx /\
    (length idx <= length xs)%nat.
Proof.
  unfold _fit_expression. intros Hrun.
  apply bindM_ok in Hrun as (e1 & g1 & Hv1 & Hrun).
  apply bindM_ok in Hrun as ([xs ys] & g2 & Hc & Hrun).
  apply liftR_ok in Hc as [Hc ->].
  apply bindM_ok in Hrun as (idx & g2 & Hi & Hrun).
  apply liftR_ok in Hi as [Hi ->].
  cbn [fst snd] in Hrun.
  destruct (negb _) in Hrun; [discriminate|].
  apply bindM_ok in Hrun as (e2 & g2 & Hv2 & Hrun).
  destruct (length xs <? length idx)%nat eqn:El; [discriminate|].
  apply Nat.ltb_ge in El.
  exists e1, g1, xs, ys, idx. auto.
Qed.


End FittingProperties.


(** ** Reading *)

Section ReadingProperties.
Context `{Externals}.

Lemma add_points_frame (px py : option array_like) (c c' : Calibration)
    (g g' : seed) (r : result unit) :
  add_points px py (c, g) = (r, (c', g')) ->
  _expression c' = _expression c /\ _params c' = _params c /\
  _inv_expression c' = _inv_expression c /\ _domain c' = _domain c /\
  _range c' = _range c /\ _attrs c' = _attrs c.
Proof.
  rewrite add_points_steps.
  destruct (_check_points px py (_domain c) (_range c)) as [[nx ny]|e].
  - cbn zeta.
    destruct (_check_points (Some (A1D (_points_x c ++ nx))) (Some (A1D (_points_y c ++ ny)))
                (_domain c) (_range c)) as [[sx sy]|e];
      intros [= <- <- <-]; auto 6.
  - intros [= <- <- <-]. auto 6.
Qed.

Lemma set_points_frame (px py : option array_like) (c c' : Calibration)
    (g g' : seed) (r : result unit) :
  set_points px py (c, g) = (r, (c', g')) ->
  _expression c' = _expression c /\ _params c' = _params c /\
  _inv_expression c' = _inv_expression c /\ _domain c' = _domain c /\
  _range c' = _range c /\ _attrs c' = _attrs c.
Proof.
  unfold set_points. rewrite (bindM_step _ _ _ _ _ (assign_ok _ _ _)).
  rewrite (bindM_step _ _ _ _ _ (assign_ok _ _ _)).
  intros Hrun. now apply add_points_frame in Hrun.
Qed.

(** C9.  What [read] does with the stored range: whenever it returns a
    Calibration from a source whose metadata has no key "rng", that
    Calibration has the default range, and the stored range sits in its
    attrs under the key "range". *)
Theorem read_ignores_persisted_range (dsets attrs : gmap string h5val)
    (g g' : seed) (c : Calibration) :
  attrs !! "rng" = None ->
  read dsets attrs g = (Ok c, g') ->
  _range c = DEFAULT_RANGE /\
  exists v, dsets !! "range" = Some v /\ _attrs c !! "range" = Some v.
Proof.
  intros Hrng. unfold read.
  destruct (dsets !! "params") as [ds_params|]; [|discriminate].
  destruct (dsets !! "expression") as [ds_expression|]; [|discriminate].
  destruct (dsets !! "domain") as [ds_domain|]; [|discriminate].
  destruct (dsets !! "range") as [ds_range|]; [|discriminate].
  destruct (negb _); [discriminate|].
  intros Hrun.
  apply bindM_ok in Hrun as (expr & g1 & _ & Hrun).
  apply bindM_ok in Hrun as (inv_expr & g2 & _ & Hrun).
  destruct (existsb _ clashing_keywords); [discriminate|].
  rewrite lookup_insert_ne in Hrun by discriminate. rewrite Hrng in Hrun.
  apply bindM_ok in Hrun as (rng & g3 & Hr & Hrun).
  apply retM_ok in Hr as [-> ->].
  apply bindM_ok in Hrun as (params & g3 & _ & Hrun).
  apply bindM_ok in Hrun as (domain & g4 & _ & Hrun).
  apply bindM_ok in Hrun as (cal & g5 & Hinit & Hrun).
  apply init_ok_inv in Hinit
    as (p & e & ? & ? & _ & _ & _ & _ & _ & _ & _ & Hcr & Hca & _).
  assert (_range c = _range cal /\ _attrs c = _attrs cal) as [-> ->].
  { destruct (dsets !! "points_x") as [px|]; [destruct (dsets !! "points_y") as [py|]|].
    - apply bindM_ok in Hrun as (px' & g6 & _ & Hrun).
      apply bindM_ok in Hrun as (py' & g7 & _ & Hrun).
      destruct (set_points (Some px') (Some py') (cal, g7)) as [[[]|e'] [cal' g8]] eqn:Hs;
        [|discriminate].
      injection Hrun as <- <-.
      apply set_points_frame in Hs. tauto.
    - apply retM_ok in Hrun as [-> _]. auto.
    - apply retM_ok in Hrun as [-> _]. auto. }
  split; [assumption|].
  exists ds_range. split; [reflexivity|].
  rewrite Hca, lookup_delete_ne by discriminate. apply lookup_insert_eq.
Qed.

(** A source without one of the four required datasets is refused. *)
Lemma read_requires_datasets (dsets attrs : gmap string h5val) (g : seed) (key : string) :
  key ∈ ["params"; "expression"; "domain"; "range"] ->
  dsets !! key = None ->
  exists k, read dsets attrs g = (Raise (CalibrationError (ExpectedDataset k)), g).
Proof.
  intros Hkey Hnone. unfold read.
  destruct (dsets !! "params") eqn:E1; [|eauto].
  destruct (dsets !! "expression") eqn:E2; [|eauto].
  destruct (dsets !! "domain") eqn:E3; [|eauto].
  destruct (dsets !! "range") eqn:E4; [|eauto].
  exfalso. repeat (apply elem_of_cons in Hkey as [-> | Hkey]; [congruence|]).
  now apply elem_of_nil in Hkey.
Qed.

(** A source with a dataset outside the known names is refused. *)
Lemma read_refuses_unknown_dataset (dsets attrs : gmap string h5val) (g : seed)
    (key : string) :
  is_Some (dsets !! key) ->
  key ∉ known_datasets ->
  exists e, read dsets attrs g = (Raise (CalibrationError e), g).
Proof.
  intros Hkey Hunknown. unfold read.
  destruct (dsets !! "params") eqn:E1; [|eauto].
  destruct (dsets !! "expression") eqn:E2; [|eauto].
  destruct (dsets !! "domain") eqn:E3; [|eauto].
  destruct (dsets !! "range") eqn:E4; [|eauto].
  rewrite bool_decide_eq_false_2; [cbn [negb]; eauto|].
  apply elem_of_dom in Hkey. set_solver.
Qed.

End ReadingProperties.

(** * Further properties *)

(** ** The guard, the setters of the bounds *)

Section GuardProperties.
Context `{Externals}.

(** X1.  For bounds whose numbers numpy holds in 64 bits, the guard accepts
    exactly two flat pairs, each strictly ascending.  What it raises is a
    CalibrationError, about the domain before the range and about the shapes
    before the order, or the ValueError of [np.asarray] for a nested sequence
    with rows of different lengths.  The setter of the domain and the setter
    of the range each accept exactly the ascending pairs, whatever the other
    bound of the object is, and store the pair as given. *)
Theorem domain_range_guard (domain rng : array_like) :
  fits_64_bits domain -> fits_64_bits rng ->
  (_validate_domain_range domain rng = Ok tt <->
     exists d0 d1 r0 r1,
       domain = A1D [d0; d1] /\ rng = A1D [r0; r1] /\ d0 < d1 /\ r0 < r1) /\
  (forall e, _validate_domain_range domain rng = Raise e ->
     (e = ValueError /\ ~ rectangular domain) \/
     (e = CalibrationError DomainNotLength2 /\ rectangular domain /\
        forall d0 d1, domain <> A1D [d0; d1]) \/
     (e = ValueError /\ (exists d0 d1, domain = A1D [d0; d1]) /\ ~ rectangular rng) \/
     (e = CalibrationError RangeNotLength2 /\
        (exists d0 d1, domain = A1D [d0; d1]) /\ rectangular rng /\
        forall r0 r1, rng <> A1D [r0; r1]) \/
     (e = CalibrationError DomainNotAscending /\
        exists d0 d1 r0 r1, domain = A1D [d0; d1] /\ rng = A1D [r0; r1] /\ d1 <= d0) \/
     (e = CalibrationError RangeNotAscending /\
        exists d0 d1 r0 r1,
          domain = A1D [d0; d1] /\ rng = A1D [r0; r1] /\ d0 < d1 /\ r1 <= r0)) /\
  (forall c g,
     (exists c' g', set_domain domain (c, g) = (Ok tt, (c', g'))) <->
     exists d0 d1, domain = A1D [d0; d1] /\ d0 < d1) /\
  (forall c g c' g',
     set_domain domain (c, g) = (Ok tt, (c', g')) ->
     c' = with_domain domain c /\ g' = g) /\
  (forall c g,
     (exists c' g', set_range rng (c, g) = (Ok tt, (c', g'))) <->
     exists r0 r1, rng = A1D [r0; r1] /\ r0 < r1) /\
  (forall c g c' g',
     set_range rng (c, g) = (Ok tt, (c', g')) ->
     c' = with_range rng c /\ g' = g).
Proof.
  intros _ _.
  split; [apply validate_domain_range_ok|].
  split.
  { intros e. unfold _validate_domain_range, rectangular.
    destruct domain as [|[|d0 [|d1 [|]]]|rows]; simpl;
      try (intros [= <-]; right; left; split; [reflexivity|];
           split; [exact I|]; intros; discriminate).
    2:{ destruct (ragged rows) eqn:Er; intros [= <-].
        - left. split; [reflexivity|]. discriminate.
        - right. left. split; [reflexivity|]. split; [reflexivity|].
          intros; discriminate. }
    destruct rng as [|[|r0 [|r1 [|]]]|rows]; simpl;
      try (intros [= <-]; right; right; right; left; split; [reflexivity|];
           split; [eauto|]; split; [exact I|]; intros; discriminate).
    2:{ destruct (ragged rows) eqn:Er; intros [= <-].
        - right. right. left. split; [reflexivity|]. split; [eauto|]. discriminate.
        - right. right. right. left. split; [reflexivity|]. split; [eauto|].
          split; [reflexivity|]. intros; discriminate. }
    destruct (Qlt_bool d0 d1) eqn:Ed; simpl;
      [destruct (Qlt_bool r0 r1) eqn:Er; simpl; [discriminate|]|].
    { intros [= <-]. do 5 right. split; [reflexivity|].
      exists d0, d1, r0, r1. apply Qlt_bool_iff in Ed.
      unfold Qlt_bool in Er. apply negb_false_iff, Qle_bool_iff in Er. auto. }
    intros [= <-]. do 4 right. left. split; [reflexivity|].
    exists d0, d1, r0, r1.
    unfold Qlt_bool in Ed. apply negb_false_iff, Qle_bool_iff in Ed. auto. }
  assert (forall a, _validate_domain_range a (A1D [0; 1]) = Ok tt <->
                    exists a0 a1, a = A1D [a0; a1] /\ a0 < a1) as Hdom.
  { intros a. rewrite validate_domain_range_ok. split.
    - intros (a0 & a1 & ? & ? & -> & _ & Ha & _). eauto.
    - intros (a0 & a1 & -> & Ha). exists a0, a1, 0, 1.
      split; [reflexivity|]. split; [reflexivity|]. split; [exact Ha|reflexivity]. }
  assert (forall a, _validate_domain_range (A1D [0; 1]) a = Ok tt <->
                    exists a0 a1, a = A1D [a0; a1] /\ a0 < a1) as Hrng.
  { intros a. rewrite validate_domain_range_ok. split.
    - intros (? & ? & a0 & a1 & _ & -> & _ & Ha). eauto.
    - intros (a0 & a1 & -> & Ha). exists 0, 1, a0, a1.
      split; [reflexivity|]. split; [reflexivity|]. split; [reflexivity|exact Ha]. }
  split; [|split; [|split]].
  - intros c g. rewrite <- Hdom. unfold set_domain, bindM, liftR. split.
    + intros (c' & g' & Hrun).
      destruct (_validate_domain_range domain (A1D [0; 1])) as [[]|]; [reflexivity|discriminate].
    + intros ->. eexists _, _. reflexivity.
  - intros c g c' g'. unfold set_domain, bindM, liftR.
    destruct (_validate_domain_range domain (A1D [0; 1])) as [[]|]; [|discriminate].
    rewrite assign_ok. now intros [= <- <-].
  - intros c g. rewrite <- Hrng. unfold set_range, bindM, liftR. split.
    + intros (c' & g' & Hrun).
      destruct (_validate_domain_range (A1D [0; 1]) rng) as [[]|]; [reflexivity|discriminate].
    + intros ->. eexists _, _. reflexivity.
  - intros c g c' g'. unfold set_range, bindM, liftR.
    destruct (_validate_domain_range (A1D [0; 1]) rng) as [[]|]; [|discriminate].
    rewrite assign_ok. now intros [= <- <-].
Qed.

End GuardProperties.

(** ** Validation with and without parameters *)

Section ValidationMore.
Context `{Externals}.

Lemma validate_expression_seed_None (expression ind_var : string)
    (domain rng : array_like) (g g' : seed) (r : result string) :
  _validate_expression expression None ind_var domain rng g = (r, g') -> g' = g.
Proof.
  unfold _validate_expression, bindM, liftR, retM, raiseM.
  destruct (_validate_domain_range domain rng) as [[]|]; [|now intros [= _ <-]].
  destruct (black_format_str expression) as [f|]; [|now intros [= _ <-]].
  destruct (negb (bool_decide (ind_var ∈ ["x"; "y"]))); [now intros [= _ <-]|].
  destruct (negb (bool_decide (ind_var ∈ ast_names f))); [now intros [= _ <-]|].
  destruct (_param_indices f) as [idx|[]]; try (now intros [= _ <-]).
  destruct (0 <? length idx)%nat.
  - destruct (negb (hd 0%Z idx =? 0)%Z); [now intros [= _ <-]|].
    destruct (negb (forallb _ (np_diff idx))); now intros [= _ <-].
  - now intros [= _ <-].
Qed.

(** X2.  A parameter vector can only make validation stricter: whenever an
    expression is accepted together with parameters, it is accepted without
    them with the same canonical text; and validation without parameters
    draws no random number, whatever its outcome. *)
Theorem validate_expression_params_only_restrict (expression ind_var : string)
    (domain rng : array_like) (g : seed) :
  (forall p e g',
     _validate_expression expression (Some p) ind_var domain rng g = (Ok e, g') ->
     _validate_expression expression None ind_var domain rng g = (Ok e, g)) /\
  (forall r g',
     _validate_expression expression None ind_var domain rng g = (r, g') -> g' = g).
Proof.
  split; [|intros r g'; apply validate_expression_seed_None].
  intros p e g' Hok.
  apply validate_expression_ok_inv in Hok
    as (f & idx & Hdr & Hb & Hi & Hn & Hp & Hc & _ & ->).
  rewrite Hc in Hp.
  exact (validate_expression_without_params _ _ _ _ _ g _ Hdr Hb Hi Hn Hp).
Qed.

End ValidationMore.

(** ** What [inverse] returns *)

Section InverseMore.
Context `{Externals}.

(** X3.  Whatever [inverse] returns, by either path, lies within the domain
    element by element, and it returns only for a [y] that lies within the
    range element by element. *)
Theorem inverse_within_bounds (c : Calibration) (y x : ndarray) (x0 : option ndarray) :
  inverse c y x0 = Ok x ->
  Forall (within (item (_domain c) 0) (item (_domain c) 1)) (elements x) /\
  Forall (within (item (_range c) 0) (item (_range c) 1)) (elements y).
Proof.
  intros Hinv. split.
  - apply inverse_ok_inv in Hinv as (_ & fx & Hf & _).
    unfold __call__ in Hf. now apply eval_expression_ok_inv in Hf as (_ & Hx & _).
  - unfold inverse in Hinv.
    destruct (np_any _ y) eqn:Ey; [discriminate|].
    unfold np_any in Ey. now apply outside_false in Ey.
Qed.

End InverseMore.

(** ** More about the point store *)

Lemma sort_by_key_sorted_id (l : list (Q * nat)) :
  StronglySorted key_le l -> sort_by_key l = l.
Proof.
  induction 1 as [|a l Hs IH Hall]; simpl; [reflexivity|].
  rewrite IH. destruct l as [|b l]; simpl; [reflexivity|].
  inversion Hall as [|? ? Hab _]; subst. unfold key_le in Hab.
  apply Qle_bool_iff in Hab. now rewrite Hab.
Qed.

Lemma combine_seq_sorted (xs : list Q) (k : nat) :
  StronglySorted Qle xs -> StronglySorted key_le (combine xs (seq k (length xs))).
Proof.
  intros Hs. revert k. induction Hs as [|x xs Hs IH Hall]; intros k; simpl; constructor.
  - apply IH.
  - apply Forall_forall. intros [y j] Hin. apply list_elem_of_In in Hin.
    apply in_combine_l in Hin. unfold key_le. simpl.
    rewrite Forall_forall in Hall. apply Hall. now apply list_elem_of_In.
Qed.

Lemma combine_seq_snd (xs : list Q) (k : nat) :
  map snd (combine xs (seq k (length xs))) = seq k (length xs).
Proof.
  revert k. induction xs as [|x xs IH]; intros k; simpl; [reflexivity|].
  now rewrite IH.
Qed.

Lemma take_indices_all (l : list Q) (n : nat) :
  n = length l -> take_indices l (seq 0 n) = l.
Proof.
  intros ->. unfold take_indices.
  assert (forall pre, map (fun j => nth j (pre ++ l) 0) (seq (length pre) (length l)) = l)
    as Hgen.
  { induction l as [|x l IH]; intros pre; simpl; [reflexivity|]. f_equal.
    - rewrite app_nth2 by lia. now rewrite Nat.sub_diag.
    - specialize (IH (pre ++ [x])).
      rewrite length_app, Nat.add_1_r, <- app_assoc in IH. exact IH. }
  exact (Hgen []).
Qed.

Lemma StronglySorted_Qlt_Qle (xs : list Q) :
  StronglySorted Qlt xs -> StronglySorted Qle xs.
Proof.
  induction 1 as [|x xs Hs IH Hall]; constructor; [assumption|].
  eapply Forall_impl; [exact Hall|]. intros y Hy. now apply Qlt_le_weak.
Qed.

Lemma argsort_sorted (xs : list Q) :
  StronglySorted Qle xs -> np_argsort xs = seq 0 (length xs).
Proof.
  intros Hs. unfold np_argsort.
  rewrite (sort_by_key_sorted_id _ (combine_seq_sorted xs 0 Hs)).
  apply combine_seq_snd.
Qed.

Section PointStoreMore.
Context `{Externals}.

(** X4.  Points that came out of the check pass it again unchanged, when no two
    of their x are equal. *)
Theorem check_points_idempotent (px py : option array_like) (domain rng : array_like)
    (xs ys : list Q) :
  _check_points px py domain rng = Ok (xs, ys) ->
  StronglySorted Qlt xs ->
  _check_points (Some (A1D xs)) (Some (A1D ys)) domain rng = Ok (xs, ys).
Proof.
  intros Hok Hstrict.
  apply check_points_ok in Hok
    as (xs0 & ys0 & _ & _ & _ & _ & Hlen & _ & Hfx & Hfy & Hd0 & Hd1 & Hr0 & Hr1).
  rewrite (check_points_pass (Some (A1D xs)) (Some (A1D ys)) domain rng xs ys
             _ _ _ _ eq_refl eq_refl Hlen Hd0 Hd1 Hr0 Hr1 Hfx Hfy).
  rewrite (argsort_sorted xs (StronglySorted_Qlt_Qle xs Hstrict)).
  rewrite (take_indices_all xs _ eq_refl), (take_indices_all ys _ Hlen).
  reflexivity.
Qed.

Lemma add_points_succeeds (px py : option array_like) (c : Calibration) (g : seed)
    (nx ny : list Q) :
  points_ok c ->
  _check_points px py (_domain c) (_range c) = Ok (nx, ny) ->
  exists c', add_points px py (c, g) = (Ok tt, (c', g)).
Proof.
  intros Hok E1.
  destruct (add_points px py (c, g)) as [[[]|e] [c' g']] eqn:Hrun.
  - rewrite add_points_steps, E1 in Hrun. cbn zeta in Hrun.
    destruct (_check_points (Some (A1D (_points_x c ++ nx))) (Some (A1D (_points_y c ++ ny)))
                (_domain c) (_range c)) as [[sx sy]|e]; [|discriminate].
    injection Hrun as <- <-. eauto.
  - exfalso.
    destruct (add_points_preserves _ _ _ _ _ _ _ Hok Hrun) as [_ Hsame].
    rewrite Hsame in Hrun by discriminate.
    rewrite add_points_steps, E1 in Hrun. cbn zeta in Hrun.
    destruct (_check_points (Some (A1D (_points_x c ++ nx))) (Some (A1D (_points_y c ++ ny)))
                (_domain c) (_range c)) as [[sx sy]|e'] eqn:E2; [discriminate|].
    apply check_points_ok in E1
      as (xs & ys & _ & _ & _ & _ & Hlen' & _ & Hfx & Hfy & Hd0 & Hd1 & Hr0 & Hr1).
    destruct Hok as (Hl & _ & Hox & Hoy).
    assert (length (_points_x c ++ nx) = length (_points_y c ++ ny)) as Hla
      by (rewrite !length_app; lia).
    assert (Forall (within (item (_domain c) 0) (item (_domain c) 1))
              (_points_x c ++ nx)) as Hax by (apply Forall_app; auto).
    assert (Forall (within (item (_range c) 0) (item (_range c) 1))
              (_points_y c ++ ny)) as Hay by (apply Forall_app; auto).
    rewrite (check_points_pass (Some (A1D (_points_x c ++ nx)))
               (Some (A1D (_points_y c ++ ny))) _ _ _ _ _ _ _ _
               eq_refl eq_refl Hla Hd0 Hd1 Hr0 Hr1 Hax Hay) in E2.
    discriminate.
Qed.

Lemma add_points_ok_check (px py : option array_like) (c c' : Calibration) (g g' : seed) :
  add_points px py (c, g) = (Ok tt, (c', g')) ->
  exists nx ny, _check_points px py (_domain c) (_range c) = Ok (nx, ny).
Proof.
  rewrite add_points_steps.
  destruct (_check_points px py (_domain c) (_range c)) as [[nx ny]|e];
    [eauto | discriminate].
Qed.

(** X5.  On a consistent store, adding two batches of points succeeds in one
    order exactly when it succeeds in the other, and the two stores hold the
    same pairs. *)
Theorem add_points_either_order (c : Calibration) (g : seed)
    (px1 py1 px2 py2 : option array_like) :
  points_ok c ->
  ((exists c12, (run* add_points px1 py1 in add_points px2 py2) (c, g)
                  = (Ok tt, (c12, g))) <->
   (exists c21, (run* add_points px2 py2 in add_points px1 py1) (c, g)
                  = (Ok tt, (c21, g)))) /\
  (forall c12 c21 g12 g21,
     (run* add_points px1 py1 in add_points px2 py2) (c, g) = (Ok tt, (c12, g12)) ->
     (run* add_points px2 py2 in add_points px1 py1) (c, g) = (Ok tt, (c21, g21)) ->
     Permutation (pairs c12) (pairs c21) /\ points_ok c12 /\ points_ok c21).
Proof.
  intros Hok.
  assert (forall pa pb qa qb,
            (exists cab, (run* add_points pa pb in add_points qa qb) (c, g)
                           = (Ok tt, (cab, g))) <->
            (exists nx ny, _check_points pa pb (_domain c) (_range c) = Ok (nx, ny)) /\
            (exists nx ny, _check_points qa qb (_domain c) (_range c) = Ok (nx, ny)))
    as Hboth.
  { intros pa pb qa qb. split.
    - intros (cab & Hrun).
      apply bindM_ok in Hrun as ([] & [c1 g1] & H1 & H2).
      split; [now apply add_points_ok_check in H1|].
      apply add_points_ok in H1 as (_ & Hd & Hr & _).
      apply add_points_ok_check in H2. now rewrite Hd, Hr in H2.
    - intros [(nx & ny & Ha) (mx & my & Hb)].
      destruct (add_points_succeeds pa pb c g nx ny Hok Ha) as [c1 H1].
      pose proof (add_points_ok _ _ _ _ _ _ H1) as (Hok1 & Hd & Hr & _).
      rewrite <- Hd, <- Hr in Hb.
      destruct (add_points_succeeds qa qb c1 g mx my Hok1 Hb) as [c2 H2].
      exists c2. now rewrite (bindM_step _ _ _ _ _ H1). }
  split.
  - rewrite !Hboth. tauto.
  - intros c12 c21 g12 g21 H12 H21.
    apply bindM_ok in H12 as ([] & [c1 g1] & Ha1 & Ha2).
    apply bindM_ok in H21 as ([] & [c2 g2] & Hb1 & Hb2).
    apply add_points_ok in Ha1 as (_ & _ & _ & xs1 & ys1 & Hx1 & Hy1 & _ & _ & Hp1).
    apply add_points_ok in Ha2 as (Hok12 & _ & _ & xs2 & ys2 & Hx2 & Hy2 & _ & _ & Hp2).
    apply add_points_ok in Hb1 as (_ & _ & _ & xs2' & ys2' & Hx2' & Hy2' & _ & _ & Hq1).
    apply add_points_ok in Hb2 as (Hok21 & _ & _ & xs1' & ys1' & Hx1' & Hy1' & _ & _ & Hq2).
    rewrite Hx1 in Hx1'. rewrite Hy1 in Hy1'. rewrite Hx2 in Hx2'. rewrite Hy2 in Hy2'.
    injection Hx1' as <-. injection Hy1' as <-. injection Hx2' as <-. injection Hy2' as <-.
    split; [|auto].
    rewrite Hp2, Hp1, Hq2, Hq1, <- !app_assoc.
    apply Permutation_app_head, Permutation_app_comm.
Qed.

(** What [set_points] leaves behind, whatever its outcome. *)
Lemma set_points_outcome (c : Calibration) (g : seed)
    (px py : option array_like) (r : result unit) (c' : Calibration) (g' : seed) :
  set_points px py (c, g) = (r, (c', g')) ->
  g' = g /\ points_ok c' /\
  (r = Ok tt ->
     exists xs ys, np_atleast_1d px = Some xs /\ np_atleast_1d py = Some ys /\
       Permutation (pairs c') (combine xs ys)) /\
  (r <> Ok tt -> _points_x c' = [] /\ _points_y c' = []) /\
  _expression c' = _expression c /\ _params c' = _params c /\
  _inv_expression c' = _inv_expression c /\ _domain c' = _domain c /\
  _range c' = _range c /\ _attrs c' = _attrs c.
Proof.
  intros Hrun. pose proof (set_points_frame _ _ _ _ _ _ _ Hrun) as Hframe.
  unfold set_points in Hrun.
  rewrite (bindM_step _ _ _ _ _ (assign_ok _ _ _)) in Hrun.
  rewrite (bindM_step _ _ _ _ _ (assign_ok _ _ _)) in Hrun.
  set (c0 := with_points_y [] (with_points_ndarray false (with_points_x [] c))) in Hrun.
  assert (points_ok c0) as Hok0.
  { unfold points_ok, c0. simpl. repeat constructor. }
  destruct (add_points_preserves _ _ _ _ _ _ _ Hok0 Hrun) as [Hok' Hsame].
  assert (g' = g) as ->.
  { rewrite add_points_steps in Hrun.
    destruct (_check_points px py (_domain c0) (_range c0)) as [[nx ny]|e];
      [|now injection Hrun].
    cbn zeta in Hrun.
    destruct (_check_points (Some (A1D (_points_x c0 ++ nx))) (Some (A1D (_points_y c0 ++ ny)))
                (_domain c0) (_range c0)) as [[sx sy]|e]; now injection Hrun. }
  split; [reflexivity|]. split; [assumption|]. split; [|split; [|exact Hframe]].
  - intros ->. apply add_points_ok in Hrun as (_ & _ & _ & xs & ys & Hx & Hy & _ & _ & Hp).
    exists xs, ys. auto.
  - intros Hne. rewrite (Hsame Hne). auto.
Qed.

(** A [set_points] that raises leaves the points as Python lists. *)
Lemma set_points_raise_lists (c c' : Calibration) (g g' : seed)
    (px py : option array_like) (e : exn) :
  set_points px py (c, g) = (Raise e, (c', g')) -> _points_ndarray c' = false.
Proof.
  unfold set_points.
  rewrite (bindM_step _ _ _ _ _ (assign_ok _ _ _)).
  rewrite (bindM_step _ _ _ _ _ (assign_ok _ _ _)).
  set (c0 := with_points_y [] (with_points_ndarray false (with_points_x [] c))).
  intros Hrun.
  assert (points_ok c0) as Hok0.
  { unfold points_ok, c0. simpl. repeat constructor. }
  destruct (add_points_preserves _ _ _ _ _ _ _ Hok0 Hrun) as [_ Hsame].
  rewrite Hsame by discriminate. reflexivity.
Qed.

(** X6.  [set_points] leaves a consistent store whatever its outcome: on
    success the store holds exactly the new pairs, sorted, whatever it held
    before; when it raises, the store is empty.  Nothing else of the object
    changes, and no random number is drawn. *)
Theorem set_points_replaces_store (c : Calibration) (g : seed)
    (px py : option array_like) (r : result unit) (c' : Calibration) (g' : seed) :
  set_points px py (c, g) = (r, (c', g')) ->
  g' = g /\ points_ok c' /\
  (r = Ok tt ->
     exists xs ys, np_atleast_1d px = Some xs /\ np_atleast_1d py = Some ys /\
       Permutation (pairs c') (combine xs ys)) /\
  (r <> Ok tt -> _points_x c' = [] /\ _points_y c' = []) /\
  _expression c' = _expression c /\ _params c' = _params c /\
  _inv_expression c' = _inv_expression c /\ _domain c' = _domain c /\
  _range c' = _range c /\ _attrs c' = _attrs c.
Proof. apply set_points_outcome. Qed.

End PointStoreMore.

(** ** Quality of a fit *)

Lemma square_nonneg (q : Q) : 0 <= square q.
Proof. unfold square. nra. Qed.

Lemma np_sum_nonneg (l : list Q) : Forall (fun q => 0 <= q) l -> 0 <= np_sum l.
Proof.
  induction 1 as [|q l Hq _ IH]; simpl; [apply Qle_refl|]. lra.
Qed.

Lemma np_sum_zero (l : list Q) : Forall (fun q => q == 0) l -> np_sum l == 0.
Proof.
  induction 1 as [|q l Hq _ IH]; simpl; [reflexivity|]. rewrite Hq, IH. reflexivity.
Qed.

Lemma np_sum_squares_nonneg (l : list Q) : 0 <= np_sum (map square l).
Proof.
  apply np_sum_nonneg. apply Forall_forall. intros q Hq.
  apply list_elem_of_In, in_map_iff in Hq as (r & <- & _). apply square_nonneg.
Qed.

Lemma np_sum_zero_iff (l : list Q) :
  Forall (fun q => 0 <= q) l -> (np_sum l == 0 <-> Forall (fun q => q == 0) l).
Proof.
  induction 1 as [|q l Hq Hl IH]; simpl.
  - split; [constructor | reflexivity].
  - pose proof (np_sum_nonneg l Hl) as Hs. rewrite Forall_cons, <- IH. split.
    + intros Hsum. split; lra.
    + intros [-> ->]. reflexivity.
Qed.

Lemma np_sub_same_length (a b : list Q) :
  length a = length b ->
  np_sub (Array a) (Array b)
    = Ok (Array (map (fun xy : Q * Q => fst xy - snd xy) (combine a b))).
Proof.
  intros Hlen. unfold np_sub.
  destruct a as [|x [|x' a]], b as [|y [|y' b]]; try discriminate; simpl;
    try reflexivity.
  simpl in Hlen. injection Hlen as Hlen. apply Nat.eqb_eq in Hlen as ->. reflexivity.
Qed.

Lemma compress_pairs (ys fs : list Q) :
  length ys = length fs ->
  combine (np_compress (map (Qlt_bool 0) ys) ys) (np_compress (map (Qlt_bool 0) ys) fs)
  = List.filter (fun yf => Qlt_bool 0 (fst yf)) (combine ys fs).
Proof.
  revert fs. induction ys as [|y ys IH]; intros [|f fs] Hlen; try discriminate;
    [reflexivity|].
  simpl in Hlen. injection Hlen as Hlen. simpl.
  destruct (Qlt_bool 0 y); simpl; now rewrite IH.
Qed.

Lemma sum64_finite (l : list (Q * Q)) :
  Forall (fun yf => 0 < fst yf) l ->
  np_sum64 (map (fun yf => np_true_divide (square (fst yf - snd yf)) (fst yf)) l)
  = Finite (np_sum (map (fun yf => square (fst yf - snd yf) / fst yf) l)).
Proof.
  induction 1 as [|[y f] l Hy _ IH]; [reflexivity|].
  simpl in *. unfold np_sum64 in *. simpl. rewrite IH. unfold np_true_divide.
  destruct (Qeq_bool y 0) eqn:Ez; [|reflexivity].
  apply Qeq_bool_iff in Ez. lra.
Qed.

Section FitQuality.
Context `{Externals}.

(** What [fit_chi_squared] returns: the sum over the points with y > 0,
    which divides by no zero. *)
Lemma fit_chi_squared_ok_inv (c : Calibration) (v : float64) :
  fit_chi_squared c = Ok v ->
  _points_ndarray c = true /\
  exists fitted,
    fit_y c = Ok (Array fitted) /\ length (_points_y c) = length fitted /\
    v = Finite (np_sum (map (fun yf => square (fst yf - snd yf) / fst yf)
                  (List.filter (fun yf => Qlt_bool 0 (fst yf))
                     (combine (_points_y c) fitted)))).
Proof.
  unfold fit_chi_squared.
  destruct (_points_ndarray c); [|discriminate]. cbn [negb].
  destruct (fit_y c) as [[q|fitted]|e]; try discriminate. cbn [bindR].
  destruct (length (_points_y c) =? length fitted)%nat eqn:El; [|discriminate].
  apply Nat.eqb_eq in El. cbn [negb]. intros [= <-].
  split; [reflexivity|]. exists fitted. split; [reflexivity|]. split; [assumption|].
  rewrite (compress_pairs _ _ El). apply sum64_finite.
  apply Forall_forall. intros yf Hin. apply list_elem_of_In, filter_In in Hin as [_ Hpos].
  now apply Qlt_bool_iff.
Qed.

Lemma chi_squared_terms_nonneg (l : list (Q * Q)) :
  0 <= np_sum (map (fun yf => square (fst yf - snd yf) / fst yf)
                 (List.filter (fun yf => Qlt_bool 0 (fst yf)) l)).
Proof.
  apply np_sum_nonneg. apply Forall_forall. intros q Hq.
  apply list_elem_of_In, in_map_iff in Hq as ([y f] & <- & Hin).
  apply filter_In in Hin as [_ Hpos]. simpl in *. apply Qlt_bool_iff in Hpos.
  apply Qle_shift_div_l; [assumption|]. pose proof (square_nonneg (y - f)). lra.
Qed.

(** X7.  The chi-squared of a fit is the sum of (y - f)^2 / y over the
    points with y > 0 only: it is a number, never inf or nan from a y that
    is zero, and never negative; it is zero when every fitted value equals
    the observed one.  The property ends in an AttributeError while the
    points are Python lists, which is the state a [set_points] that raised
    leaves, and when the fitted values do not have the shape of the points
    (never in the ValueError its code spells out); what else it raises is
    what the evaluation raises. *)
Theorem fit_chi_squared_nonnegative (c : Calibration) :
  (forall v, fit_chi_squared c = Ok v ->
     exists fitted chi,
       fit_y c = Ok (Array fitted) /\ v = Finite chi /\ 0 <= chi /\
       chi = np_sum (map (fun yf => square (fst yf - snd yf) / fst yf)
               (List.filter (fun yf => Qlt_bool 0 (fst yf))
                  (combine (_points_y c) fitted)))) /\
  (forall fitted,
     _points_ndarray c = true ->
     fit_y c = Ok (Array fitted) -> Forall2 Qeq fitted (_points_y c) ->
     exists chi, fit_chi_squared c = Ok (Finite chi) /\ chi == 0) /\
  (forall e, fit_chi_squared c = Raise e ->
     e = AttributeError \/ (exists m, e = CalibrationError m) \/
     (e = ValueError /\ ~ (rectangular (_domain c) /\ rectangular (_range c)))) /\
  (_points_ndarray c = false -> fit_chi_squared c = Raise AttributeError) /\
  (forall px py c0 g e g',
     set_points px py (c0, g) = (Raise e, (c, g')) ->
     fit_chi_squared c = Raise AttributeError).
Proof.
  split; [|split; [|split; [|split]]].
  - intros v Hv. apply fit_chi_squared_ok_inv in Hv as (_ & fitted & Hf & _ & ->).
    exists fitted. eexists. split; [assumption|]. split; [reflexivity|].
    split; [apply chi_squared_terms_nonneg | reflexivity].
  - intros fitted Harr Hf Hall. unfold fit_chi_squared. rewrite Harr, Hf. cbn [negb bindR].
    pose proof (eq_sym (Forall2_length _ _ _ Hall)) as Hlen.
    rewrite (proj2 (Nat.eqb_eq _ _) Hlen). cbn [negb].
    rewrite (compress_pairs _ _ Hlen), sum64_finite.
    + eexists. split; [reflexivity|].
      apply np_sum_zero. apply Forall_forall. intros q Hq.
      apply list_elem_of_In, in_map_iff in Hq as ([y f] & <- & Hin).
      apply filter_In in Hin as [Hin _]. simpl.
      assert (f == y) as Hfy.
      { clear -Hin Hall. revert Hin. induction Hall as [|f' y' fs ys Hh Ht IH]; simpl;
          [contradiction|].
        intros [[= <- <-] | Hin]; auto. }
      unfold square, Qdiv. rewrite Hfy. ring.
    + apply Forall_forall. intros yf Hin.
      apply list_elem_of_In, filter_In in Hin as [_ Hpos]. now apply Qlt_bool_iff.
  - intros e. unfold fit_chi_squared.
    destruct (_points_ndarray c); cbn [negb]; [|intros [= <-]; now left].
    destruct (fit_y c) as [[q|fitted]|e'] eqn:Ef; cbn [bindR].
    + intros [= <-]. now left.
    + destruct (negb _); [intros [= <-]; now left | discriminate].
    + intros [= <-]. right. unfold fit_y, __call__ in Ef.
      now apply eval_expression_raises in Ef.
  - intros Hlist. unfold fit_chi_squared. now rewrite Hlist.
  - intros px py c0 g e g' Hrun. unfold fit_chi_squared.
    apply set_points_raise_lists in Hrun. now rewrite Hrun.
Qed.

(** X8.  The coefficient of determination, when it is finite, is at most 1,
    and it is 1 when every fitted value equals the observed one; with
    fewer than two points it is never finite (nan or -inf: the total sum of
    squares is zero). *)
Theorem fit_R_squared_at_most_one (c : Calibration) :
  (forall r2, fit_R_squared c = Ok (Finite r2) -> r2 <= 1) /\
  (forall fitted r2,
     fit_y c = Ok (Array fitted) -> Forall2 Qeq fitted (_points_y c) ->
     fit_R_squared c = Ok (Finite r2) -> r2 == 1) /\
  (forall v, fit_R_squared c = Ok v ->
     (length (_points_y c) <= 1)%nat -> v = NonFinite).
Proof.
  unfold fit_R_squared.
  set (mean := np_mean (_points_y c)).
  set (ss_tot := np_sum (map (fun y => square (y - mean)) (_points_y c))).
  assert (Forall (fun q => 0 <= q) (map (fun y => square (y - mean)) (_points_y c)))
    as Hterms.
  { apply Forall_forall. intros q Hq.
    apply list_elem_of_In, in_map_iff in Hq as (y & <- & _). apply square_nonneg. }
  assert (0 <= ss_tot) as Htot by now apply np_sum_nonneg.
  split; [|split].
  - intros r2. destruct (fit_y c) as [fy|]; [|discriminate]. cbn [bindR].
    destruct (np_sub _ fy) as [res|]; [|discriminate]. cbn [bindR].
    destruct (Qeq_bool ss_tot 0) eqn:Ez; [discriminate|]. intros [= <-].
    apply Qeq_bool_neq in Ez.
    assert (0 < ss_tot) as Hpos.
    { apply Qle_lteq in Htot as [?|Heq]; [assumption|].
      exfalso. apply Ez. now symmetry. }
    pose proof (np_sum_squares_nonneg (elements res)) as Hres.
    assert (0 <= np_sum (map square (elements res)) / ss_tot) as Hq.
    { apply Qle_shift_div_l; [assumption|]. lra. }
    lra.
  - intros fitted r2 -> Hall. cbn [bindR].
    rewrite (np_sub_same_length _ _ (eq_sym (Forall2_length _ _ _ Hall))). cbn [bindR].
    destruct (Qeq_bool ss_tot 0); [discriminate|]. intros [= <-].
    assert (np_sum (map square (elements
              (Array (map (fun xy : Q * Q => fst xy - snd xy)
                        (combine (_points_y c) fitted))))) == 0) as ->.
    { apply np_sum_zero. simpl. clear -Hall.
      induction Hall as [|f y fs ys Hh Ht IH]; simpl; constructor; auto.
      unfold square. rewrite Hh. ring. }
    unfold Qdiv. ring.
  - intros v. destruct (fit_y c) as [fy|]; [|discriminate]. cbn [bindR].
    destruct (np_sub _ fy) as [res|]; [|discriminate]. cbn [bindR].
    intros [= <-] Hlen.
    assert (ss_tot == 0) as Hz.
    { unfold ss_tot, mean, np_mean. destruct (_points_y c) as [|y [|y' ys]].
      - reflexivity.
      - simpl. unfold square. field.
      - simpl in Hlen. lia. }
    apply Qeq_bool_iff in Hz. now rewrite Hz.
Qed.


End FitQuality.

(** ** Copying, writing and reading back *)

Section CopyWriteRead.
Context `{Externals}.

Lemma on_object_ok (m : Meth unit) (cal c' : Calibration) (g g' : seed) :
  on_object m cal g = (Ok c', g') -> m (cal, g) = (Ok tt, (c', g')).
Proof.
  unfold on_object. destruct (m (cal, g)) as [[[]|e] [c1 g1]]; [|discriminate].
  now intros [= <- <-].
Qed.

Lemma pairs_nil_points (c : Calibration) :
  points_ok c -> Permutation (pairs c) [] -> _points_x c = [] /\ _points_y c = [].
Proof.
  intros (Hlen & _) Hp. apply Permutation_length in Hp. unfold pairs in Hp.
  rewrite length_combine in Hp. simpl in Hp.
  destruct (_points_x c), (_points_y c); simpl in *; try discriminate; auto.
Qed.

(** X10.  A copy has the parameters, domain, range and attrs of the original, an
    expression and an inverse expression that passed validation again, and
    an empty point store, whatever points the original holds. *)
Theorem copy_drops_points (c c' : Calibration) (g g' : seed) :
  copy c g = (Ok c', g') ->
  _points_x c' = [] /\ _points_y c' = [] /\
  _params c' = _params c /\ _domain c' = _domain c /\ _range c' = _range c /\
  _attrs c' = _attrs c /\
  exists g1, _validate_expression (_expression c) None "x" DEFAULT_DOMAIN DEFAULT_RANGE g
               = (Ok (_expression c'), g1).
Proof.
  unfold copy. destruct (existsb _ _); [discriminate|]. intros Hrun.
  apply bindM_ok in Hrun as (cal & g1 & Hinit & Hset).
  apply on_object_ok in Hset.
  apply init_ok_inv in Hinit
    as (p & e & g2 & g3 & [= <-] & Hv & _ & Hp & _ & _ & Hd & Hr & Ha & Hpx & Hpy).
  rewrite Hpx, Hpy in Hset.
  apply set_points_outcome in Hset
    as (_ & Hok & Hperm & _ & He & Hp' & _ & Hd' & Hr' & Ha').
  destruct (Hperm eq_refl) as (xs & ys & [= <-] & [= <-] & Hnil).
  destruct (pairs_nil_points c' Hok Hnil) as [-> ->].
  rewrite He, Hp', Hd', Hr', Ha'. repeat (split; [auto; congruence|]).
  exists g2. exact Hv.
Qed.

Lemma write_lookup (c : Calibration) :
  let dsets := fst (write c) in
  dsets !! "params" = Some (HArr (_params c)) /\
  dsets !! "expression" = Some (HStr (_expression c)) /\
  dsets !! "domain" = Some (h5_of (_domain c)) /\
  dsets !! "range" = Some (h5_of (_range c)) /\
  dsets !! "points_x" = Some (HArr (_points_x c)) /\
  dsets !! "points_y" = Some (HArr (_points_y c)) /\
  dsets !! "inv_expression" = option_map HStr (_inv_expression c) /\
  dom dsets ∖ known_datasets = ∅.
Proof.
  unfold write. destruct (_inv_expression c) as [inv|]; cbn [fst option_map].
  - repeat split; reflexivity.
  - repeat split; reflexivity.
Qed.

(** What [read] makes of a source once its datasets are known. *)
Lemma read_ok_inv (dsets attrs : gmap string h5val) (g g' : seed) (c : Calibration) :
  read dsets attrs g = (Ok c, g') ->
  exists ds_params ds_domain ds_range params domain,
    dsets !! "params" = Some ds_params /\
    dsets !! "domain" = Some ds_domain /\
    dsets !! "range" = Some ds_range /\
    as_array_like ds_params = Ok (A1D params) /\
    as_array_like ds_domain = Ok domain /\
    _params c = params /\ _domain c = domain /\
    _attrs c = delete "rng" (<["range" := ds_range]> attrs) /\
    (forall px py, dsets !! "points_x" = Some px -> dsets !! "points_y" = Some py ->
       points_ok c /\
       exists xs ys, as_array_like px = Ok xs /\ as_array_like py = Ok ys /\
         exists lx ly, np_atleast_1d (Some xs) = Some lx /\
                       np_atleast_1d (Some ys) = Some ly /\
                       Permutation (pairs c) (combine lx ly)).
Proof.
  unfold read.
  destruct (dsets !! "params") as [ds_params|]; [|discriminate].
  destruct (dsets !! "expression") as [ds_expression|]; [|discriminate].
  destruct (dsets !! "domain") as [ds_domain|]; [|discriminate].
  destruct (dsets !! "range") as [ds_range|]; [|discriminate].
  destruct (negb _); [discriminate|].
  intros Hrun.
  apply bindM_ok in Hrun as (expr & g1 & _ & Hrun).
  apply bindM_ok in Hrun as (inv_expr & g2 & _ & Hrun).
  destruct (existsb _ clashing_keywords); [discriminate|].
  apply bindM_ok in Hrun as (rng & g3 & _ & Hrun).
  apply bindM_ok in Hrun as (params & g4 & Hp & Hrun).
  apply liftR_ok in Hp as [Hp ->].
  apply bindM_ok in Hrun as (domain & g5 & Hd & Hrun).
  apply liftR_ok in Hd as [Hd ->].
  apply bindM_ok in Hrun as (cal & g6 & Hinit & Hrun).
  apply init_ok_inv in Hinit
    as (p & e & ? & ? & -> & _ & _ & Hcp & _ & _ & Hcd & _ & Hca & Hpx & Hpy).
  exists ds_params, ds_domain, ds_range, p, domain.
  repeat (split; [reflexivity || assumption|]).
  destruct (dsets !! "points_x") as [px|]; [destruct (dsets !! "points_y") as [py|]|].
  - apply bindM_ok in Hrun as (xs & g7 & Hx & Hrun).
    apply liftR_ok in Hx as [Hx ->].
    apply bindM_ok in Hrun as (ys & g8 & Hy & Hrun).
    apply liftR_ok in Hy as [Hy ->].
    match type of Hrun with
    | context [set_points ?a ?b ?s] =>
        destruct (set_points a b s) as [[[]|e'] [cal' g9]] eqn:Hs; [|discriminate]
    end.
    injection Hrun as <- <-.
    apply set_points_outcome in Hs
      as (_ & Hok & Hperm & _ & _ & Hp' & _ & Hd' & _ & Ha').
    rewrite Hp', Hd', Ha'.
    split; [assumption|]. split; [assumption|]. split; [assumption|].
    intros px' py' [= <-] [= <-]. split; [assumption|].
    destruct (Hperm eq_refl) as (lx & ly & Hlx & Hly & Hpm).
    exists xs, ys. repeat (split; [assumption|]). exists lx, ly. auto.
  - apply retM_ok in Hrun as [-> _].
    split; [assumption|]. split; [assumption|]. split; [assumption|]. discriminate.
  - apply retM_ok in Hrun as [-> _].
    split; [assumption|]. split; [assumption|]. split; [assumption|]. discriminate.
Qed.

(** X11.  Reading back what [write] handed to the store, when that succeeds,
    gives an object with the same parameters and domain, the same points
    (the same pairs, sorted), and the attrs of the original with the stored
    range added under the key "range". *)
Theorem read_after_write (c c' : Calibration) (g g' : seed) :
  read (fst (write c)) (snd (write c)) g = (Ok c', g') ->
  _params c' = _params c /\
  _domain c' = A1D (np_flatten (_domain c)) /\
  Permutation (pairs c') (pairs c) /\ points_ok c' /\
  _attrs c' = delete "rng" (<["range" := h5_of (_range c)]> (_attrs c)).
Proof.
  intros Hrun.
  destruct (write_lookup c) as (Hp & _ & Hd & Hr & Hpx & Hpy & _ & _).
  cbn zeta in *.
  apply read_ok_inv in Hrun
    as (ds_p & ds_d & ds_r & params & domain & Hp' & Hd' & Hr' & Hap & Had
        & Hcp & Hcd & Hca & Hpts).
  rewrite Hp in Hp'. rewrite Hd in Hd'. rewrite Hr in Hr'.
  injection Hp' as <-. injection Hd' as <-. injection Hr' as <-.
  injection Hap as <-. injection Had as <-.
  destruct (Hpts _ _ Hpx Hpy) as (Hok & xs & ys & [= <-] & [= <-] & lx & ly
                                  & [= <-] & [= <-] & Hperm).
  auto 10.
Qed.

(** X12.  An object that [read] returned cannot be read back once written: its
    attrs hold the key "range", which [read] also passes by name, so the
    call of the constructor is a TypeError (where the h5 helper returns
    text as it is). *)
Theorem reread_is_type_error (dsets attrs : gmap string h5val)
    (g g1 g2 : seed) (c1 : Calibration) :
  (forall s, ensure_string (HStr s) = Ok s) ->
  read dsets attrs g = (Ok c1, g1) ->
  read (fst (write c1)) (snd (write c1)) g2 = (Raise TypeError, g2).
Proof.
  intros Hes Hread.
  apply read_ok_inv in Hread
    as (ds_p & ds_d & ds_r & params & domain & _ & _ & _ & _ & _ & _ & _ & Hca & _).
  destruct (write_lookup c1) as (Hp & He & Hd & Hr & _ & _ & Hinv & Hdom).
  cbn zeta in *. unfold read.
  rewrite Hp, He, Hd, Hr, Hdom, Hinv.
  rewrite bool_decide_eq_true_2 by reflexivity. cbn [negb].
  rewrite Hes. erewrite bindM_step by reflexivity.
  assert (exists inv, (match option_map HStr (_inv_expression c1) with
                       | Some v => let* e := liftR (ensure_string v) in retM (Some e)
                       | None => retM None
                       end) g2 = (Ok inv, g2)) as [inv Hinv'].
  { destruct (_inv_expression c1) as [s|]; cbn [option_map].
    - rewrite Hes. eexists. reflexivity.
    - eexists. reflexivity. }
  rewrite (bindM_step _ _ _ _ _ Hinv').
  assert (existsb (fun k => bool_decide (is_Some (snd (write c1) !! k))) clashing_keywords
          = true) as ->; [|reflexivity].
  apply existsb_exists. exists "range". split; [unfold clashing_keywords; simpl; tauto|].
  apply bool_decide_eq_true_2. unfold write. cbn [snd]. rewrite Hca.
  rewrite lookup_delete_ne by discriminate. rewrite lookup_insert_eq. eauto.
Qed.

End CopyWriteRead.

(** ** Stripping and the parameter indices *)

Lemma str_app_cons (a : ascii) (s t : string) : String a s +:+ t = String a (s +:+ t).
Proof. reflexivity. Qed.

Lemma str_app_nil_l (t : string) : EmptyString +:+ t = t.
Proof. reflexivity. Qed.

Lemma str_app_assoc (a b c : string) : (a +:+ b) +:+ c = a +:+ (b +:+ c).
Proof.
  induction a as [|x a IH]; [reflexivity|]. rewrite !str_app_cons. now rewrite IH.
Qed.

Lemma str_app_nil_r (a : string) : a +:+ EmptyString = a.
Proof. induction a as [|x a IH]; [reflexivity|]. rewrite str_app_cons. now rewrite IH. Qed.

Lemma rev_app_append (s1 s2 : string) : String.rev_app s1 s2 = String.rev s1 +:+ s2.
Proof.
  unfold String.rev. revert s2. induction s1 as [|a s1 IH]; intros s2; simpl; [reflexivity|].
  rewrite IH, (IH (String a EmptyString)), str_app_assoc. reflexivity.
Qed.

Lemma rev_cons (a : ascii) (s : string) :
  String.rev (String a s) = String.rev s +:+ String a EmptyString.
Proof. unfold String.rev at 1. simpl. apply rev_app_append. Qed.

Lemma rev_append (a b : string) : String.rev (a +:+ b) = String.rev b +:+ String.rev a.
Proof.
  induction a as [|x a IH].
  - rewrite str_app_nil_l. change (String.rev EmptyString) with EmptyString.
    now rewrite str_app_nil_r.
  - rewrite str_app_cons, !rev_cons, IH, str_app_assoc. reflexivity.
Qed.

Lemma rev_involutive (s : string) : String.rev (String.rev s) = s.
Proof.
  induction s as [|x s IH]; [reflexivity|].
  rewrite rev_cons, rev_append, IH. reflexivity.
Qed.

Lemma all_space_append (a b : string) :
  all_space (a +:+ b) = all_space a && all_space b.
Proof.
  induction a as [|x a IH]; [reflexivity|].
  rewrite str_app_cons. simpl. now rewrite IH, andb_assoc.
Qed.

Lemma all_space_rev (s : string) : all_space (String.rev s) = all_space s.
Proof.
  induction s as [|x s IH]; [reflexivity|].
  rewrite rev_cons, all_space_append, IH. simpl.
  rewrite andb_true_r. apply andb_comm.
Qed.

Lemma lstrip_spaces (ws s : string) :
  all_space ws = true -> Py.lstrip (ws +:+ s) = Py.lstrip s.
Proof.
  induction ws as [|c ws IH]; [reflexivity|].
  rewrite str_app_cons. simpl.
  intros Hs. apply andb_true_iff in Hs as [Hc Hs]. rewrite Hc. now apply IH.
Qed.

Lemma lstrip_decompose (s : string) :
  exists ws, s = ws +:+ Py.lstrip s /\ all_space ws = true.
Proof.
  induction s as [|c s (ws & Hs & Hws)]; simpl.
  - now exists EmptyString.
  - destruct (Py.isspace c) eqn:Ec.
    + exists (String c ws). simpl. rewrite Ec, Hws, str_app_cons.
      split; [now f_equal|reflexivity].
    + now exists EmptyString.
Qed.

Lemma rstrip_decompose (s : string) :
  exists ws, s = Py.rstrip s +:+ ws /\ all_space ws = true.
Proof.
  destruct (lstrip_decompose (String.rev s)) as (ws & Hs & Hws).
  exists (String.rev ws). split; [|now rewrite all_space_rev].
  unfold Py.rstrip. rewrite <- rev_append, <- Hs. symmetry. apply rev_involutive.
Qed.

Lemma rstrip_spaces (s ws : string) :
  all_space ws = true -> Py.rstrip (s +:+ ws) = Py.rstrip s.
Proof.
  intros Hws. unfold Py.rstrip. rewrite rev_append, lstrip_spaces; [reflexivity|].
  now rewrite all_space_rev.
Qed.

Lemma lstrip_append_spaces (s ws : string) :
  all_space ws = true ->
  Py.lstrip (s +:+ ws) = Py.lstrip s +:+ ws \/
  (Py.lstrip (s +:+ ws) = EmptyString /\ Py.lstrip s = EmptyString).
Proof.
  intros Hws. induction s as [|c s IH].
  - right. split; [|reflexivity]. rewrite str_app_nil_l.
    rewrite <- (str_app_nil_r ws). now apply lstrip_spaces.
  - rewrite str_app_cons. simpl. destruct (Py.isspace c); [exact IH|]. now left.
Qed.

Lemma strip_append_spaces (s ws : string) :
  all_space ws = true -> Py.strip (s +:+ ws) = Py.strip s.
Proof.
  intros Hws. unfold Py.strip.
  destruct (lstrip_append_spaces s ws Hws) as [-> | [-> ->]]; [|reflexivity].
  now apply rstrip_spaces.
Qed.

(** *** What [int] makes of white space *)

Lemma isspace_int_isspace (c : ascii) : Py.isspace_int c = true -> Py.isspace c = true.
Proof. destruct c as [[] [] [] [] [] [] [] []]; vm_compute; congruence. Qed.

Lemma space_not_numeral (c : ascii) :
  Py.isspace c = true ->
  Py.digit_of c = None /\ Ascii.eqb c "_" = false /\
  Ascii.eqb c "-" = false /\ Ascii.eqb c "+" = false.
Proof.
  destruct c as [[] [] [] [] [] [] [] []]; vm_compute; intros;
    repeat split; congruence.
Qed.

Lemma int_cases (s : string) :
  Py.int s =
  match Py.strip_int s with
  | EmptyString => None
  | String a ds =>
      if Ascii.eqb a "-" then option_map Z.opp (Py.digits_go ds Py.AtStart 0)
      else if Ascii.eqb a "+" then Py.digits_go ds Py.AtStart 0
      else Py.digits_go (String a ds) Py.AtStart 0
  end.
Proof.
  unfold Py.int. destruct (Py.strip_int s) as [|a ds]; [reflexivity|].
  destruct a as [[] [] [] [] [] [] [] []]; reflexivity.
Qed.

Lemma skip_spaces_snoc (s : string) (c : ascii) :
  Py.isspace_int c = false ->
  Py.skip_spaces (s +:+ String c EmptyString) = Py.skip_spaces s +:+ String c EmptyString.
Proof.
  intros Hc. induction s as [|a s IH].
  - rewrite !str_app_nil_l. simpl. now rewrite Hc.
  - rewrite str_app_cons. simpl. destruct (Py.isspace_int a); [exact IH|].
    now rewrite str_app_cons.
Qed.

Lemma skip_spaces_snoc_space (s : string) (c : ascii) :
  Py.isspace_int c = true ->
  Py.skip_spaces (s +:+ String c EmptyString) = Py.skip_spaces s +:+ String c EmptyString \/
  (Py.skip_spaces (s +:+ String c EmptyString) = EmptyString /\
   Py.skip_spaces s = EmptyString).
Proof.
  intros Hc. induction s as [|a s IH].
  - right. rewrite str_app_nil_l. simpl. now rewrite Hc.
  - rewrite str_app_cons. simpl. destruct (Py.isspace_int a); [exact IH|].
    left. now rewrite str_app_cons.
Qed.

Lemma strip_int_snoc_space (s : string) (c : ascii) :
  Py.isspace_int c = true ->
  Py.strip_int (s +:+ String c EmptyString) = Py.strip_int s.
Proof.
  intros Hc. unfold Py.strip_int.
  destruct (skip_spaces_snoc_space s c Hc) as [-> | [-> ->]]; [|reflexivity].
  rewrite rev_append. change (String.rev (String c EmptyString)) with (String c EmptyString).
  rewrite str_app_cons, str_app_nil_l. simpl. now rewrite Hc.
Qed.

Lemma strip_int_snoc (s : string) (c : ascii) :
  Py.isspace_int c = false ->
  Py.strip_int (s +:+ String c EmptyString) = Py.skip_spaces s +:+ String c EmptyString.
Proof.
  intros Hc. unfold Py.strip_int. rewrite (skip_spaces_snoc s c Hc), rev_append.
  change (String.rev (String c EmptyString)) with (String c EmptyString).
  rewrite str_app_cons, str_app_nil_l. simpl. rewrite Hc.
  rewrite rev_cons, rev_involutive. reflexivity.
Qed.

Lemma digits_go_bad_last (s : string) (c : ascii) (st : Py.digit_state) (acc : Z) :
  Py.digit_of c = None -> Ascii.eqb c "_" = false ->
  Py.digits_go (s +:+ String c EmptyString) st acc = None.
Proof.
  intros Hd Hu. revert st acc. induction s as [|a s IH]; intros st acc.
  - rewrite str_app_nil_l. simpl. now rewrite Hd, Hu.
  - rewrite str_app_cons. simpl. destruct (Py.digit_of a); [apply IH|].
    destruct (Ascii.eqb a "_"); [|reflexivity]. destruct st; auto.
Qed.

(** A separator 28 to 31 at the end of a text is no part of a numeral. *)
Lemma int_bad_last (s : string) (c : ascii) :
  Py.isspace c = true -> Py.isspace_int c = false ->
  Py.int (s +:+ String c EmptyString) = None.
Proof.
  intros Hs Hc. destruct (space_not_numeral c Hs) as (Hd & Hu & Hm & Hp).
  rewrite int_cases, (strip_int_snoc s c Hc).
  destruct (Py.skip_spaces s) as [|a r].
  - rewrite str_app_nil_l, Hm, Hp. simpl. now rewrite Hd, Hu.
  - rewrite str_app_cons.
    rewrite (digits_go_bad_last r c _ _ Hd Hu).
    rewrite <- str_app_cons, (digits_go_bad_last (String a r) c _ _ Hd Hu).
    destruct (Ascii.eqb a "-"), (Ascii.eqb a "+"); reflexivity.
Qed.

(** White space of [str.strip] after a text that [int] reads does not
    change what it reads. *)
Lemma int_drop_spaces (s ws : string) (v : Z) :
  all_space ws = true -> Py.int (s +:+ ws) = Some v -> Py.int s = Some v.
Proof.
  rewrite <- (rev_involutive ws). generalize (String.rev ws). clear ws.
  intros r. induction r as [|c r IH].
  - change (String.rev EmptyString) with EmptyString. now rewrite str_app_nil_r.
  - rewrite rev_cons, all_space_append, <- str_app_assoc. simpl.
    rewrite andb_true_r. intros Hws Hint.
    apply andb_true_iff in Hws as [Hr Hc].
    destruct (Py.isspace_int c) eqn:Ec.
    + apply IH; [assumption|].
      unfold Py.int in *. now rewrite (strip_int_snoc_space _ c Ec) in Hint.
    + now rewrite (int_bad_last _ c Hc Ec) in Hint.
Qed.

(** The pieces of a split depend on the text before the first separator
    only in their first element. *)
Lemma split_go_cur (sep s : string) (k : nat) (cur : string) :
  Py.split_go sep s k cur
  = (cur +:+ hd EmptyString (Py.split_go sep s k EmptyString))
      :: tl (Py.split_go sep s k EmptyString).
Proof.
  revert k cur. induction s as [|c s IH]; intros k cur.
  - simpl. now rewrite str_app_nil_r.
  - destruct k as [|k]; [|exact (IH k cur)].
    cbn [Py.split_go]. destruct (String.prefix sep (String c s)).
    + simpl. now rewrite str_app_nil_r.
    + rewrite (IH 0%nat (cur +:+ String c EmptyString)),
              (IH 0%nat (EmptyString +:+ String c EmptyString)).
      cbn [hd tl]. now rewrite str_app_assoc.
Qed.

Lemma tl_append_last (l : list string) (ws : string) :
  tl (append_last l ws) = append_last (tl l) ws.
Proof. destruct l as [|u [|v l]]; reflexivity. Qed.

Lemma hd_append_last (l : list string) (ws : string) :
  hd EmptyString (append_last l ws) = hd EmptyString l \/
  hd EmptyString (append_last l ws) = hd EmptyString l +:+ ws.
Proof. destruct l as [|u [|v l]]; simpl; auto. Qed.

Section SplitSpaces.
Variable sep : string.
Hypothesis sep_no_space : forall c r, Py.isspace c = true -> String.prefix sep (String c r) = false.
Hypothesis sep_local : forall c s ws,
  all_space ws = true ->
  String.prefix sep (String c (s +:+ ws)) = String.prefix sep (String c s).
Hypothesis sep_inside : forall c s,
  String.prefix sep (String c s) = true -> (String.length sep - 1 <= String.length s)%nat.

Lemma split_go_spaces (ws cur : string) :
  all_space ws = true -> Py.split_go sep ws 0 cur = [cur +:+ ws].
Proof.
  revert cur. induction ws as [|c ws IH]; intros cur Hws.
  - simpl. now rewrite str_app_nil_r.
  - simpl in Hws. apply andb_true_iff in Hws as [Hc Hws].
    cbn [Py.split_go]. rewrite (sep_no_space c ws Hc), (IH _ Hws), str_app_assoc.
    reflexivity.
Qed.

Lemma split_go_append_spaces (s ws : string) (k : nat) (cur : string) :
  all_space ws = true -> (k <= String.length s)%nat ->
  Py.split_go sep (s +:+ ws) k cur = append_last (Py.split_go sep s k cur) ws.
Proof.
  intros Hws. revert k cur. induction s as [|c s IH]; intros k cur Hk.
  - simpl in Hk. assert (k = 0%nat) as -> by lia.
    rewrite str_app_nil_l. now rewrite split_go_spaces.
  - rewrite str_app_cons. destruct k as [|k].
    + cbn [Py.split_go]. rewrite (sep_local c s ws Hws).
      destruct (String.prefix sep (String c s)) eqn:Ep.
      * rewrite IH by now apply (sep_inside c).
        cbn [append_last].
        destruct (Py.split_go sep s (String.length sep - 1) EmptyString) eqn:Eg;
          [|reflexivity].
        exfalso. revert Eg. rewrite split_go_cur. discriminate.
      * apply IH. lia.
    + cbn [Py.split_go]. apply IH. simpl in Hk. lia.
Qed.

Lemma split_go_leading_spaces (ws s cur : string) :
  all_space ws = true ->
  tl (Py.split_go sep (ws +:+ s) 0 cur) = tl (Py.split_go sep s 0 EmptyString).
Proof.
  revert cur. induction ws as [|c ws IH]; intros cur Hws.
  - rewrite str_app_nil_l, split_go_cur. reflexivity.
  - simpl in Hws. apply andb_true_iff in Hws as [Hc Hws].
    rewrite str_app_cons. cbn [Py.split_go].
    rewrite (sep_no_space c _ Hc). now apply IH.
Qed.

End SplitSpaces.

Lemma prefix_nil (s : string) : String.prefix EmptyString s = true.
Proof. now destruct s. Qed.

Lemma prefix_bracket_spaces (ws : string) :
  all_space ws = true -> String.prefix "[" ws = false.
Proof.
  destruct ws as [|c ws]; [reflexivity|]. cbn [all_space String.prefix].
  intros Hws. apply andb_true_iff in Hws as [Hc _].
  destruct (ascii_dec "[" c) as [<-|]; [discriminate|reflexivity].
Qed.

Lemma split_p_no_space (c : ascii) (r : string) :
  Py.isspace c = true -> String.prefix "p[" (String c r) = false.
Proof.
  intros Hc. cbn [String.prefix]. destruct (ascii_dec "p" c) as [<-|]; [discriminate|reflexivity].
Qed.

Lemma split_p_local (c : ascii) (s ws : string) :
  all_space ws = true ->
  String.prefix "p[" (String c (s +:+ ws)) = String.prefix "p[" (String c s).
Proof.
  intros Hws. cbn [String.prefix]. destruct (ascii_dec "p" c); [|reflexivity].
  destruct s as [|d s].
  - rewrite str_app_nil_l. now apply prefix_bracket_spaces.
  - rewrite str_app_cons. cbn [String.prefix].
    destruct (ascii_dec "[" d); [|reflexivity]. now rewrite !prefix_nil.
Qed.

Lemma split_p_inside (c : ascii) (s : string) :
  String.prefix "p[" (String c s) = true -> (String.length "p[" - 1 <= String.length s)%nat.
Proof.
  cbn [String.prefix]. destruct (ascii_dec "p" c); [|discriminate].
  destruct s; [discriminate|]. simpl. lia.
Qed.

Lemma split_close_no_space (c : ascii) (r : string) :
  Py.isspace c = true -> String.prefix "]" (String c r) = false.
Proof.
  intros Hc. cbn [String.prefix]. destruct (ascii_dec "]" c) as [<-|]; [discriminate|reflexivity].
Qed.

Lemma split_close_local (c : ascii) (s ws : string) :
  all_space ws = true ->
  String.prefix "]" (String c (s +:+ ws)) = String.prefix "]" (String c s).
Proof.
  intros _. cbn [String.prefix]. destruct (ascii_dec "]" c); [|reflexivity].
  now rewrite !prefix_nil.
Qed.

Lemma split_close_inside (c : ascii) (s : string) :
  String.prefix "]" (String c s) = true -> (String.length "]" - 1 <= String.length s)%nat.
Proof. intros _. simpl. lia. Qed.

Lemma ints_of_cons (token : string) (rest : list string) :
  ints_of (token :: rest) =
  match Py.int (hd EmptyString (Py.split "]" token)) with
  | None => Raise ValueError
  | Some j => let! js := ints_of rest in Ok (j :: js)
  end.
Proof. reflexivity. Qed.

Lemma ints_of_append_last (tokens : list string) (ws : string) (raw : list Z) :
  all_space ws = true ->
  ints_of (append_last tokens ws) = Ok raw -> ints_of tokens = Ok raw.
Proof.
  intros Hws. revert raw. induction tokens as [|u [|v rest] IH]; intros raw; [auto| |].
  - cbn [append_last ints_of]. unfold Py.split.
    rewrite (split_go_append_spaces "]" split_close_no_space split_close_local
               split_close_inside u ws 0 EmptyString Hws) by lia.
    destruct (hd_append_last (Py.split_go "]" u 0 EmptyString) ws) as [-> | ->];
      [auto|].
    destruct (Py.int (hd EmptyString (Py.split_go "]" u 0 EmptyString) +:+ ws))
      as [j|] eqn:Ej; [|discriminate].
    now rewrite (int_drop_spaces _ _ _ Hws Ej).
  - change (append_last (u :: v :: rest) ws) with (u :: append_last (v :: rest) ws).
    rewrite (ints_of_cons u (append_last (v :: rest) ws)), (ints_of_cons u (v :: rest)).
    destruct (Py.int _); [|discriminate].
    destruct (ints_of (append_last (v :: rest) ws)) as [js|] eqn:Ejs; [|discriminate].
    now rewrite (IH js eq_refl).
Qed.

(** White space around an expression does not change the indices read
    from it. *)
Lemma param_indices_spaces (ws1 s ws2 : string) (idx : list Z) :
  all_space ws1 = true -> all_space ws2 = true ->
  _param_indices (ws1 +:+ (s +:+ ws2)) = Ok idx -> _param_indices s = Ok idx.
Proof.
  intros H1 H2. unfold _param_indices, Py.split.
  rewrite (split_go_leading_spaces "p[" split_p_no_space ws1 _ EmptyString H1).
  rewrite (split_go_append_spaces "p[" split_p_no_space split_p_local split_p_inside
             s ws2 0 EmptyString H2) by lia.
  rewrite tl_append_last.
  destruct (ints_of (append_last _ ws2)) as [raw|] eqn:Er; [|discriminate].
  now rewrite (ints_of_append_last _ _ _ H2 Er).
Qed.

(** The indices read from a text are read from the stripped text too. *)
Lemma param_indices_strip (s : string) (idx : list Z) :
  _param_indices s = Ok idx -> _param_indices (Py.strip s) = Ok idx.
Proof.
  destruct (lstrip_decompose s) as (ws1 & Hs1 & H1).
  destruct (rstrip_decompose (Py.lstrip s)) as (ws2 & Hs2 & H2).
  rewrite Hs1 at 1. rewrite Hs2 at 1. now apply param_indices_spaces.
Qed.

(** ** Fitting the stored points *)

Section FitClass.
Context `{Externals}.

Lemma check_points_same_length (px py : option array_like) (domain rng : array_like)
    (xs' ys' xs : list Q) :
  _check_points px py domain rng = Ok (xs', ys') ->
  np_atleast_1d px = Some xs ->
  Permutation xs' xs.
Proof.
  intros Hc Hx.
  apply check_points_ok in Hc as (xs0 & ys0 & Hx0 & _ & Hlen & Hperm & Hlen' & _).
  rewrite Hx in Hx0. injection Hx0 as <-.
  rewrite <- (combine_fst xs ys0 Hlen), <- Hperm. now rewrite combine_fst.
Qed.

(** What a [fit] that returns has been through. *)
Lemma fit_ok_inv (c c' : Calibration) (g g' : seed) :
  fit (c, g) = (Ok tt, (c', g')) ->
  c' = with_params (_params c') c /\
  Forall (within (item (_domain c) 0) (item (_domain c) 1)) (_points_x c) /\
  Forall (within (item (_range c) 0) (item (_range c) 1)) (_points_y c) /\
  (length (_params c') <= length (_points_x c))%nat /\
  exists formatted,
    black_format_str (_expression c) = Some formatted /\
    _param_indices formatted = Ok (map Z.of_nat (seq 0 (length (_params c')))).
Proof.
  unfold fit. intros Hrun.
  apply bindM_ok in Hrun as (c0 & [c1 g1] & Hs & Hrun).
  injection Hs as <- <- <-.
  apply bindM_ok in Hrun as (p & [c2 g2] & Hm & Hset).
  apply module_call_state in Hm as [-> Hfit].
  apply set_params_ok in Hset as (p' & e & [= <-] & Hv & ->).
  apply fit_expression_ok_inv in Hfit as (e1 & g3 & xs & ys & idx & Hv1 & Hc & Hi & Hle).
  apply validate_expression_ok_inv in Hv1
    as (f & idx1 & _ & Hb & _ & _ & Hi1 & _ & _ & ->).
  apply validate_expression_ok_inv in Hv
    as (f' & idx2 & _ & Hb' & _ & _ & Hi2 & Hc2 & Hn2 & _).
  rewrite Hb in Hb'. injection Hb' as <-.
  rewrite (param_indices_strip _ _ Hi1) in Hi. injection Hi as <-.
  rewrite Hi1 in Hi2. injection Hi2 as <-.
  specialize (Hn2 p eq_refl).
  pose proof Hc as Hok.
  apply check_points_ok in Hok
    as (xs0 & ys0 & Hx0 & Hy0 & Hlen & Hperm & Hlen' & _ & Hfx & Hfy & _).
  rewrite atleast_1d_flat in Hx0, Hy0. injection Hx0 as <-. injection Hy0 as <-.
  assert (Permutation xs (_points_x c)) as Hpx.
  { rewrite <- (combine_fst (_points_x c) (_points_y c) Hlen), <- Hperm.
    now rewrite combine_fst. }
  assert (Permutation ys (_points_y c)) as Hpy.
  { rewrite <- (combine_snd (_points_x c) (_points_y c) Hlen), <- Hperm.
    now rewrite combine_snd. }
  cbn [_params with_params].
  split; [reflexivity|]. split; [now rewrite <- Hpx|]. split; [now rewrite <- Hpy|].
  split; [rewrite <- Hn2, <- (Permutation_length Hpx); exact Hle|].
  exists f. split; [assumption|]. now rewrite <- Hn2, <- Hc2.
Qed.

(** X13.  A fit that succeeds changes nothing of the object but its
    parameters.  It succeeds only on stored points that all lie within the
    domain and the range the object has now, and it leaves as many
    parameters as the expression has indices, which are 0, 1, ..., and no
    more parameters than points. *)
Theorem fit_replaces_params_only (c c' : Calibration) (g g' : seed) :
  fit (c, g) = (Ok tt, (c', g')) ->
  c' = with_params (_params c') c /\
  Forall (within (item (_domain c) 0) (item (_domain c) 1)) (_points_x c) /\
  Forall (within (item (_range c) 0) (item (_range c) 1)) (_points_y c) /\
  (length (_params c') <= length (_points_x c))%nat /\
  exists formatted,
    black_format_str (_expression c) = Some formatted /\
    _param_indices formatted = Ok (map Z.of_nat (seq 0 (length (_params c')))).
Proof. apply fit_ok_inv. Qed.

(** X14.  [fit_points] on success: the store holds exactly the given pairs (and
    the origin when asked for), sorted and within the bounds; expression,
    inverse expression, bounds and attrs are as before; and there are no
    more parameters than points. *)
Theorem fit_points_sets_and_fits (px py params0 : option array_like)
    (include_origin : bool) (c c' : Calibration) (g g' : seed) :
  fit_points px py params0 include_origin (c, g) = (Ok tt, (c', g')) ->
  points_ok c' /\
  (exists xs ys, np_atleast_1d px = Some xs /\ np_atleast_1d py = Some ys /\
     Permutation (pairs c')
       (combine xs ys ++ if include_origin then [(0, 0)] else [])) /\
  (length (_params c') <= length (_points_x c'))%nat /\
  _expression c' = _expression c /\ _inv_expression c' = _inv_expression c /\
  _domain c' = _domain c /\ _range c' = _range c /\ _attrs c' = _attrs c.
Proof.
  unfold fit_points. intros Hrun.
  apply bindM_ok in Hrun as ([] & [c1 g1] & Hset & Hrun).
  apply set_points_outcome in Hset
    as (_ & Hok1 & Hp1 & _ & He1 & _ & Hi1 & Hd1 & Hr1 & Ha1).
  destruct (Hp1 eq_refl) as (xs & ys & Hx & Hy & Hperm1).
  apply bindM_ok in Hrun as ([] & [c2 g2] & Horigin & Hrun).
  assert (points_ok c2 /\
          Permutation (pairs c2)
            (combine xs ys ++ if include_origin then [(0, 0)] else []) /\
          _expression c2 = _expression c /\ _inv_expression c2 = _inv_expression c /\
          _domain c2 = _domain c /\ _range c2 = _range c /\ _attrs c2 = _attrs c)
    as (Hok2 & Hperm2 & He2 & Hi2 & Hd2 & Hr2 & Ha2).
  { destruct include_origin.
    - pose proof (add_points_frame _ _ _ _ _ _ _ Horigin) as (He & Hp & Hi & Hd & Hr & Ha).
      apply add_points_ok in Horigin
        as (Hok & _ & _ & ox & oy & [= <-] & [= <-] & _ & _ & Hperm).
      split; [assumption|]. split; [now rewrite Hperm, Hperm1|].
      rewrite He, Hi, Hd, Hr, Ha. auto.
    - apply retM_ok in Horigin as [_ [= <- <-]].
      split; [assumption|]. split; [now rewrite app_nil_r|]. auto. }
  apply bindM_ok in Hrun as ([] & [c3 g3] & Hpar & Hfit).
  assert (exists p, c3 = with_params p c2) as [p ->].
  { destruct params0 as [p0|].
    - apply set_params_ok in Hpar as (p & _ & _ & _ & ->). eauto.
    - apply retM_ok in Hpar as [_ [= -> ->]]. exists (_params c2). now destruct c2. }
  apply fit_ok_inv in Hfit as (Hc' & _ & _ & Hle & _).
  assert (_points_x c' = _points_x c2 /\ _points_y c' = _points_y c2 /\
          _expression c' = _expression c2 /\ _inv_expression c' = _inv_expression c2 /\
          _domain c' = _domain c2 /\ _range c' = _range c2 /\ _attrs c' = _attrs c2)
    as (Hx' & Hy' & He' & Hi' & Hd' & Hr' & Ha').
  { rewrite Hc'. cbn. auto 10. }
  cbn in Hle. unfold points_ok, pairs in *.
  rewrite Hx', Hy', He', Hi', Hd', Hr', Ha'.
  split; [assumption|]. split; [exists xs, ys; auto|]. auto 10.
Qed.

End FitClass.

(** ** The other constructors *)

Section Constructors.
Context `{Externals}.

Lemma construct_ok_inv (expression : string) (params : array_like)
    (domain rng : array_like) (attrs : gmap string h5val) (g g' : seed)
    (c : Calibration) :
  construct expression params domain rng attrs g = (Ok c, g') ->
  exists inv, __init__ expression params inv domain rng
                (delete "inv_expression" attrs) g = (Ok c, g').
Proof.
  unfold construct. destruct (existsb _ _); [discriminate|].
  destruct (attrs !! "inv_expression") as [[inv| |]|] eqn:Ei.
  - eauto.
  - destruct ((run* set_expression expression in set_params params) (blank, g))
      as [[[]|e] [c0 g0]]; discriminate.
  - destruct ((run* set_expression expression in set_params params) (blank, g))
      as [[[]|e] [c0 g0]]; discriminate.
  - rewrite (delete_id _ _ Ei). eauto.
Qed.

(** What [_fit_expression] has been through when it returns, with the
    starting parameters. *)
Lemma fit_expression_ok_starting (expression : string) (px py : option array_like)
    (params0 : option array_like) (domain rng : array_like) (g g' : seed)
    (p : list Q) :
  _fit_expression expression px py params0 domain rng g = (Ok p, g') ->
  exists e1 g1 xs ys idx p0 e2 g2,
    _validate_expression expression None "x" domain rng g = (Ok e1, g1) /\
    _check_points px py domain rng = Ok (xs, ys) /\
    _param_indices e1 = Ok idx /\
    length p0 = length idx /\
    _validate_expression e1 (Some p0) "x" DEFAULT_DOMAIN DEFAULT_RANGE g1 = (Ok e2, g2) /\
    (length idx <= length xs)%nat.
Proof.
  unfold _fit_expression. intros Hrun.
  apply bindM_ok in Hrun as (e1 & g1 & Hv1 & Hrun).
  apply bindM_ok in Hrun as ([xs ys] & g2 & Hc & Hrun).
  apply liftR_ok in Hc as [Hc ->].
  apply bindM_ok in Hrun as (idx & g2 & Hi & Hrun).
  apply liftR_ok in Hi as [Hi ->].
  cbn [fst snd] in Hrun. fold (starting_params params0 (length idx)) in Hrun.
  destruct (length (starting_params params0 (length idx)) =? length idx)%nat eqn:Ep;
    [|discriminate].
  apply Nat.eqb_eq in Ep. cbn [negb] in Hrun.
  apply bindM_ok in Hrun as (e2 & g2 & Hv2 & Hrun).
  destruct (length xs <? length idx)%nat eqn:El; [discriminate|].
  apply Nat.ltb_ge in El.
  exists e1, g1, xs, ys, idx, (starting_params params0 (length idx)), e2, g2. auto 10.
Qed.

(** X15.  [from_points] on success: the object holds exactly the given pairs (and
    the origin when asked for), sorted and within the given bounds, which
    are its domain and range; it has no more parameters than points. *)
Theorem from_points_holds_given_points (expression : string)
    (px py params0 : option array_like) (include_origin : bool)
    (domain rng : array_like) (attrs : gmap string h5val) (g g' : seed)
    (c : Calibration) :
  from_points expression px py params0 include_origin domain rng attrs g = (Ok c, g') ->
  points_ok c /\
  (exists xs ys, np_atleast_1d px = Some xs /\ np_atleast_1d py = Some ys /\
     Permutation (pairs c)
       ((if include_origin then [(0, 0)] else []) ++ combine xs ys)) /\
  (length (_params c) <= length (_points_x c))%nat /\
  _domain c = domain /\ _range c = rng /\
  _attrs c = delete "inv_expression" attrs.
Proof.
  unfold from_points. intros Hrun.
  apply bindM_ok in Hrun as ([xs1 ys1] & g1 & Hc1 & Hrun).
  apply liftR_ok in Hc1 as [Hc1 ->].
  apply bindM_ok in Hrun as ([xs2 ys2] & g1 & Hc2 & Hrun).
  apply liftR_ok in Hc2 as [Hc2 ->].
  apply bindM_ok in Hrun as (p & g2 & Hfit & Hrun).
  apply bindM_ok in Hrun as (cal & g3 & Hcons & Hset).
  cbn [fst snd] in *.
  apply on_object_ok in Hset.
  apply set_points_outcome in Hset
    as (_ & Hok & Hperm & _ & He & Hp & _ & Hd & Hr & Ha).
  destruct (Hperm eq_refl) as (xs2' & ys2' & [= <-] & [= <-] & Hperm').
  apply construct_ok_inv in Hcons as [inv Hinit].
  apply init_ok_inv in Hinit
    as (p' & e & g4 & g5 & [= <-] & Hv1 & Hv2 & Hcp & _ & _ & Hcd & Hcr & Hca & _ & _).
  apply fit_expression_ok_starting in Hfit
    as (e1 & g6 & xs3 & ys3 & idx & p0 & e2 & g7 & Hf1 & Hc3 & Hi & Hl0 & Hf2 & Hle).
  apply check_points_ok in Hc1
    as (xs & ys & Hx & Hy & Hlen & Hperm1 & Hlen1 & _).
  pose proof Hc2 as Hc2'.
  apply check_points_ok in Hc2'
    as (xs0 & ys0 & Hx0 & Hy0 & Hlen0 & Hperm2 & Hlen2 & _).
  split; [assumption|]. split.
  { exists xs, ys. split; [assumption|]. split; [assumption|].
    rewrite Hperm', Hperm2.
    destruct include_origin; cbn [fst snd] in Hx0, Hy0;
      rewrite atleast_1d_flat in Hx0, Hy0;
      injection Hx0 as <-; injection Hy0 as <-; simpl; now rewrite Hperm1. }
  split; [|rewrite Hd, Hr, Ha; auto].
  (* the number of parameters *)
  apply validate_expression_ok_inv in Hf1 as (f & _ & _ & Hb & _ & _ & _ & _ & _ & ->).
  apply validate_expression_ok_inv in Hv1 as (f' & _ & _ & Hb' & _ & _ & _ & _ & _ & He').
  rewrite Hb in Hb'. injection Hb' as <-.
  rewrite He' in Hv2.
  apply validate_expression_ok_inv in Hf2
    as (f2 & idx2 & _ & Hb2 & _ & _ & Hi2 & _ & Hn2 & _).
  apply validate_expression_ok_inv in Hv2
    as (f3 & idx3 & _ & Hb3 & _ & _ & Hi3 & _ & Hn3 & _).
  rewrite Hb2 in Hb3. injection Hb3 as <-.
  rewrite Hi2 in Hi3. injection Hi3 as <-.
  specialize (Hn2 p0 eq_refl). specialize (Hn3 p eq_refl).
  apply (check_points_same_length _ _ _ _ _ _ xs2) in Hc3; [|apply atleast_1d_flat].
  apply Permutation_length in Hc3.
  assert (length (_points_x c) = length xs2) as Hlc.
  { apply Permutation_length in Hperm'. unfold pairs in Hperm'.
    destruct Hok as (Hlxy & _). rewrite !length_combine in Hperm'. lia. }
  rewrite Hp, Hcp. lia.
Qed.

(** X16.  [from_linear] returns an object exactly for two coefficients in a flat
    sequence, which become its parameters; any other flat sequence is the
    CalibrationError of the method, raised before anything is validated,
    and a number is a TypeError. *)
Theorem from_linear_takes_two_coefficients (params : array_like)
    (domain rng : array_like) (attrs : gmap string h5val) (g : seed) :
  (forall c g', from_linear params domain rng attrs g = (Ok c, g') ->
     exists a b, params = A1D [a; b] /\ _params c = [a; b] /\
       _domain c = domain /\ _range c = rng /\
       _points_x c = [] /\ _points_y c = [] /\
       exists g1, _validate_expression "p[0] + p[1] * x" None "x"
                    DEFAULT_DOMAIN DEFAULT_RANGE g = (Ok (_expression c), g1)) /\
  (forall l, params = A1D l -> length l <> 2%nat ->
     from_linear params domain rng attrs g
       = (Raise (CalibrationError LinearExpects2), g)) /\
  (forall q, params = AScalar q ->
     from_linear params domain rng attrs g = (Raise TypeError, g)).
Proof.
  split; [|split].
  - intros c g'. unfold from_linear. intros Hrun.
    apply bindM_ok in Hrun as (len & g1 & Hlen & Hrun).
    apply liftR_ok in Hlen as [Hlen ->].
    destruct (len =? 2)%nat eqn:E2; [|discriminate]. cbn [negb] in Hrun.
    apply Nat.eqb_eq in E2 as ->.
    apply construct_ok_inv in Hrun as [inv Hinit].
    apply init_ok_inv in Hinit
      as (p & e & g2 & g3 & -> & Hv & _ & Hp & _ & _ & Hd & Hr & _ & Hx & Hy).
    simpl in Hlen. injection Hlen as Hlen.
    destruct p as [|a [|b [|]]]; try discriminate.
    exists a, b. repeat (split; [assumption || reflexivity|]). eauto.
  - intros l -> Hl. unfold from_linear. simpl.
    erewrite bindM_step by reflexivity.
    apply Nat.eqb_neq in Hl. rewrite Hl. reflexivity.
  - intros q ->. reflexivity.
Qed.

(** X17.  [from_polynomial] and [from_sqrt_polynomial] refuse fewer than two
    coefficients with the CalibrationError of [_polynomial_expression],
    before anything is validated, and return an object only for a flat
    sequence of at least two coefficients, which become its parameters. *)
Theorem from_polynomial_needs_order_one (params : array_like)
    (domain rng : array_like) (attrs : gmap string h5val) (g : seed) :
  (forall l, params = A1D l -> (length l < 2)%nat ->
     from_polynomial params domain rng attrs g
       = (Raise (CalibrationError PolynomialOrder), g) /\
     from_sqrt_polynomial params domain rng attrs g
       = (Raise (CalibrationError PolynomialOrder), g)) /\
  (forall c g',
     from_polynomial params domain rng attrs g = (Ok c, g') \/
     from_sqrt_polynomial params domain rng attrs g = (Ok c, g') ->
     exists l, params = A1D l /\ (2 <= length l)%nat /\ _params c = l /\
       _domain c = domain /\ _range c = rng /\
       _points_x c = [] /\ _points_y c = []).
Proof.
  split.
  - intros l -> Hl. unfold from_polynomial, from_sqrt_polynomial, _polynomial_expression.
    cbn [py_len bindR].
    destruct (Z.of_nat (length l) - 1 <=? 0)%Z eqn:E; [split; reflexivity|].
    apply Z.leb_gt in E. lia.
  - intros c g' Hrun.
    assert (exists expr len,
              py_len params = Ok len /\ (1 < len)%nat /\
              exists inv, __init__ expr params inv domain rng
                            (delete "inv_expression" attrs) g = (Ok c, g'))
      as (expr & len & Hlen & Hgt & inv & Hinit).
    { unfold from_polynomial, from_sqrt_polynomial, _polynomial_expression in Hrun.
      destruct (py_len params) as [len|] eqn:Hlen; [|destruct Hrun; discriminate].
      cbn [bindR] in Hrun.
      destruct (Z.of_nat len - 1 <=? 0)%Z eqn:E; [destruct Hrun; discriminate|].
      apply Z.leb_gt in E.
      destruct Hrun as [Hrun | Hrun];
        apply bindM_ok in Hrun as (expr & g1 & He & Hrun);
        apply liftR_ok in He as [_ ->];
        apply construct_ok_inv in Hrun; eexists _, len;
        (split; [reflexivity|]); (split; [lia|]); exact Hrun. }
    apply init_ok_inv in Hinit
      as (p & e & g2 & g3 & -> & _ & _ & Hp & _ & _ & Hd & Hr & _ & Hx & Hy).
    simpl in Hlen. injection Hlen as <-.
    exists p. repeat (split; [assumption || reflexivity || lia|]). assumption.
Qed.

End Constructors.

(** ** The text that validation returns, the points that the check accepts *)

Section ValidatedText.
Context `{Externals}.

(** X18.  The text that [_validate_expression] returns has the parameter
    indices 0, 1, ..., n-1 for some n, and n is the length of the parameter
    vector when one is given: stripping the white space around the
    formatted text changes no index. *)
Theorem validated_text_indices (expression : string) (params : option (list Q))
    (ind_var : string) (domain rng : array_like) (g g' : seed) (e : string) :
  _validate_expression expression params ind_var domain rng g = (Ok e, g') ->
  exists n, _param_indices e = Ok (map Z.of_nat (seq 0 n)) /\
            forall p, params = Some p -> length p = n.
Proof.
  intros Hv.
  apply validate_expression_ok_inv in Hv as (f & idx & _ & _ & _ & _ & Hi & Hc & Hn & ->).
  exists (length idx). rewrite (param_indices_strip _ _ Hi), <- Hc.
  split; [reflexivity|]. intros p Hp. symmetry. now apply Hn.
Qed.

(** X19.  With a domain and a range of two values each, [_check_points]
    accepts exactly the inputs that are numbers or flat sequences of equal
    length (nothing at all counting as no point) with every x within the
    domain and every y within the range, the bounds included; what it
    returns then are the same pairs sorted by x. *)
Theorem check_points_accepts_exactly (px py : option array_like) (d0 d1 r0 r1 : Q) :
  ((exists out, _check_points px py (A1D [d0; d1]) (A1D [r0; r1]) = Ok out) <->
   exists xs ys, np_atleast_1d px = Some xs /\ np_atleast_1d py = Some ys /\
     length xs = length ys /\
     Forall (within d0 d1) xs /\ Forall (within r0 r1) ys) /\
  (forall xs' ys', _check_points px py (A1D [d0; d1]) (A1D [r0; r1]) = Ok (xs', ys') ->
     StronglySorted Qle xs' /\
     exists xs ys, np_atleast_1d px = Some xs /\ np_atleast_1d py = Some ys /\
       Permutation (combine xs' ys') (combine xs ys)).
Proof.
  split; [split|].
  - intros [[xs' ys'] Hok].
    apply check_points_ok in Hok
      as (xs & ys & Hx & Hy & Hlen & Hperm & Hlen' & _ & Hfx & Hfy & _).
    exists xs, ys. repeat (split; [assumption|]).
    assert (Permutation xs' xs) as Hpx.
    { rewrite <- (combine_fst xs ys Hlen), <- Hperm. now rewrite combine_fst. }
    assert (Permutation ys' ys) as Hpy.
    { rewrite <- (combine_snd xs ys Hlen), <- Hperm. now rewrite combine_snd. }
    simpl in Hfx, Hfy. rewrite Hpx in Hfx. rewrite Hpy in Hfy. auto.
  - intros (xs & ys & Hx & Hy & Hlen & Hfx & Hfy).
    eexists.
    exact (check_points_pass px py (A1D [d0; d1]) (A1D [r0; r1]) xs ys d0 d1 r0 r1
             Hx Hy Hlen eq_refl eq_refl eq_refl eq_refl Hfx Hfy).
  - intros xs' ys' Hok.
    apply check_points_ok in Hok
      as (xs & ys & Hx & Hy & Hlen & Hperm & Hlen' & Hs & _).
    split; [assumption|]. exists xs, ys. auto.
Qed.

End ValidatedText.

(** ** Interpolation *)

Section InterpolationProperties.
Context `{Externals}.
Variable np_array2string : list Q -> string.

(** X20.  [from_interpolation] raises its CalibrationError for fewer than
    two points that passed the check, before anything is validated; the
    object it returns, for at least two points, has no parameters and an
    empty point store: the points are in the text of its expression
    only. *)
Theorem from_interpolation_keeps_no_points (px py : option array_like)
    (domain rng : array_like) (attrs : gmap string h5val) (g : seed) :
  (forall xs ys, _check_points px py domain rng = Ok (xs, ys) ->
     (length xs < 2)%nat ->
     from_interpolation np_array2string px py domain rng attrs g
       = (Raise (CalibrationError InterpolationExpects2), g)) /\
  (forall c g', from_interpolation np_array2string px py domain rng attrs g = (Ok c, g') ->
     (exists xs ys, _check_points px py domain rng = Ok (xs, ys) /\
        (2 <= length xs)%nat) /\
     _params c = [] /\ _points_x c = [] /\ _points_y c = [] /\
     _domain c = domain /\ _range c = rng).
Proof.
  split.
  - intros xs ys Hc Hlt. unfold from_interpolation. rewrite Hc.
    erewrite bindM_step by reflexivity. cbn [fst].
    apply Nat.ltb_lt in Hlt. now rewrite Hlt.
  - intros c g'. unfold from_interpolation. intros Hrun.
    apply bindM_ok in Hrun as ([xs ys] & g1 & Hc & Hrun).
    apply liftR_ok in Hc as [Hc ->]. cbn [fst snd] in Hrun.
    destruct (length xs <? 2)%nat eqn:El; [discriminate|].
    apply Nat.ltb_ge in El.
    apply construct_ok_inv in Hrun as [inv Hinit].
    apply init_ok_inv in Hinit
      as (p & e & g2 & g3 & [= <-] & _ & _ & Hp & _ & _ & Hd & Hr & _ & Hx & Hy).
    split; [eauto|]. auto.
Qed.

End InterpolationProperties.

(** ** The text of a polynomial *)

Lemma lacks_append (c : ascii) (a b : string) :
  lacks c (a +:+ b) = lacks c a && lacks c b.
Proof.
  induction a as [|x a IH]; [reflexivity|].
  rewrite str_app_cons. simpl. now rewrite IH, andb_assoc.
Qed.

Lemma all_digits_append (a b : string) :
  all_digits (a +:+ b) = all_digits a && all_digits b.
Proof.
  induction a as [|x a IH]; [reflexivity|].
  rewrite str_app_cons. simpl. destruct (Py.digit_of x); [exact IH|reflexivity].
Qed.

Lemma all_digits_rev (s : string) : all_digits (String.rev s) = all_digits s.
Proof.
  induction s as [|x s IH]; [reflexivity|].
  rewrite rev_cons, all_digits_append, IH. simpl.
  destruct (Py.digit_of x); [apply andb_true_r | apply andb_false_r].
Qed.

Lemma all_digits_lacks (c : ascii) (s : string) :
  Py.digit_of c = None -> all_digits s = true -> lacks c s = true.
Proof.
  intros Hc. induction s as [|x s IH]; [reflexivity|]. simpl.
  destruct (Py.digit_of x) eqn:Ex; [|discriminate]. intros Hs.
  rewrite (IH Hs), andb_true_r.
  destruct (Ascii.eqb_spec x c) as [->|]; [congruence|reflexivity].
Qed.

Lemma digit_not_space (c : ascii) (d : Z) : Py.digit_of c = Some d -> Py.isspace c = false.
Proof.
  destruct c as [[] [] [] [] [] [] [] []]; vm_compute; intros; congruence.
Qed.

Lemma skip_spaces_digits (s : string) : all_digits s = true -> Py.skip_spaces s = s.
Proof.
  destruct s as [|c s]; [reflexivity|]. simpl.
  destruct (Py.digit_of c) eqn:Ec; [|discriminate].
  destruct (Py.isspace_int c) eqn:Es; [|reflexivity].
  apply isspace_int_isspace in Es. now rewrite (digit_not_space c _ Ec) in Es.
Qed.

Lemma strip_int_digits (s : string) : all_digits s = true -> Py.strip_int s = s.
Proof.
  intros Hs. unfold Py.strip_int. rewrite (skip_spaces_digits s Hs).
  rewrite skip_spaces_digits by now rewrite all_digits_rev.
  apply rev_involutive.
Qed.

Lemma int_digits (s : string) :
  all_digits s = true -> Py.int s = Py.digits_go s Py.AtStart 0.
Proof.
  intros Hs. unfold Py.int. rewrite (strip_int_digits s Hs).
  destruct s as [|c s]; [reflexivity|]. simpl in Hs.
  destruct (Py.digit_of c) eqn:Ec; [|discriminate].
  destruct c as [[] [] [] [] [] [] [] []]; try reflexivity;
    vm_compute in Ec; discriminate.
Qed.

Lemma pretty_N_char_digit (y : N) :
  (y < 10)%N -> Py.digit_of (pretty_N_char y) = Some (Z.of_N y).
Proof.
  intros Hy.
  assert (y = 0 \/ y = 1 \/ y = 2 \/ y = 3 \/ y = 4 \/ y = 5 \/ y = 6 \/ y = 7 \/
          y = 8 \/ y = 9)%N as Hcases by lia.
  repeat (destruct Hcases as [-> | Hcases]; [reflexivity|]). now subst.
Qed.

(** The digits that [pretty] writes, read back by [int]. *)
Lemma pretty_N_go_digits (x : N) :
  exists d,
    (forall s, pretty_N_go x s = d +:+ s) /\
    all_digits d = true /\
    forall t st acc, (0 < x)%N ->
      Py.digits_go (d +:+ t) st acc
      = Py.digits_go t Py.AfterDigit
          (acc * 10 ^ Z.of_nat (String.length d) + Z.of_N x)%Z.
Proof.
  induction (N.lt_wf_0 x) as [x _ IH].
  assert (x = 0 \/ 0 < x)%N as [-> | Hpos] by lia.
  - exists EmptyString. split; [intros s; apply pretty_N_go_0|].
    split; [reflexivity|]. intros t st acc Hlt. lia.
  - assert (x `div` 10 < x)%N as Hlt by now apply N.div_lt.
    destruct (IH _ Hlt) as (d' & Hgo & Hd' & Hval).
    assert (x `mod` 10 < 10)%N as Hmod by now apply N.mod_lt.
    pose proof (pretty_N_char_digit _ Hmod) as Hch.
    set (ch := pretty_N_char (x `mod` 10)) in *.
    exists (d' +:+ String ch EmptyString). split; [|split].
    + intros s. rewrite pretty_N_go_step by assumption. fold ch.
      rewrite Hgo, str_app_assoc. reflexivity.
    + rewrite all_digits_append, Hd'. simpl. now rewrite Hch.
    + intros t st acc _. rewrite str_app_assoc, str_app_cons, str_app_nil_l.
      pose proof (N.div_mod x 10 ltac:(lia)) as Hdm.
      assert (x `div` 10 = 0 \/ 0 < x `div` 10)%N as [Hz | Hnz] by lia.
      * assert (d' = EmptyString) as ->.
        { specialize (Hgo EmptyString). rewrite Hz, pretty_N_go_0 in Hgo.
          rewrite str_app_nil_r in Hgo. now symmetry. }
        rewrite !str_app_nil_l. simpl. rewrite Hch. f_equal. lia.
      * rewrite (Hval _ st acc Hnz). simpl Py.digits_go. rewrite Hch. f_equal.
        assert (String.length (d' +:+ String ch EmptyString) = S (String.length d'))
          as ->.
        { clear. induction d' as [|a d' IHd]; [reflexivity|].
          rewrite str_app_cons. simpl. now rewrite IHd. }
        rewrite Nat2Z.inj_succ, Z.pow_succ_r by lia. lia.
Qed.

Lemma py_str_digits (n : nat) : all_digits (py_str n) = true.
Proof.
  unfold py_str, pretty, pretty_nat, pretty, pretty_N.
  destruct (decide (N.of_nat n = 0%N)); [reflexivity|].
  destruct (pretty_N_go_digits (N.of_nat n)) as (d & Hgo & Hd & _).
  now rewrite Hgo, str_app_nil_r.
Qed.

Lemma int_py_str (n : nat) : Py.int (py_str n) = Some (Z.of_nat n).
Proof.
  rewrite (int_digits _ (py_str_digits n)).
  unfold py_str, pretty, pretty_nat, pretty, pretty_N.
  destruct (decide (N.of_nat n = 0%N)) as [Hz | Hnz].
  - assert (n = 0%nat) as -> by lia. reflexivity.
  - destruct (pretty_N_go_digits (N.of_nat n)) as (d & Hgo & _ & Hval).
    rewrite Hgo, (Hval EmptyString Py.AtStart 0%Z) by lia. simpl. f_equal. lia.
Qed.

Lemma prefix_append (s r : string) : String.prefix s (s +:+ r) = true.
Proof.
  induction s as [|c s IH]; [apply prefix_nil|].
  rewrite str_app_cons. cbn [String.prefix].
  destruct (ascii_dec c c); [exact IH|congruence].
Qed.

Lemma split_go_skip (sep t rest cur : string) :
  Py.split_go sep (t +:+ rest) (String.length t) cur = Py.split_go sep rest 0 cur.
Proof.
  induction t as [|c t IH]; [reflexivity|]. rewrite str_app_cons. exact IH.
Qed.

Section SplitAtSeparator.
Variable c0 : ascii.
Variable sep' : string.
Let sep := String c0 sep'.

Lemma prefix_lacks (x : ascii) (a r : string) :
  lacks c0 (String x a) = true -> String.prefix sep (String x r) = false.
Proof.
  simpl. intros Hl. apply andb_true_iff in Hl as [Hx _].
  unfold sep. cbn [String.prefix].
  destruct (ascii_dec c0 x) as [<-|]; [|reflexivity].
  now rewrite Ascii.eqb_refl in Hx.
Qed.

(** A text without the first character of the separator is one piece. *)
Lemma split_go_lacks (a cur : string) :
  lacks c0 a = true -> Py.split_go sep a 0 cur = [cur +:+ a].
Proof.
  revert cur. induction a as [|x a IH]; intros cur Hl.
  - simpl. now rewrite str_app_nil_r.
  - cbn [Py.split_go]. rewrite (prefix_lacks x a a Hl).
    simpl in Hl. apply andb_true_iff in Hl as [_ Hl].
    rewrite (IH _ Hl), str_app_assoc. reflexivity.
Qed.

(** Up to the first separator. *)
Lemma split_go_first (a rest cur : string) :
  lacks c0 a = true ->
  Py.split_go sep (a +:+ sep +:+ rest) 0 cur
  = (cur +:+ a) :: Py.split_go sep rest 0 EmptyString.
Proof.
  revert cur. induction a as [|x a IH]; intros cur Hl.
  - rewrite str_app_nil_l, str_app_nil_r. unfold sep at 2. rewrite str_app_cons.
    cbn [Py.split_go]. fold sep.
    change (String c0 (sep' +:+ rest)) with (sep +:+ rest).
    rewrite prefix_append. f_equal.
    replace (String.length sep - 1)%nat with (String.length sep')
      by (unfold sep; simpl; lia).
    apply split_go_skip.
  - rewrite str_app_cons. cbn [Py.split_go].
    rewrite (prefix_lacks x a _ Hl).
    simpl in Hl. apply andb_true_iff in Hl as [_ Hl].
    rewrite (IH _ Hl), str_app_assoc. reflexivity.
Qed.

Lemma split_go_at_separator (rest cur : string) :
  Py.split_go sep (sep +:+ rest) 0 cur = cur :: Py.split_go sep rest 0 EmptyString.
Proof.
  rewrite <- (str_app_nil_r cur) at 2.
  exact (split_go_first EmptyString rest cur eq_refl).
Qed.

End SplitAtSeparator.

Lemma split_go_pass (sep : string) (c : ascii) (s cur : string) :
  String.prefix sep (String c s) = false ->
  Py.split_go sep (String c s) 0 cur
  = Py.split_go sep s 0 (cur +:+ String c EmptyString).
Proof. cbn [Py.split_go]. now intros ->. Qed.

(** What stands before the polynomial in the text of
    [from_sqrt_polynomial] holds no "p[". *)
Lemma split_go_sqrt (rest : string) :
  tl (Py.split_go "p[" ("np.sqrt(" +:+ rest) 0 EmptyString)
  = tl (Py.split_go "p[" rest 0 EmptyString).
Proof.
  destruct rest as [|c rest]; [reflexivity|].
  repeat rewrite str_app_cons. rewrite str_app_nil_l.
  do 8 (rewrite split_go_pass by reflexivity).
  now rewrite split_go_cur.
Qed.

Lemma sorted_unique_ascending (n k : nat) :
  sorted_unique (map Z.of_nat (seq n k)) = map Z.of_nat (seq n k).
Proof.
  revert n. induction k as [|k IH]; intros n; [reflexivity|].
  cbn [seq map]. unfold sorted_unique in *. cbn [fold_right]. rewrite IH.
  destruct k as [|k]; [reflexivity|]. cbn [seq map insert_unique].
  assert ((Z.of_nat n <? Z.of_nat (S n))%Z = true) as -> by (apply Z.ltb_lt; lia).
  reflexivity.
Qed.

Lemma poly_token_lacks_p (n : nat) : lacks "p" (poly_token n) = true.
Proof.
  assert (lacks "p" (py_str n) = true) as Hn
    by (apply all_digits_lacks; [reflexivity | apply py_str_digits]).
  unfold poly_token. rewrite !lacks_append, Hn.
  destruct n; [reflexivity|]. rewrite lacks_append, Hn. reflexivity.
Qed.

(** The index that [_param_indices] reads from a piece. *)
Lemma poly_token_index (n : nat) (rest : string) :
  Py.int (hd EmptyString (Py.split "]" (poly_token n +:+ rest))) = Some (Z.of_nat n).
Proof.
  unfold poly_token, Py.split. rewrite !str_app_assoc.
  rewrite (split_go_first "]" EmptyString (py_str n)).
  - cbn [hd]. rewrite str_app_nil_l. apply int_py_str.
  - apply all_digits_lacks; [reflexivity | apply py_str_digits].
Qed.

Lemma poly_body_pieces (n j : nat) (fin : string) :
  lacks "p" fin = true ->
  ints_of (Py.split_go "p[" (poly_body n j fin) 0 EmptyString)
  = Ok (map Z.of_nat (seq n (S j))).
Proof.
  intros Hfin. revert n. induction j as [|j IH]; intros n.
  - cbn [poly_body]. rewrite (split_go_lacks "p" "[").
    + cbn [ints_of]. rewrite str_app_nil_l, poly_token_index. reflexivity.
    + now rewrite lacks_append, poly_token_lacks_p.
  - cbn [poly_body]. rewrite (split_go_first "p" "[").
    + cbn [ints_of]. rewrite str_app_nil_l, poly_token_index, IH. reflexivity.
    + now rewrite lacks_append, poly_token_lacks_p.
Qed.

Lemma poly_body_fin (n j : nat) (fin : string) :
  poly_body n j EmptyString +:+ fin = poly_body n j fin.
Proof.
  revert n. induction j as [|j IH]; intros n; cbn [poly_body].
  - now rewrite str_app_assoc, str_app_nil_l.
  - now rewrite !str_app_assoc, IH.
Qed.

(** The loop of [_polynomial_expression], piece by piece. *)
Lemma polynomial_loop (n j : nat) (acc : string) :
  fold_left polynomial_term (seq (S n) j) (acc +:+ poly_token n)
  = acc +:+ poly_body n j EmptyString.
Proof.
  revert n acc. induction j as [|j IH]; intros n acc.
  - cbn [seq fold_left poly_body]. now rewrite str_app_nil_r.
  - cbn [seq fold_left poly_body].
    replace (polynomial_term (acc +:+ poly_token n) (S n))
      with (((acc +:+ poly_token n +:+ " + ") +:+ "p[") +:+ poly_token (S n)).
    + rewrite IH, !str_app_assoc. reflexivity.
    + unfold polynomial_term, poly_token. rewrite !str_app_assoc. reflexivity.
Qed.

(** X21.  The text [_polynomial_expression] writes for n coefficients
    (n at least 2) names exactly the parameters p[0], ..., p[n-1]:
    [_param_indices] reads the indices 0, 1, ..., n-1 from it, and from the
    text of [from_sqrt_polynomial] around it. *)
Theorem polynomial_expression_indices (params : array_like) (expr : string) :
  _polynomial_expression params = Ok expr ->
  exists n, py_len params = Ok n /\ (2 <= n)%nat /\
    _param_indices expr = Ok (map Z.of_nat (seq 0 n)) /\
    _param_indices ("np.sqrt(" +:+ expr +:+ ")") = Ok (map Z.of_nat (seq 0 n)).
Proof.
  unfold _polynomial_expression.
  destruct (py_len params) as [len|]; [|discriminate]. cbn [bindR].
  destruct (Z.of_nat len - 1 <=? 0)%Z eqn:E; [discriminate|].
  apply Z.leb_gt in E. intros [= <-].
  exists len. split; [reflexivity|]. split; [lia|].
  assert (exists k, len = S (S k)) as [k ->] by (exists (len - 2)%nat; lia).
  replace (Z.to_nat (Z.of_nat (S (S k)) - 1)) with (S k) by lia.
  change "p[0]"%string with ("p[" +:+ poly_token 0).
  rewrite polynomial_loop.
  unfold _param_indices, Py.split. split.
  - rewrite (split_go_at_separator "p" "[").
    cbn [tl]. rewrite (poly_body_pieces 0 (S k) EmptyString eq_refl). cbn [bindR].
    now rewrite sorted_unique_ascending.
  - rewrite str_app_assoc, poly_body_fin, split_go_sqrt.
    rewrite (split_go_at_separator "p" "[").
    cbn [tl]. rewrite (poly_body_pieces 0 (S k) ")" eq_refl). cbn [bindR].
    now rewrite sorted_unique_ascending.
Qed.

(** * The examples, on the polynomial fragment *)

Local Abbreviation E := Poly.externals.

(** The constructor returns the objects of the examples. *)
Lemma example_objects_constructed :
  @__init__ E "p[0]+p[1]*x" (A1D [1; 2]) None (A1D [0; 10]) (A1D [0; 100]) ∅ 0%nat
    = (Ok linear_cal, 6%nat) /\
  @__init__ E "x + p[0]" (A1D [5]) (Some "y - p[0]") (A1D [0; 10]) (A1D [0; 10]) ∅ 0%nat
    = (Ok shifted_cal, 6%nat) /\
  @__init__ E "x + p[0]" (A1D [5]) None (A1D [0; 10]) (A1D [0; 10]) ∅ 0%nat
    = (Ok shifted_numeric_cal, 6%nat) /\
  @add_points E (Some (A1D [1])) (Some (A1D [1])) (linear_cal, 6%nat)
    = (Ok tt, (one_point_cal, 6%nat)) /\
  @set_domain E (A1D [5; 10]) (one_point_cal, 6%nat)
    = (Ok tt, (moved_domain_cal, 6%nat)).
Proof. repeat split; vm_compute; reflexivity. Qed.

(** C1, counterexample.  With y = x + 5 clipped into [0, 10], the forward
    value at x = 8 is 10; the inverse of 10 is 5 by the inverse expression
    and 10 by root finding, each passing the final check; neither is close
    to 8. *)
Lemma round_trip_counterexample :
  @__call__ E shifted_cal (Scalar 8) = Ok (Scalar 10) /\
  @inverse E shifted_cal (Scalar 10) None = Ok (Scalar 5) /\
  np_allclose (Scalar 5) (Scalar 8) = Ok false /\
  @__call__ E shifted_numeric_cal (Scalar 8) = Ok (Scalar 10) /\
  @inverse E shifted_numeric_cal (Scalar 10) None = Ok (Scalar 10) /\
  np_allclose (Scalar 10) (Scalar 8) = Ok false.
Proof. repeat split; vm_compute; reflexivity. Qed.

Lemma inverse_is_checked_witness :
  @inverse E shifted_cal (Scalar 10) None = Ok (Scalar 5) /\
  exists fx, @__call__ E shifted_cal (Scalar 5) = Ok fx /\
             np_allclose fx (Scalar 10) = Ok true.
Proof.
  split; [reflexivity|].
  apply (proj1 (@inverse_is_checked E shifted_cal (Scalar 10) None) (Scalar 5)).
  reflexivity.
Defined.

Lemma eval_expression_domain_contract_witness :
  (@_eval_expression E "p[0] + p[1] * x" [1; 2] (Scalar (-1)) "x" (A1D [0; 10]) (A1D [0; 100])
     = Raise (CalibrationError BelowDomain) \/
   @_eval_expression E "p[0] + p[1] * x" [1; 2] (Scalar (-1)) "x" (A1D [0; 10]) (A1D [0; 100])
     = Raise (CalibrationError AboveDomain)) /\
  @_eval_expression E "p[0] + p[1] * x" [1; 2] (Scalar 0) "x" (A1D [0; 10]) (A1D [0; 100])
    = Ok (Scalar 1) /\
  @_eval_expression E "p[0] + p[1] * x" [1; 2] (Scalar 10) "x" (A1D [0; 10]) (A1D [0; 100])
    = Ok (Scalar 21).
Proof.
  destruct (@eval_expression_domain_contract E "p[0] + p[1] * x" [1; 2] "x"
              (A1D [0; 10]) (A1D [0; 100]) eq_refl (list_elem_of_here _ _))
    as [Hout Hin].
  split; [|split].
  - apply (Hout (Scalar (-1))). constructor. left. reflexivity.
  - exact (proj1 (Hin 0 (or_introl eq_refl)) (Scalar 1) eq_refl).
  - exact (proj1 (Hin 10 (or_intror eq_refl)) (Scalar 21) eq_refl).
Defined.

Lemma eval_expression_clips_to_range_witness :
  @_eval_expression E "p[0] * x" [2] (Array [1; 8]) "x" (A1D [0; 10]) (A1D [0; 10])
    = Ok (Array [2; 10]) /\
  @_eval_expression E "p[0] * x - p[1]" [2; 5] (Array [1; 8]) "x" (A1D [0; 10]) (A1D [0; 10])
    = Ok (Array [0; 10]).
Proof.
  split.
  - apply (proj2 (@eval_expression_clips_to_range E "p[0] * x" [2] "x"
                    (A1D [0; 10]) (A1D [0; 10]) (Array [1; 8])) (Array [2; 16]));
      [reflexivity | apply list_elem_of_here | | reflexivity].
    repeat constructor; discriminate.
  - apply (proj2 (@eval_expression_clips_to_range E "p[0] * x - p[1]" [2; 5] "x"
                    (A1D [0; 10]) (A1D [0; 10]) (Array [1; 8])) (Array [-3; 11]));
      [reflexivity | apply list_elem_of_here | | reflexivity].
    repeat constructor; discriminate.
Defined.

Lemma validate_expression_parameter_indices_witness :
  @_validate_expression E "p[0]+p[2]*x" None "x" DEFAULT_DOMAIN DEFAULT_RANGE 0%nat
    = (Raise (CalibrationError IndicesNotContiguous), 0%nat) /\
  @_validate_expression E "p[0]+p[1]*x" None "x" DEFAULT_DOMAIN DEFAULT_RANGE 0%nat
    = (Ok "p[0] + p[1] * x", 0%nat) /\
  (forall a b c,
     @_validate_expression E "p[0]+p[1]*x" (Some [a; b; c]) "x" DEFAULT_DOMAIN DEFAULT_RANGE 0%nat
       = (Raise (CalibrationError ParamCountMismatch), 0%nat)) /\
  (exists idx,
    @_validate_expression E "p[0]+p[1]*x" (Some [1; 2]) "x" DEFAULT_DOMAIN DEFAULT_RANGE 0%nat
      = (Ok "p[0] + p[1] * x", 6%nat) /\
    _param_indices (String.append "p[0] + p[1] * x" newline) = Ok idx /\
    idx = [0%Z; 1%Z] /\ length [1; 2] = length idx) /\
  @_validate_expression E "p[1]*x+p[0]" None "x" DEFAULT_DOMAIN DEFAULT_RANGE 0%nat
    = (Ok "p[1] * x + p[0]", 0%nat) /\
  @_validate_expression E "p[0]+p[0]*x+p[1]*x" None "x" DEFAULT_DOMAIN DEFAULT_RANGE 0%nat
    = (Ok "p[0] + p[0] * x + p[1] * x", 0%nat) /\
  (forall params,
     @_validate_expression E "p[1]*x" params "x" DEFAULT_DOMAIN DEFAULT_RANGE 0%nat
       = (Raise (CalibrationError MinIndexNotZero), 0%nat)) /\
  (forall params,
     @_validate_expression E "p[0]+p[2]*x" params "x" DEFAULT_DOMAIN DEFAULT_RANGE 0%nat
       = (Raise (CalibrationError IndicesNotContiguous), 0%nat)) /\
  (forall a,
     @_validate_expression E "p[1]*x+p[0]" (Some [a]) "x" DEFAULT_DOMAIN DEFAULT_RANGE 0%nat
       = (Raise (CalibrationError ParamCountMismatch), 0%nat)).
Proof.
  repeat apply conj.
  - apply (proj1 (proj1 (proj2 (proj2
      (@validate_expression_parameter_indices E "p[0]+p[2]*x" "x"
         DEFAULT_DOMAIN DEFAULT_RANGE 0%nat))) eq_refl (list_elem_of_here _ _)));
      [reflexivity|].
    apply list_elem_of_further, list_elem_of_further, list_elem_of_here.
  - apply (proj2 (proj1 (proj2 (proj2
      (@validate_expression_parameter_indices E "p[0]+p[1]*x" "x"
         DEFAULT_DOMAIN DEFAULT_RANGE 0%nat))) eq_refl (list_elem_of_here _ _)));
      [reflexivity|].
    apply list_elem_of_further, list_elem_of_further, list_elem_of_here.
  - apply (proj2 (proj1 (proj2 (proj2
      (@validate_expression_parameter_indices E "p[0]+p[1]*x" "x"
         DEFAULT_DOMAIN DEFAULT_RANGE 0%nat))) eq_refl (list_elem_of_here _ _)));
      [reflexivity|].
    apply list_elem_of_further, list_elem_of_further, list_elem_of_here.
  - destruct (proj1 (@validate_expression_parameter_indices E "p[0]+p[1]*x" "x"
                       DEFAULT_DOMAIN DEFAULT_RANGE 0%nat)
                (Some [1; 2]) "p[0] + p[1] * x" 6%nat eq_refl)
      as (formatted & raw & idx & Hb & _ & Hp & _ & _ & Hc & Hl).
    injection Hb as <-.
    exists idx. split; [reflexivity|]. split; [exact Hp|].
    split; [|exact (Hl _ eq_refl)].
    rewrite Hc, <- (Hl _ eq_refl). reflexivity.
  - assert (Hn : "x" ∈ @ast_names E (String.append "p[1] * x + p[0]" newline))
      by (vm_compute; repeat constructor).
    pose proof (proj2 (proj2 (proj2 (proj2
      (@validate_expression_parameter_indices E "p[1]*x+p[0]" "x"
         DEFAULT_DOMAIN DEFAULT_RANGE 0%nat))) _ eq_refl eq_refl
         (list_elem_of_here _ _) Hn) [1%Z; 0%Z] eq_refl) as (_ & Hok & _).
    apply (proj2 Hok). exists 2%nat. intros j. cbn. lia.
  - assert (Hn : "x" ∈ @ast_names E (String.append "p[0] + p[0] * x + p[1] * x" newline))
      by (vm_compute; repeat constructor).
    pose proof (proj2 (proj2 (proj2 (proj2
      (@validate_expression_parameter_indices E "p[0]+p[0]*x+p[1]*x" "x"
         DEFAULT_DOMAIN DEFAULT_RANGE 0%nat))) _ eq_refl eq_refl
         (list_elem_of_here _ _) Hn) [0%Z; 0%Z; 1%Z] eq_refl) as (_ & Hok & _).
    apply (proj2 Hok). exists 2%nat. intros j. cbn. lia.
  - intros params.
    assert (Hn : "x" ∈ @ast_names E (String.append "p[1] * x" newline))
      by (vm_compute; repeat constructor).
    pose proof (proj2 (proj2 (proj2 (proj2
      (@validate_expression_parameter_indices E "p[1]*x" "x"
         DEFAULT_DOMAIN DEFAULT_RANGE 0%nat))) _ eq_refl eq_refl
         (list_elem_of_here _ _) Hn) [1%Z] eq_refl) as (Hmin & _).
    apply (proj2 (proj1 (Hmin params))). split; [discriminate|].
    intros [[H|[]] _]. discriminate.
  - intros params.
    assert (Hn : "x" ∈ @ast_names E (String.append "p[0] + p[2] * x" newline))
      by (vm_compute; repeat constructor).
    pose proof (proj2 (proj2 (proj2 (proj2
      (@validate_expression_parameter_indices E "p[0]+p[2]*x" "x"
         DEFAULT_DOMAIN DEFAULT_RANGE 0%nat))) _ eq_refl eq_refl
         (list_elem_of_here _ _) Hn) [0%Z; 2%Z] eq_refl) as (Hmin & _).
    apply (proj2 (proj2 (Hmin params))). split; [now left|].
    split; [intros j [<-|[<-|[]]]; lia|].
    exists 2%Z. split; [right; now left|]. split; [lia|].
    intros [H|[H|[]]]; discriminate.
  - intros a.
    assert (Hn : "x" ∈ @ast_names E (String.append "p[1] * x + p[0]" newline))
      by (vm_compute; repeat constructor).
    pose proof (proj2 (proj2 (proj2 (proj2
      (@validate_expression_parameter_indices E "p[1]*x+p[0]" "x"
         DEFAULT_DOMAIN DEFAULT_RANGE 0%nat))) _ eq_refl eq_refl
         (list_elem_of_here _ _) Hn) [1%Z; 0%Z] eq_refl) as (_ & _ & Hp & _).
    apply (proj2 (proj1 (Hp [a]))). exists 2%nat. split; [|discriminate].
    intros j. cbn. lia.
Defined.

(** C5, counterexample.  After add_points([1], [1]) with domain (0, 10),
    setting the domain to (5, 10) succeeds and leaves the stored x = 1
    outside the domain. *)
Lemma stored_point_outside_domain :
  (run* @add_points E (Some (A1D [1])) (Some (A1D [1])) in
   @set_domain E (A1D [5; 10])) (linear_cal, 6%nat)
    = (Ok tt, (moved_domain_cal, 6%nat)) /\
  _points_x moved_domain_cal = [1] /\
  _domain moved_domain_cal = A1D [5; 10] /\
  ~ points_ok moved_domain_cal.
Proof.
  split; [vm_compute; reflexivity|].
  split; [reflexivity|]. split; [reflexivity|].
  intros (_ & _ & Hx & _). inversion Hx as [|x l Hw _]; subst.
  destruct Hw as [Hlo _]. revert Hlo. vm_compute. intros Hlo. now apply Hlo.
Qed.

(** Once a stored point lies outside the domain, the second check of
    [add_points] raises after the new points have been appended: the object
    keeps the appended, unsorted lists. *)
Lemma failed_add_points_keeps_appended :
  @add_points E (Some (A1D [7])) (Some (A1D [7]))
    (mkCalibration "p[0] + p[1] * x" [1; 2] None (A1D [7; 10]) (A1D [0; 100]) ∅
       [6; 8] [6; 8] true, 6%nat)
    = (Raise (CalibrationError XOutsideDomain),
       (mkCalibration "p[0] + p[1] * x" [1; 2] None (A1D [7; 10]) (A1D [0; 100]) ∅
          [6; 8; 7] [6; 8; 7] true, 6%nat)) /\
  @set_domain E (A1D [7; 10]) (two_point_cal, 6%nat)
    = (Ok tt,
       (mkCalibration "p[0] + p[1] * x" [1; 2] None (A1D [7; 10]) (A1D [0; 100]) ∅
          [6; 8] [6; 8] true, 6%nat)) /\
  points_ok two_point_cal.
Proof.
  split; [vm_compute; reflexivity|]. split; [vm_compute; reflexivity|].
  unfold points_ok, within. simpl.
  split; [reflexivity|].
  split; [repeat constructor; discriminate|].
  split; repeat constructor; discriminate.
Qed.

Lemma add_points_sorts_combined_store_witness :
  points_ok one_point_cal /\
  Permutation (pairs one_point_cal) (pairs linear_cal ++ combine [1] [1]) /\
  exists c',
    (run* @add_points E (Some (A1D [3; 1])) (Some (A1D [30; 10])) in
     @add_points E (Some (A1D [2])) (Some (A1D [20])))
      (mkCalibration "x" [] None DEFAULT_DOMAIN DEFAULT_RANGE ∅ [] [] true, 0%nat)
      = (Ok tt, (c', 0%nat)) /\
    _points_x c' = [1; 2; 3] /\ _points_y c' = [10; 20; 30].
Proof.
  destruct (@add_points_sorts_combined_store E linear_cal 6%nat)
    as (Hadd & _ & _ & _).
  destruct (Hadd (Some (A1D [1])) (Some (A1D [1])) one_point_cal 6%nat eq_refl)
    as (Hok & _ & _ & xs & ys & Hx & Hy & Hp).
  injection Hx as <-. injection Hy as <-.
  split; [exact Hok|]. split; [exact Hp|].
  exact (proj2 (proj2 (proj2
    (@add_points_sorts_combined_store E
       (mkCalibration "x" [] None DEFAULT_DOMAIN DEFAULT_RANGE ∅ [] [] true) 0%nat)))
    eq_refl eq_refl eq_refl eq_refl).
Defined.

Lemma eq_compares_expression_and_params_witness :
  __eq__ linear_cal (PyCalibration one_point_cal) = Ok true /\
  __eq__ linear_cal (PyCalibration moved_domain_cal) = Ok true /\
  __eq__ linear_cal
    (PyCalibration (with_params [1; 2000001 # 1000000] linear_cal)) = Ok true /\
  __eq__ linear_cal (PyCalibration (with_params [1; 3] linear_cal)) = Ok false /\
  __eq__ linear_cal (PyCalibration shifted_cal) = Ok false.
Proof.
  split; [|split; [|split; [|split]]].
  - apply (proj1 (proj2 (eq_compares_expression_and_params linear_cal one_point_cal))).
    split; [reflexivity|]. repeat constructor; discriminate.
  - apply (proj1 (proj2 (eq_compares_expression_and_params linear_cal moved_domain_cal))).
    split; [reflexivity|]. repeat constructor; discriminate.
  - apply (proj1 (proj2 (eq_compares_expression_and_params linear_cal
                           (with_params [1; 2000001 # 1000000] linear_cal)))).
    split; [reflexivity|]. repeat constructor; discriminate.
  - reflexivity.
  - apply (proj1 (proj2 (proj2 (eq_compares_expression_and_params linear_cal shifted_cal)))).
    discriminate.
Defined.

Lemma eq_rejects_other_types_witness :
  __eq__ linear_cal PyNone = Raise (CalibrationError CompareNonCalibration) /\
  __eq__ linear_cal (PyNumber 1) = Raise (CalibrationError CompareNonCalibration).
Proof.
  split.
  - apply (eq_rejects_other_types linear_cal PyNone). reflexivity.
  - apply (eq_rejects_other_types linear_cal (PyNumber 1)). reflexivity.
Defined.


(** C8, counterexample.  On a store holding the point (1, 1), a
    [set_points] whose x = 20 lies outside the domain (0, 10) raises, and
    the store is empty afterwards. *)
Lemma failed_set_points_empties_store :
  points_ok one_point_cal /\
  @set_points E (Some (A1D [20])) (Some (A1D [1])) (one_point_cal, 6%nat)
    = (Raise (CalibrationError XOutsideDomain), (emptied_cal, 6%nat)) /\
  _points_x one_point_cal = [1] /\ _points_x emptied_cal = [] /\
  emptied_cal <> one_point_cal.
Proof.
  split; [|split; [vm_compute; reflexivity|]].
  - unfold points_ok, within. simpl.
    split; [reflexivity|]. split; [repeat constructor|].
    split; repeat constructor; discriminate.
  - split; [reflexivity|]. split; [reflexivity|]. discriminate.
Qed.

Lemma failed_mutation_keeps_object_witness :
  @set_expression E "p[0] + p[2] * x" (linear_cal, 6%nat)
    = (Raise (CalibrationError IndicesNotContiguous), (linear_cal, 6%nat)) /\
  @set_params E (A1D [1; 2; 3]) (linear_cal, 6%nat)
    = (Raise (CalibrationError ParamCountMismatch), (linear_cal, 6%nat)) /\
  @fit E (linear_cal, 6%nat)
    = (Raise (CalibrationError NotEnoughPoints), (linear_cal, 12%nat)) /\
  @fit E (mkCalibration "p[0] + p[1] * x" [1; 2] None (A1D [0; 10]) (A1D [0; 100]) ∅
            [1; 2] [3; 5] true, 6%nat)
    = (Raise (CalibrationError SolverFailed),
       (mkCalibration "p[0] + p[1] * x" [1; 2] None (A1D [0; 10]) (A1D [0; 100]) ∅
          [1; 2] [3; 5] true, 12%nat)).
Proof.
  destruct (@failed_mutation_keeps_object E linear_cal 6%nat)
    as (Hexpr & Hparams & _ & _ & _ & Hfit & _).
  split; [|split; [|split]].
  - destruct (@set_expression E "p[0] + p[2] * x" (linear_cal, 6%nat))
      as [r [c' g']] eqn:Hrun.
    assert (r = Raise (CalibrationError IndicesNotContiguous) /\ g' = 6%nat) as [-> ->].
    { revert Hrun. vm_compute. now intros [= <- _ <-]. }
    now rewrite (Hexpr _ _ _ _ Hrun).
  - destruct (@set_params E (A1D [1; 2; 3]) (linear_cal, 6%nat))
      as [r [c' g']] eqn:Hrun.
    assert (r = Raise (CalibrationError ParamCountMismatch) /\ g' = 6%nat) as [-> ->].
    { revert Hrun. vm_compute. now intros [= <- _ <-]. }
    now rewrite (Hparams _ _ _ _ Hrun).
  - destruct (@fit E (linear_cal, 6%nat)) as [r [c' g']] eqn:Hrun.
    assert (r = Raise (CalibrationError NotEnoughPoints) /\ g' = 12%nat) as [-> ->].
    { revert Hrun. vm_compute. now intros [= <- _ <-]. }
    now rewrite (Hfit _ _ _ Hrun).
  - vm_compute. reflexivity.
Defined.

Lemma read_ignores_persisted_range_witness :
  exists c,
    @read E persisted_dsets ∅ 0%nat = (Ok c, 6%nat) /\
    _expression c = "p[0] + p[1] * x" /\ _params c = [1; 2] /\
    _domain c = A1D [0; 10] /\
    _range c = A1D [0; 100000] /\
    _attrs c !! "range" = Some (HArr [0; 50]).
Proof.
  destruct (@read E persisted_dsets ∅ 0%nat) as [[c|e] g'] eqn:Hrun;
    [|exfalso; revert Hrun; vm_compute; discriminate].
  destruct (@read_ignores_persisted_range E persisted_dsets ∅ 0%nat g' c
              (lookup_empty _) Hrun)
    as (Hrange & v & Hv & Hattrs).
  exists c.
  assert (g' = 6%nat /\ _expression c = "p[0] + p[1] * x" /\ _params c = [1; 2] /\
          _domain c = A1D [0; 10]) as (-> & He & Hp & Hd).
  { revert Hrun. vm_compute. intros [= <- <-]. auto. }
  split; [reflexivity|]. repeat (split; [assumption|]).
  rewrite Hattrs. rewrite <- Hv. reflexivity.
Defined.

(** ** The further properties on the examples *)

Lemma domain_range_guard_witness :
  _validate_domain_range (A1D [0; 10]) (A1D [0; 100]) = Ok tt /\
  (exists c' g', @set_domain E (A1D [0; 10]) (linear_cal, 6%nat) = (Ok tt, (c', g'))) /\
  ~ (exists c' g', @set_range E (A1D [100; 0]) (linear_cal, 6%nat) = (Ok tt, (c', g'))).
Proof.
  assert (forall a b, (a < 2 ^ 63)%Z -> (b < 2 ^ 63)%Z -> (0 <= a)%Z -> (0 <= b)%Z ->
            fits_64_bits (A1D [inject_Z a; inject_Z b])) as Hfits.
  { intros a b Ha Hb Ha0 Hb0. unfold fits_64_bits. simpl.
    repeat constructor; rewrite <- ?inject_Z_opp, <- ?Zle_Qle, <- ?Zlt_Qlt; lia. }
  destruct (@domain_range_guard E (A1D [0; 10]) (A1D [0; 100])
              (Hfits 0%Z 10%Z ltac:(lia) ltac:(lia) ltac:(lia) ltac:(lia))
              (Hfits 0%Z 100%Z ltac:(lia) ltac:(lia) ltac:(lia) ltac:(lia)))
    as (Hok & _ & Hset & _).
  destruct (@domain_range_guard E (A1D [0; 10]) (A1D [100; 0])
              (Hfits 0%Z 10%Z ltac:(lia) ltac:(lia) ltac:(lia) ltac:(lia))
              (Hfits 100%Z 0%Z ltac:(lia) ltac:(lia) ltac:(lia) ltac:(lia)))
    as (_ & _ & _ & _ & Hrng & _).
  split; [|split].
  - apply Hok. exists 0, 10, 0, 100.
    split; [reflexivity|]. split; [reflexivity|]. split; reflexivity.
  - apply Hset. exists 0, 10. split; reflexivity.
  - intros Hex. apply Hrng in Hex as (r0 & r1 & [= <- <-] & Hlt). discriminate Hlt.
Defined.

Lemma validate_expression_params_only_restrict_witness :
  @_validate_expression E "p[0]+p[1]*x" None "x" (A1D [0; 10]) (A1D [0; 100]) 0%nat
    = (Ok "p[0] + p[1] * x", 0%nat).
Proof.
  apply (proj1 (@validate_expression_params_only_restrict E "p[0]+p[1]*x" "x"
                  (A1D [0; 10]) (A1D [0; 100]) 0%nat) [1; 2] _ 6%nat).
  vm_compute. reflexivity.
Defined.

Lemma inverse_within_bounds_witness :
  @inverse E shifted_cal (Scalar 10) None = Ok (Scalar 5) /\
  Forall (within 0 10) [5] /\ Forall (within 0 10) [10].
Proof.
  split; [reflexivity|].
  apply (@inverse_within_bounds E shifted_cal (Scalar 10) (Scalar 5) None).
  reflexivity.
Defined.

Lemma check_points_idempotent_witness :
  _check_points (Some (A1D [3; 1])) (Some (A1D [30; 10])) (A1D [0; 10]) (A1D [0; 100])
    = Ok ([1; 3], [10; 30]) /\
  _check_points (Some (A1D [1; 3])) (Some (A1D [10; 30])) (A1D [0; 10]) (A1D [0; 100])
    = Ok ([1; 3], [10; 30]).
Proof.
  split; [reflexivity|].
  apply (check_points_idempotent (Some (A1D [3; 1])) (Some (A1D [30; 10]))).
  - reflexivity.
  - repeat constructor.
Defined.

Lemma add_points_either_order_witness :
  points_ok linear_cal /\
  exists c21,
    (run* @add_points E (Some (A1D [2])) (Some (A1D [20])) in
     @add_points E (Some (A1D [3; 1])) (Some (A1D [30; 10]))) (linear_cal, 6%nat)
      = (Ok tt, (c21, 6%nat)).
Proof.
  assert (points_ok linear_cal) as Hok.
  { unfold points_ok. simpl. split; [reflexivity|]. repeat constructor. }
  split; [exact Hok|].
  apply (proj1 (proj1 (@add_points_either_order E linear_cal 6%nat
                         (Some (A1D [3; 1])) (Some (A1D [30; 10]))
                         (Some (A1D [2])) (Some (A1D [20])) Hok))).
  eexists. vm_compute. reflexivity.
Defined.

Lemma set_points_replaces_store_witness :
  @set_points E (Some (A1D [20])) (Some (A1D [1])) (one_point_cal, 6%nat)
    = (Raise (CalibrationError XOutsideDomain), (emptied_cal, 6%nat)) /\
  _points_x emptied_cal = [] /\ _points_y emptied_cal = [].
Proof.
  assert (@set_points E (Some (A1D [20])) (Some (A1D [1])) (one_point_cal, 6%nat)
            = (Raise (CalibrationError XOutsideDomain), (emptied_cal, 6%nat))) as Hrun
    by (vm_compute; reflexivity).
  split; [exact Hrun|].
  destruct (@set_points_replaces_store E _ _ _ _ _ _ _ Hrun) as (_ & _ & _ & Hempty & _).
  apply Hempty. discriminate.
Defined.

Lemma fit_chi_squared_nonnegative_witness :
  (exists chi, @fit_chi_squared E exact_fit_cal = Ok (Finite chi) /\ chi == 0) /\
  (exists chi, @fit_chi_squared E zero_y_cal = Ok (Finite chi) /\ 0 <= chi /\
     chi = np_sum (map (fun yf => square (fst yf - snd yf) / fst yf) [(5, 5)])) /\
  @fit_chi_squared E emptied_cal = Raise AttributeError.
Proof.
  split; [|split].
  - apply (proj1 (proj2 (@fit_chi_squared_nonnegative E exact_fit_cal)) [3; 5]).
    + reflexivity.
    + vm_compute. reflexivity.
    + repeat constructor.
  - destruct (@fit_chi_squared E zero_y_cal) as [v|e] eqn:Hchi;
      [|exfalso; revert Hchi; vm_compute; discriminate].
    destruct (proj1 (@fit_chi_squared_nonnegative E zero_y_cal) v Hchi)
      as (fitted & chi & Hf & -> & Hge & Hsum).
    exists chi. split; [reflexivity|]. split; [exact Hge|].
    assert (fitted = [3; 5]) as -> by (revert Hf; vm_compute; congruence).
    exact Hsum.
  - apply (proj2 (proj2 (proj2 (proj2 (@fit_chi_squared_nonnegative E emptied_cal))))
             (Some (A1D [20])) (Some (A1D [1])) one_point_cal 6%nat
             (CalibrationError XOutsideDomain) 6%nat).
    vm_compute. reflexivity.
Defined.

Lemma fit_R_squared_at_most_one_witness :
  (exists r2, @fit_R_squared E two_point_cal = Ok (Finite r2) /\ r2 <= 1) /\
  @fit_R_squared E one_point_cal = Ok NonFinite.
Proof.
  split.
  - destruct (@fit_R_squared E two_point_cal) as [[r2|]|e] eqn:Hr;
      try (exfalso; revert Hr; vm_compute; discriminate).
    exists r2. split; [reflexivity|].
    exact (proj1 (@fit_R_squared_at_most_one E two_point_cal) r2 Hr).
  - destruct (@fit_R_squared E one_point_cal) as [v|e] eqn:Hr;
      [|exfalso; revert Hr; vm_compute; discriminate].
    f_equal.
    apply (proj2 (proj2 (@fit_R_squared_at_most_one E one_point_cal)) v Hr).
    simpl. lia.
Defined.


Lemma copy_drops_points_witness :
  @copy E one_point_cal 6%nat = (Ok linear_cal, 12%nat) /\
  _points_x one_point_cal = [1] /\ _points_x linear_cal = [] /\
  _params linear_cal = _params one_point_cal.
Proof.
  assert (@copy E one_point_cal 6%nat = (Ok linear_cal, 12%nat)) as Hrun
    by (vm_compute; reflexivity).
  split; [exact Hrun|]. split; [reflexivity|].
  destruct (@copy_drops_points E _ _ _ _ Hrun) as (Hx & _ & Hp & _).
  split; assumption.
Defined.

Lemma read_after_write_witness :
  exists c',
    @read E (fst (@write one_point_cal)) (snd (@write one_point_cal)) 0%nat = (Ok c', 6%nat) /\
    _params c' = [1; 2] /\ _domain c' = A1D [0; 10] /\
    Permutation (pairs c') [(1, 1)].
Proof.
  destruct (@read E (fst (write one_point_cal)) (snd (write one_point_cal)) 0%nat)
    as [[c'|e] g'] eqn:Hrun; [|exfalso; revert Hrun; vm_compute; discriminate].
  destruct (@read_after_write E one_point_cal c' 0%nat g' Hrun) as (Hp & Hd & Hperm & _).
  exists c'.
  assert (g' = 6%nat) as -> by (revert Hrun; vm_compute; now intros [= _ <-]).
  split; [reflexivity|]. split; [exact Hp|]. split; [exact Hd|exact Hperm].
Defined.

Lemma reread_is_type_error_witness :
  exists c1,
    @read E persisted_dsets ∅ 0%nat = (Ok c1, 6%nat) /\
    @read E (fst (write c1)) (snd (write c1)) 0%nat = (Raise TypeError, 0%nat).
Proof.
  destruct (@read E persisted_dsets ∅ 0%nat) as [[c1|e] g1] eqn:Hrun;
    [|exfalso; revert Hrun; vm_compute; discriminate].
  exists c1.
  assert (g1 = 6%nat) as -> by (revert Hrun; vm_compute; now intros [= _ <-]).
  split; [reflexivity|].
  apply (@reread_is_type_error E persisted_dsets ∅ 0%nat 6%nat 0%nat c1);
    [intros s; reflexivity | exact Hrun].
Defined.

Lemma fit_replaces_params_only_witness :
  @fit line_fitter (unfitted_cal, 0%nat) = (Ok tt, (exact_fit_cal, 12%nat)) /\
  exact_fit_cal = with_params [1; 2] unfitted_cal /\
  (length (_params exact_fit_cal) <= length (_points_x unfitted_cal))%nat.
Proof.
  assert (@fit line_fitter (unfitted_cal, 0%nat) = (Ok tt, (exact_fit_cal, 12%nat)))
    as Hrun by (vm_compute; reflexivity).
  split; [exact Hrun|].
  destruct (@fit_replaces_params_only line_fitter _ _ _ _ Hrun) as (Hc & _ & _ & Hle & _).
  split; [exact Hc|exact Hle].
Defined.

Lemma fit_points_sets_and_fits_witness :
  exists c',
    @fit_points line_fitter (Some (A1D [2; 1])) (Some (A1D [5; 3])) None true
      (linear_cal, 0%nat) = (Ok tt, (c', 12%nat)) /\
    Permutation (pairs c') [(2, 5); (1, 3); (0, 0)] /\
    (length (_params c') <= length (_points_x c'))%nat.
Proof.
  destruct (@fit_points line_fitter (Some (A1D [2; 1])) (Some (A1D [5; 3])) None true
              (linear_cal, 0%nat)) as [[[]|e] [c' g']] eqn:Hrun;
    [|exfalso; revert Hrun; vm_compute; discriminate].
  assert (g' = 12%nat) as -> by (revert Hrun; vm_compute; now intros [= _ <-]).
  exists c'. split; [reflexivity|].
  destruct (@fit_points_sets_and_fits line_fitter _ _ _ _ _ _ _ _ Hrun)
    as (_ & (xs & ys & [= <-] & [= <-] & Hperm) & Hle & _).
  split; [exact Hperm|exact Hle].
Defined.

Lemma from_points_holds_given_points_witness :
  exists c,
    @from_points line_fitter "p[0] + p[1] * x" (Some (A1D [2; 1])) (Some (A1D [5; 3]))
      None false (A1D [0; 10]) (A1D [0; 100]) ∅ 0%nat = (Ok c, 12%nat) /\
    Permutation (pairs c) [(2, 5); (1, 3)] /\
    _domain c = A1D [0; 10] /\ _range c = A1D [0; 100].
Proof.
  destruct (@from_points line_fitter "p[0] + p[1] * x" (Some (A1D [2; 1]))
              (Some (A1D [5; 3])) None false (A1D [0; 10]) (A1D [0; 100]) ∅ 0%nat)
    as [[c|e] g'] eqn:Hrun; [|exfalso; revert Hrun; vm_compute; discriminate].
  assert (g' = 12%nat) as -> by (revert Hrun; vm_compute; now intros [= _ <-]).
  exists c. split; [reflexivity|].
  destruct (@from_points_holds_given_points line_fitter _ _ _ _ _ _ _ _ _ _ _ Hrun)
    as (_ & (xs & ys & [= <-] & [= <-] & Hperm) & _ & Hd & Hr & _).
  split; [exact Hperm|]. split; [exact Hd|exact Hr].
Defined.

Lemma from_linear_takes_two_coefficients_witness :
  @from_linear E (A1D [1; 2]) (A1D [0; 10]) (A1D [0; 100]) ∅ 0%nat = (Ok linear_cal, 6%nat) /\
  @from_linear E (A1D [1; 2; 3]) (A1D [0; 10]) (A1D [0; 100]) ∅ 0%nat
    = (Raise (CalibrationError LinearExpects2), 0%nat).
Proof.
  split; [vm_compute; reflexivity|].
  apply (proj1 (proj2 (@from_linear_takes_two_coefficients E (A1D [1; 2; 3])
                         (A1D [0; 10]) (A1D [0; 100]) ∅ 0%nat)) [1; 2; 3] eq_refl).
  discriminate.
Defined.

Lemma from_polynomial_needs_order_one_witness :
  @from_polynomial E (A1D [1]) (A1D [0; 10]) (A1D [0; 100]) ∅ 0%nat
    = (Raise (CalibrationError PolynomialOrder), 0%nat) /\
  @from_sqrt_polynomial E (A1D [1]) (A1D [0; 10]) (A1D [0; 100]) ∅ 0%nat
    = (Raise (CalibrationError PolynomialOrder), 0%nat).
Proof.
  apply (proj1 (@from_polynomial_needs_order_one E (A1D [1])
                  (A1D [0; 10]) (A1D [0; 100]) ∅ 0%nat) [1] eq_refl).
  simpl. lia.
Defined.

Lemma validated_text_indices_witness :
  @_validate_expression E " p[0]+p[1]*x " (Some [1; 2]) "x" (A1D [0; 10]) (A1D [0; 100]) 0%nat
    = (Ok "p[0] + p[1] * x", 6%nat) /\
  exists n, _param_indices "p[0] + p[1] * x" = Ok (map Z.of_nat (seq 0 n)) /\
            forall p, Some [1; 2] = Some p -> length p = n.
Proof.
  assert (@_validate_expression E " p[0]+p[1]*x " (Some [1; 2]) "x" (A1D [0; 10])
            (A1D [0; 100]) 0%nat = (Ok "p[0] + p[1] * x", 6%nat)) as Hrun
    by (vm_compute; reflexivity).
  split; [exact Hrun|].
  exact (@validated_text_indices E _ _ _ _ _ _ _ _ Hrun).
Defined.

Lemma check_points_accepts_exactly_witness :
  (exists out, _check_points (Some (A1D [3; 1])) (Some (A1D [30; 10]))
                 (A1D [0; 10]) (A1D [0; 100]) = Ok out) /\
  ~ (exists out, _check_points (Some (A1D [3; 11])) (Some (A1D [30; 10]))
                   (A1D [0; 10]) (A1D [0; 100]) = Ok out).
Proof.
  split.
  - apply (proj1 (check_points_accepts_exactly (Some (A1D [3; 1])) (Some (A1D [30; 10]))
                    0 10 0 100)).
    exists [3; 1], [30; 10]. split; [reflexivity|]. split; [reflexivity|].
    split; [reflexivity|]. unfold within.
    split; repeat constructor; discriminate.
  - intros Hex.
    apply (proj1 (check_points_accepts_exactly (Some (A1D [3; 11])) (Some (A1D [30; 10]))
                    0 10 0 100)) in Hex as (xs & ys & [= <-] & _ & _ & Hx & _).
    inversion Hx as [|? ? _ Hx']. inversion Hx' as [|? ? [_ H11] _].
    apply H11. reflexivity.
Defined.

Lemma from_interpolation_keeps_no_points_witness :
  @from_interpolation identity_interpreter (fun _ => "[]")
    (Some (A1D [1])) (Some (A1D [2])) (A1D [0; 10]) (A1D [0; 100]) ∅ 0%nat
    = (Raise (CalibrationError InterpolationExpects2), 0%nat) /\
  exists c,
    @from_interpolation identity_interpreter (fun _ => "[]")
      (Some (A1D [1; 3])) (Some (A1D [2; 4])) (A1D [0; 10]) (A1D [0; 100]) ∅ 0%nat
      = (Ok c, 6%nat) /\
    _params c = [] /\ _points_x c = [] /\ _points_y c = [].
Proof.
  split.
  - apply (proj1 (@from_interpolation_keeps_no_points identity_interpreter (fun _ => "[]")
                    (Some (A1D [1])) (Some (A1D [2])) (A1D [0; 10]) (A1D [0; 100]) ∅ 0%nat)
             [1] [2]); [reflexivity | simpl; lia].
  - destruct (@from_interpolation identity_interpreter (fun _ => "[]")
                (Some (A1D [1; 3])) (Some (A1D [2; 4])) (A1D [0; 10]) (A1D [0; 100]) ∅ 0%nat)
      as [[c|e] g'] eqn:Hrun; [|exfalso; revert Hrun; vm_compute; discriminate].
    assert (g' = 6%nat) as -> by (revert Hrun; vm_compute; now intros [= _ <-]).
    exists c. split; [reflexivity|].
    destruct (proj2 (@from_interpolation_keeps_no_points identity_interpreter
                       (fun _ => "[]") _ _ _ _ _ _) c 6%nat Hrun)
      as (_ & Hp & Hx & Hy & _).
    auto.
Defined.

Lemma polynomial_expression_indices_witness :
  _polynomial_expression (A1D [1; 2; 3]) = Ok "p[0] + p[1] * x ** 1 + p[2] * x ** 2" /\
  exists n, py_len (A1D [1; 2; 3]) = Ok n /\ (2 <= n)%nat /\
    _param_indices "p[0] + p[1] * x ** 1 + p[2] * x ** 2" = Ok (map Z.of_nat (seq 0 n)) /\
    _param_indices "np.sqrt(p[0] + p[1] * x ** 1 + p[2] * x ** 2)"
      = Ok (map Z.of_nat (seq 0 n)).
Proof.
  assert (_polynomial_expression (A1D [1; 2; 3])
          = Ok "p[0] + p[1] * x ** 1 + p[2] * x ** 2") as Hrun by (vm_compute; reflexivity).
  split; [exact Hrun|].
  exact (polynomial_expression_indices _ _ Hrun).
Defined.
